(** * Aido review: diff indexing, suggestion parsing and validation

    A shallow embedding of the inline-suggestion pipeline of
    [.github/scripts/review/aido-review.js] ([buildLineMap],
    [validateSuggestion], [parseSuggestions]) and of the position resolver
    [findPositionInPatch] of the earlier revision of the same script.

    Conventions of the embedding.
    - A JavaScript string is a [string]: a sequence of code units, here
      restricted to U+0000 .. U+00FF (one [ascii] per code unit).
    - A JavaScript number that holds a line number, a position or a size is
      an integer of [Z]; [parseInt] of a run of digits is exact.  The
      overlap ratio is an exact rational of [Q].
    - A regular expression literal is a value of [regex], run by a
      backtracking matcher written in continuation-passing style, the way
      the ECMAScript specification defines pattern matching.
    - A function that can raise returns an [outcome]. *)

From Stdlib Require Import ZArith Ascii String List Bool Lia.
From Stdlib Require Import Numbers.DecimalString Numbers.DecimalPos QArith Qround.
From stdpp Require Import base option list gmap strings.

Local Open Scope string_scope.
Local Open Scope Z_scope.

(* ================================================================== *)
(** ** Characters and strings *)

Module Js.

Definition code (c : ascii) : N := N_of_ascii c.

Definition inRange (lo hi : N) (c : ascii) : bool :=
  ((lo <=? code c) && (code c <=? hi))%N.

Definition isDigit : ascii -> bool := inRange 48 57.
Definition isUpper : ascii -> bool := inRange 65 90.
Definition isLower : ascii -> bool := inRange 97 122.
Definition isLetter (c : ascii) : bool := isUpper c || isLower c.
Definition isUnderscore (c : ascii) : bool := (code c =? 95)%N.

(** [\w] *)
Definition isWord (c : ascii) : bool := isLetter c || isDigit c || isUnderscore c.

(** [\s], and the characters [trim] strips: TAB, LF, VT, FF, CR, SPACE and
    NBSP are the white space and line terminators below U+0100. *)
Definition isSpace (c : ascii) : bool :=
  inRange 9 13 c || (code c =? 32)%N || (code c =? 160)%N.

(** [.] matches anything but a line terminator. *)
Definition isLineTerminator (c : ascii) : bool :=
  (code c =? 10)%N || (code c =? 13)%N.

Definition nl : ascii := "010"%char.

(** The canonical form used by case-insensitive matching: ASCII letters are
    folded to upper case; no other code unit below U+0100 folds onto an
    ASCII letter. *)
Definition fold (c : ascii) : ascii :=
  if isLower c then ascii_of_N (code c - 32) else c.

(** [String.prototype.toLowerCase] below U+0100. *)
Definition lowerChar (c : ascii) : ascii :=
  if isUpper c || (inRange 192 222 c && negb (code c =? 215)%N)
  then ascii_of_N (code c + 32) else c.

(** [String.prototype.toUpperCase] on ASCII letters; it is only compared
    with the four upper-case ASCII priority names. *)
Definition upperChar (c : ascii) : ascii := fold c.

Fixpoint mapStr (f : ascii -> ascii) (s : string) : string :=
  match s with
  | EmptyString => EmptyString
  | String c t => String (f c) (mapStr f t)
  end.

Definition toLowerCase : string -> string := mapStr lowerChar.
Definition toUpperCase : string -> string := mapStr upperChar.

Fixpoint trimStart (s : string) : string :=
  match s with
  | String c t => if isSpace c then trimStart t else s
  | EmptyString => EmptyString
  end.

Fixpoint trimEnd (s : string) : string :=
  match s with
  | EmptyString => EmptyString
  | String c t =>
      match trimEnd t with
      | EmptyString => if isSpace c then EmptyString else String c EmptyString
      | t' => String c t'
      end
  end.

Definition trim (s : string) : string := trimEnd (trimStart s).

(** [s.split('\n')] *)
Fixpoint splitLines (s : string) : list string :=
  match s with
  | EmptyString => [EmptyString]
  | String c t =>
      if Ascii.eqb c nl then EmptyString :: splitLines t
      else match splitLines t with
           | l :: ls => String c l :: ls
           | [] => [String c EmptyString]
           end
  end.

(** [a.join('\n')] *)
Fixpoint joinLines (l : list string) : string :=
  match l with
  | [] => EmptyString
  | [x] => x
  | x :: xs => x +:+ String nl (joinLines xs)
  end.

Fixpoint startsWith (s p : string) {struct p} : bool :=
  match p with
  | EmptyString => true
  | String b p' =>
      match s with
      | EmptyString => false
      | String a s' => Ascii.eqb a b && startsWith s' p'
      end
  end.

Fixpoint includes (s p : string) : bool :=
  startsWith s p ||
  match s with
  | EmptyString => false
  | String _ t => includes t p
  end.

Fixpoint endsWith (s p : string) : bool :=
  String.eqb s p ||
  match s with
  | EmptyString => false
  | String _ t => endsWith t p
  end.

(** [s.substring(0, n)] *)
Definition substring0 (n : nat) (s : string) : string := String.substring 0 n s.

(** [s.substring(1)] *)
Definition substring1 (s : string) : string :=
  match s with
  | EmptyString => EmptyString
  | String _ t => t
  end.

Definition strlen (s : string) : Z := Z.of_nat (String.length s).

(** [parseInt(s, 10)] on a string of decimal digits. *)
Definition digitVal (c : ascii) : Z := Z.of_N (code c - 48).

Fixpoint parseDigits (acc : Z) (s : string) : Z :=
  match s with
  | EmptyString => acc
  | String c t => parseDigits (10 * acc + digitVal c) t
  end.

Definition parseInt (s : string) : Z := parseDigits 0 s.

(** Decimal rendering of an integer in a template literal. *)
Definition showZ (z : Z) : string := NilZero.string_of_int (Z.to_int z).

End Js.

(* ================================================================== *)
(** ** Regular expressions *)

Module Re.

Inductive regex : Type :=
| Eps
| Chr (p : ascii -> bool)            (* a character class *)
| Seq (r1 r2 : regex)
| Alt (r1 r2 : regex)                (* r1|r2, r1 tried first *)
| Star (greedy : bool) (r : regex)   (* r* and r*? *)
| Group (n : nat) (r : regex)        (* the n-th capturing group *)
| Look (positive : bool) (r : regex) (* (?=r) and (?!r) *)
| WordB                              (* \b *)
| EndIn.                             (* $ without the m flag *)

(** The state of a match: the code unit before the current position, the
    input from the current position on, and the captures made so far (the
    most recent first). *)
Record mstate : Type := MState {
  prev : option ascii;
  rest : string;
  caps : list (nat * string)
}.

Definition consumed (from to : string) : string :=
  Js.substring0 (String.length from - String.length to) from.

Definition isWordAt (o : option ascii) : bool :=
  match o with Some c => Js.isWord c | None => false end.

Definition firstChar (s : string) : option ascii :=
  match s with String c _ => Some c | EmptyString => None end.

(** The iterations of a star.  [step] matches the body once; an iteration
    that consumes nothing is abandoned, as in the ECMAScript semantics, so
    every iteration shortens the input and [fuel], one more than the length
    of the input, is never used up. *)
Fixpoint starLoop (step : mstate -> (mstate -> option mstate) -> option mstate)
  (greedy : bool) (k : mstate -> option mstate) (fuel : nat) (x : mstate)
  {struct fuel} : option mstate :=
  match fuel with
  | O => None
  | S fuel' =>
      let again :=
        step x (fun y =>
          if (String.length (rest y) <? String.length (rest x))%nat
          then starLoop step greedy k fuel' y else None) in
      if greedy then
        match again with Some z => Some z | None => k x end
      else
        match k x with Some z => Some z | None => again end
  end.

(** [rmatch r x k]: match [r] at [x], then continue with [k]; alternatives
    are explored in the order of the ECMAScript backtracking semantics. *)
Fixpoint rmatch (r : regex) (x : mstate) (k : mstate -> option mstate)
  {struct r} : option mstate :=
  match r with
  | Eps => k x
  | Chr p =>
      match rest x with
      | String c t => if p c then k (MState (Some c) t (caps x)) else None
      | EmptyString => None
      end
  | Seq r1 r2 => rmatch r1 x (fun y => rmatch r2 y k)
  | Alt r1 r2 =>
      match rmatch r1 x k with
      | Some z => Some z
      | None => rmatch r2 x k
      end
  | Star greedy r1 =>
      starLoop (rmatch r1) greedy k (S (String.length (rest x))) x
  | Group n r1 =>
      rmatch r1 x (fun y =>
        k (MState (prev y) (rest y) ((n, consumed (rest x) (rest y)) :: caps y)))
  | Look positive r1 =>
      match rmatch r1 x Some with
      | Some y => if positive then k (MState (prev x) (rest x) (caps y)) else None
      | None => if positive then None else k x
      end
  | WordB =>
      if xorb (isWordAt (prev x)) (isWordAt (firstChar (rest x))) then k x else None
  | EndIn =>
      match rest x with EmptyString => k x | String _ _ => None end
  end.

(** A match of the whole pattern: the text it covers, its captures and the
    state it ends in. *)
Record rmatched : Type := Matched {
  whole : string;
  groups : list (nat * string);
  after : mstate
}.

Definition matchAt (r : regex) (p : option ascii) (s : string) : option rmatched :=
  match rmatch r (MState p s []) Some with
  | Some y => Some (Matched (consumed s (rest y)) (caps y) y)
  | None => None
  end.

(** The leftmost match at or after the current position. *)
Fixpoint searchFrom (r : regex) (p : option ascii) (s : string) : option rmatched :=
  match matchAt r p s with
  | Some m => Some m
  | None =>
      match s with
      | EmptyString => None
      | String c t => searchFrom r (Some c) t
      end
  end.

(** [s.match(r)] and [r.exec(s)] for a pattern without the g flag. *)
Definition exec (r : regex) (s : string) : option rmatched := searchFrom r None s.

(** [r.test(s)] *)
Definition test (r : regex) (s : string) : bool :=
  match exec r s with Some _ => true | None => false end.

(** The value of a capturing group: [None] is JavaScript's [undefined]. *)
Fixpoint capture (n : nat) (g : list (nat * string)) : option string :=
  match g with
  | [] => None
  | (i, v) :: g' => if Nat.eqb i n then Some v else capture n g'
  end.

(** All matches of a pattern with the g flag, left to right: after a match
    the search resumes at its end ([lastIndex]), one code unit further when
    the match is empty.  [skip] counts the code units of the last match
    still to be passed over. *)
Fixpoint scan (r : regex) (p : option ascii) (s : string) (skip : nat)
  : list rmatched :=
  match skip with
  | S skip' =>
      match s with
      | EmptyString => []
      | String c t => scan r (Some c) t skip'
      end
  | O =>
      match matchAt r p s with
      | Some m =>
          m :: match s with
               | EmptyString => []
               | String c t => scan r (Some c) t (Nat.pred (String.length (whole m)))
               end
      | None =>
          match s with
          | EmptyString => []
          | String c t => scan r (Some c) t O
          end
      end
  end.

Definition matchAll (r : regex) (s : string) : list rmatched := scan r None s O.

(** *** Pattern syntax *)

Definition chr (c : ascii) : regex := Chr (Ascii.eqb c).
Definition chrI (c : ascii) : regex := Chr (fun a => Ascii.eqb (Js.fold a) (Js.fold c)).
Definition oneOf (s : string) : regex :=
  Chr (fun a => existsb (Ascii.eqb a) (list_ascii_of_string s)).
Definition noneOf (s : string) : regex :=
  Chr (fun a => negb (existsb (Ascii.eqb a) (list_ascii_of_string s))).
Definition anyChar : regex := Chr (fun _ => true).                    (* [\s\S] *)
Definition dot : regex := Chr (fun a => negb (Js.isLineTerminator a)). (* . *)
Definition digit : regex := Chr Js.isDigit.                           (* \d *)
Definition space : regex := Chr Js.isSpace.                           (* \s *)
Definition word : regex := Chr Js.isWord.                             (* \w *)

Fixpoint cat (l : list regex) : regex :=
  match l with
  | [] => Eps
  | [r] => r
  | r :: l' => Seq r (cat l')
  end.

Fixpoint alt (l : list regex) : regex :=
  match l with
  | [] => Look false Eps
  | [r] => r
  | r :: l' => Alt r (alt l')
  end.

Fixpoint lit (s : string) : regex :=
  match s with
  | EmptyString => Eps
  | String c EmptyString => chr c
  | String c t => Seq (chr c) (lit t)
  end.

Fixpoint litI (s : string) : regex :=
  match s with
  | EmptyString => Eps
  | String c EmptyString => chrI c
  | String c t => Seq (chrI c) (litI t)
  end.

Definition star (r : regex) : regex := Star true r.       (* r*  *)
Definition lazyStar (r : regex) : regex := Star false r.  (* r*? *)
Definition plus (r : regex) : regex := Seq r (Star true r). (* r+ *)
Definition opt (r : regex) : regex := Alt r Eps.          (* r?, r never empty *)

End Re.

(* ================================================================== *)
(** ** DiffIndex: [buildLineMap] *)

Import Re.

Inductive lineType : Type := add | context.

(** [{ exists: true, content, type }] *)
Record lineInfo : Type := LineInfo {
  exists_ : bool;
  content : string;
  type : lineType
}.

(** [/@@ -\d+(?:,\d+)? \+(\d+)(?:,\d+)? @@/] *)
Definition hunkRe : regex :=
  cat [lit "@@ -"; plus digit; opt (cat [chr ","; plus digit]);
       lit " +"; Group 1 (plus digit); opt (cat [chr ","; plus digit]);
       lit " @@"].

(** [line.match(hunkRe)] followed by [parseInt(match[1], 10)]; group 1
    takes part in every match of [hunkRe]. *)
Definition hunkNewStart (line : string) : option Z :=
  match exec hunkRe line with
  | Some m => Js.parseInt <$> capture 1 (groups m)
  | None => None
  end.

(** One iteration of the loop over the patch lines; the state is the pair
    of [newLineNum] and [lineMap]. *)
Definition buildLineMapStep (st : Z * gmap Z lineInfo) (line : string)
  : Z * gmap Z lineInfo :=
  let '(newLineNum, lineMap) := st in
  if Js.startsWith line "@@" then
    match hunkNewStart line with
    | Some n => (n, lineMap)
    | None => st
    end
  else if newLineNum =? 0 then st
  else if Js.startsWith line "-" then st
  else if Js.startsWith line "+" then
    (newLineNum + 1, <[newLineNum := LineInfo true (Js.substring1 line) add]> lineMap)
  else if Js.startsWith line " " then
    (newLineNum + 1, <[newLineNum := LineInfo true (Js.substring1 line) context]> lineMap)
  else st.

Definition buildLineMapLines (lines : list string) (st : Z * gmap Z lineInfo)
  : Z * gmap Z lineInfo :=
  fold_left buildLineMapStep lines st.

Definition buildLineMap (patch : string) : gmap Z lineInfo :=
  snd (buildLineMapLines (Js.splitLines patch) (0, ∅)).

(* ================================================================== *)
(** ** PatchPositionResolver: [findPositionInPatch] *)

(** [/@@ -(\d+),?\d* \+(\d+),?\d* @@/] *)
Definition positionHunkRe : regex :=
  cat [lit "@@ -"; Group 1 (plus digit); opt (chr ","); star digit;
       lit " +"; Group 2 (plus digit); opt (chr ","); star digit;
       lit " @@"].

Definition positionNewStart (line : string) : option Z :=
  match exec positionHunkRe line with
  | Some m => Js.parseInt <$> capture 2 (groups m)
  | None => None
  end.

(** The loop [for (let i = 0; i < lines.length; i++)], from index [i] on,
    over the remaining lines; [None] is the final [return null]. *)
Fixpoint findPositionFrom (lines : list string) (i currentLine targetLine : Z)
  : option Z :=
  match lines with
  | [] => None
  | line :: lines' =>
      if Js.startsWith line "@@" then
        findPositionFrom lines' (i + 1)
          (match positionNewStart line with
           | Some n => n - 1
           | None => currentLine
           end) targetLine
      else if Js.startsWith line "-" then
        findPositionFrom lines' (i + 1) currentLine targetLine
      else if Js.startsWith line "+" || Js.startsWith line " " then
        if currentLine + 1 =? targetLine then Some (i + 1)
        else findPositionFrom lines' (i + 1) (currentLine + 1) targetLine
      else findPositionFrom lines' (i + 1) currentLine targetLine
  end.

Definition findPositionInPatch (patch : string) (targetLine : Z) : option Z :=
  findPositionFrom (Js.splitLines patch) 0 0 targetLine.

(* ================================================================== *)
(** ** Outcomes of a call *)

Inductive jsError : Type := TypeError (message : string).

Inductive outcome (A : Type) : Type :=
| Returns (a : A)
| Throws (e : jsError).
Arguments Returns {A} a.
Arguments Throws {A} e.

#[global] Instance outcome_bind : MBind outcome := fun A B f o =>
  match o with
  | Returns a => f a
  | Throws e => Throws e
  end.

Fixpoint mapOutcome {A B : Type} (f : A -> outcome B) (l : list A) : outcome (list B) :=
  match l with
  | [] => Returns []
  | a :: l' => b ← f a; bs ← mapOutcome f l'; Returns (b :: bs)
  end.

(* ================================================================== *)
(** ** SuggestionValidator: [validateSuggestion] *)

(** A changed file of the pull request; [patch] is [None] when the
    property is absent. *)
Record prFile : Type := PrFile {
  filename : string;
  patch : option string
}.

(** A parsed suggestion. *)
Record suggestion : Type := Suggestion {
  path : string;
  issue : string;
  code : string;
  startLine : Z;
  endLine : Z;
  priority : string;
  file : prFile
}.

(** [{ valid: true, actualCode }] and [{ valid: false, reason }] *)
Inductive verdict : Type :=
| Valid (actualCode : string)
| Invalid (reason : string).

Definition valid (v : verdict) : bool :=
  match v with Valid _ => true | Invalid _ => false end.

Definition dquote : ascii := "034"%char.
Definition quoted (s : string) : string :=
  String dquote s +:+ String dquote EmptyString.

Definition isIdStart (c : ascii) : bool := Js.isLetter c || Js.isUnderscore c.

(** [/[a-zA-Z_][a-zA-Z0-9_]*/g] *)
Definition identRe : regex := Seq (Chr isIdStart) (star word).

(** [(text.match(identRe) || []).filter((w) => w.length > 2)] *)
Definition identWords (text : string) : list string :=
  filter (fun w => 2 < Js.strlen w) (whole <$> matchAll identRe text).

(** [extractIdentifiers]: the [Set] of those words. *)
Definition extractIdentifiers (text : string) : gset string :=
  list_to_set (identWords text).

(** The feature vector of [extractStructure]. *)
Record structure : Type := Structure {
  hasReturn : bool;
  hasForeach : bool;
  hasFor : bool;
  hasWhile : bool;
  hasIf : bool;
  hasElse : bool;
  hasTry : bool;
  hasCatch : bool;
  hasThrow : bool;
  hasFunction : bool;
  hasClass : bool;
  hasSwitch : bool;
  hasEarlyReturn : bool;
  hasExistenceCheck : bool;
  hasArrayAccess : bool;
  hasMethodCall : bool;
  hasAssignment : bool
}.

Definition keyword (w : string) : regex := cat [WordB; lit w; WordB]. (* \bw\b *)
Definition keywordParen (w : string) : regex :=                     (* \bw\s*\( *)
  cat [WordB; lit w; star space; chr "("].

(** [/\breturn\s+(?:false|null|true|-?\d+|Q)/i], where Q is the class of
    the two quote characters, single and double. *)
Definition earlyReturnRe : regex :=
  cat [WordB; litI "return"; plus space;
       alt [litI "false"; litI "null"; litI "true";
            cat [opt (chr "-"); plus digit];
            Chr (fun a => Ascii.eqb a "'" || Ascii.eqb a dquote)]].

(** [/isset\s*\(|!==\s*(?:null|undefined)|===\s*(?:null|undefined)/] *)
Definition existenceCheckRe : regex :=
  alt [cat [lit "isset"; star space; chr "("];
       cat [lit "!=="; star space; alt [lit "null"; lit "undefined"]];
       cat [lit "==="; star space; alt [lit "null"; lit "undefined"]]].

(** [/\[[^\]]+\]/] *)
Definition arrayAccessRe : regex := cat [chr "["; plus (noneOf "]"); chr "]"].

(** [/\w+\s*\(/] *)
Definition methodCallRe : regex := cat [plus word; star space; chr "("].

(** [/=(?!=)/] and [/[=!<>]=/] *)
Definition assignRe : regex := cat [chr "="; Look false (chr "=")].
Definition comparisonRe : regex := cat [oneOf "=!<>"; chr "="].

Definition extractStructure (text : string) : structure :=
  {| hasReturn := test (keyword "return") text;
     hasForeach := test (keyword "foreach") text;
     hasFor := test (keywordParen "for") text;
     hasWhile := test (keywordParen "while") text;
     hasIf := test (keywordParen "if") text;
     hasElse := test (keyword "else") text;
     hasTry := test (keyword "try") text;
     hasCatch := test (keyword "catch") text;
     hasThrow := test (keyword "throw") text;
     hasFunction := test (keyword "function") text;
     hasClass := test (keyword "class") text;
     hasSwitch := test (keywordParen "switch") text;
     hasEarlyReturn := test earlyReturnRe text;
     hasExistenceCheck := test existenceCheckRe text;
     hasArrayAccess := test arrayAccessRe text;
     hasMethodCall := test methodCallRe text;
     hasAssignment := test assignRe text && negb (test comparisonRe text) |}.

(** [Object.keys(actualStructure)], each key with its projection. *)
Definition structureKeys : list (string * (structure -> bool)) :=
  [("hasReturn", hasReturn); ("hasForeach", hasForeach); ("hasFor", hasFor);
   ("hasWhile", hasWhile); ("hasIf", hasIf); ("hasElse", hasElse);
   ("hasTry", hasTry); ("hasCatch", hasCatch); ("hasThrow", hasThrow);
   ("hasFunction", hasFunction); ("hasClass", hasClass);
   ("hasSwitch", hasSwitch); ("hasEarlyReturn", hasEarlyReturn);
   ("hasExistenceCheck", hasExistenceCheck);
   ("hasArrayAccess", hasArrayAccess); ("hasMethodCall", hasMethodCall);
   ("hasAssignment", hasAssignment)].

Definition structuralChanges (a s : structure) : list string :=
  map fst (filter (fun k => snd k a <> snd k s) structureKeys).

(** [/remov.*(?:check|validat|isset)|skip.*(?:check|validat)/i] *)
Definition issueExplicitRe : regex :=
  alt [cat [litI "remov"; star dot; alt [litI "check"; litI "validat"; litI "isset"]];
       cat [litI "skip"; star dot; alt [litI "check"; litI "validat"]]].

(** [/\b[a-zA-Z_][a-zA-Z0-9_]*\b/] *)
Definition firstTokenRe : regex := cat [WordB; Chr isIdStart; star word; WordB].

Definition getFirstToken (line : string) : string :=
  match exec firstTokenRe line with
  | Some m => whole m
  | None => ""
  end.

(** [commonIds] is an [Array]; an array has no method [has], so the call
    [commonIds.has(token)] raises. *)
Definition arrayHas (a : list string) (x : string) : outcome bool :=
  Throws (TypeError "commonIds.has is not a function").

Definition Qltb (x y : Q) : bool :=
  match (x ?= y)%Q with Lt => true | _ => false end.

(** [Math.round(q)] *)
Definition mathRound (q : Q) : Z := Qfloor (q + (1 # 2))%Q.

Definition mapHas (lineMap : gmap Z lineInfo) (i : Z) : bool :=
  match lineMap !! i with Some _ => true | None => false end.

(** [lineMap.get(i).content] *)
Definition getContent (lineMap : gmap Z lineInfo) (i : Z) : outcome string :=
  match lineMap !! i with
  | Some info => Returns (content info)
  | None => Throws (TypeError "Cannot read properties of undefined (reading 'content')")
  end.

(** [a[0].trim()] *)
Definition firstLineTrimmed (a : list string) : outcome string :=
  match a with
  | l :: _ => Returns (Js.trim l)
  | [] => Throws (TypeError "Cannot read properties of undefined (reading 'trim')")
  end.

(** [commonIds]: [Array.from(actualIds).filter((id) => suggestedIds.has(id))] *)
Definition commonIdsOf (actualIds suggestedIds : gset string) : list string :=
  filter (fun id => id ∈ suggestedIds) (elements actualIds).

(** [overlapRatio] *)
Definition overlapRatioOf (actualIds suggestedIds : gset string) : Q :=
  if (0 <? Z.of_nat (size actualIds)) && (0 <? Z.of_nat (size suggestedIds))
  then (inject_Z (Z.of_nat (length (commonIdsOf actualIds suggestedIds)))
        / inject_Z (Z.max (Z.of_nat (size actualIds)) (Z.of_nat (size suggestedIds))))%Q
  else 0%Q.

(** The values [validateSuggestion] derives from the trimmed actual code
    and the suggestion.  The identifiers of the suggestion are taken from
    its untrimmed [code], its structure from the trimmed [suggestedCode]. *)
Definition suggestedCodeOf (s : suggestion) : string := Js.trim (code s).
Definition commonIds (actualCode : string) (s : suggestion) : list string :=
  commonIdsOf (extractIdentifiers actualCode) (extractIdentifiers (code s)).
Definition overlapRatio (actualCode : string) (s : suggestion) : Q :=
  overlapRatioOf (extractIdentifiers actualCode) (extractIdentifiers (code s)).

(** The conditions of the rules, in the order of the function. *)

(** [actualStructure.hasEarlyReturn && !suggestedStructure.hasEarlyReturn] *)
Definition guardClauseRemoved (actualCode : string) (s : suggestion) : bool :=
  hasEarlyReturn (extractStructure actualCode)
  && negb (hasEarlyReturn (extractStructure (suggestedCodeOf s))).

(** [actualStructure.hasExistenceCheck && !suggestedStructure.hasExistenceCheck]
    with [!issueExplicit] *)
Definition existenceCheckRemoved (actualCode : string) (s : suggestion) : bool :=
  hasExistenceCheck (extractStructure actualCode)
  && negb (hasExistenceCheck (extractStructure (suggestedCodeOf s)))
  && negb (test issueExplicitRe (issue s)).

(** [isCompleteRewrite && commonIds.length < 2] *)
Definition controlFlowRewritten (actualCode : string) (s : suggestion) : bool :=
  let actualStructure := extractStructure actualCode in
  let suggestedStructure := extractStructure (suggestedCodeOf s) in
  let isCompleteRewrite :=
    (3 <=? Z.of_nat (length (structuralChanges actualStructure suggestedStructure)))
    && (negb (Bool.eqb (hasIf actualStructure) (hasIf suggestedStructure))
        || negb (Bool.eqb (hasForeach actualStructure) (hasForeach suggestedStructure))) in
  isCompleteRewrite && (Z.of_nat (length (commonIds actualCode s)) <? 2).

(** [actualCode.length < 20 && (hasOverlap || suggestedCode.length < 20)] *)
Definition shortSnippetAccepted (actualCode : string) (s : suggestion) : bool :=
  let hasOverlap := 0 <? Z.of_nat (length (commonIds actualCode s)) in
  (Js.strlen actualCode <? 20)
  && (hasOverlap || (Js.strlen (suggestedCodeOf s) <? 20)).

(** [actualIds.size > 0 && suggestedIds.size > 0 && overlapRatio < 0.2] *)
Definition overlapInsufficient (actualCode : string) (s : suggestion) : bool :=
  (0 <? Z.of_nat (size (extractIdentifiers actualCode)))
  && (0 <? Z.of_nat (size (extractIdentifiers (code s))))
  && Qltb (overlapRatio actualCode s) (2 # 10).

(** The reasons of the rejections. *)

Definition lineNotFound (i : Z) : string :=
  "Line " +:+ Js.showZ i +:+ " not found in diff".

Definition removesGuard (actualCode : string) : string :=
  "Removes guard clause/early return without explanation. Actual: "
  +:+ quoted (Js.substring0 80 actualCode).

Definition removesExistenceCheck (actualCode : string) : string :=
  "Removes existence/validation check without explicit justification. Actual: "
  +:+ quoted (Js.substring0 80 actualCode).

Definition rewritesControlFlow (actualCode : string) : string :=
  "Completely rewrites control flow with minimal identifier overlap. This looks like wrong line targeting. Actual: "
  +:+ quoted (Js.substring0 80 actualCode).

Definition insufficientOverlap (ratio : Q) (actualCode suggestedCode : string)
  : string :=
  "Insufficient identifier overlap (" +:+ Js.showZ (mathRound (ratio * 100)%Q)
  +:+ "%). Actual: " +:+ quoted (Js.substring0 60 actualCode)
  +:+ ", Suggested: " +:+ quoted (Js.substring0 60 suggestedCode).

Definition startsDifferently (actualFirstLine suggestedFirstLine : string) : string :=
  "Multi-line replacement starts with completely different code structure. Actual starts: "
  +:+ quoted (Js.substring0 40 actualFirstLine)
  +:+ ", Suggested starts: " +:+ quoted (Js.substring0 40 suggestedFirstLine).

(** The lines [startLine .. endLine] visited by both [for] loops. *)
Definition lineRange (s : suggestion) : list Z :=
  seqZ (startLine s) (endLine s - startLine s + 1).

(** The multi-line continuity check, entered when
    [endLine - startLine >= 2]; [None] when it lets the suggestion pass. *)
Definition continuityCheck (actualLines : list string) (actualCode : string)
  (s : suggestion) : outcome (option verdict) :=
  actualFirstLine ← firstLineTrimmed actualLines;
  suggestedFirstLine ← firstLineTrimmed (Js.splitLines (suggestedCodeOf s));
  let actualToken := getFirstToken actualFirstLine in
  let suggestedToken := getFirstToken suggestedFirstLine in
  if negb (String.eqb actualToken "") && negb (String.eqb suggestedToken "")
     && negb (String.eqb actualToken suggestedToken)
  then
    inActual ← arrayHas (commonIds actualCode s) actualToken;
    if negb inActual then
      inSuggested ← arrayHas (commonIds actualCode s) suggestedToken;
      if negb inSuggested && Qltb (overlapRatio actualCode s) (3 # 10)
      then Returns (Some (Invalid (startsDifferently actualFirstLine suggestedFirstLine)))
      else Returns None
    else Returns None
  else Returns None.

(** The rules applied once the actual lines are gathered. *)
Definition validateLines (actualLines : list string) (s : suggestion)
  : outcome verdict :=
  let actualCode := Js.trim (Js.joinLines actualLines) in
  if guardClauseRemoved actualCode s
  then Returns (Invalid (removesGuard actualCode))
  else if existenceCheckRemoved actualCode s
  then Returns (Invalid (removesExistenceCheck actualCode))
  else if controlFlowRewritten actualCode s
  then Returns (Invalid (rewritesControlFlow actualCode))
  else if shortSnippetAccepted actualCode s
  then Returns (Valid actualCode)
  else if overlapInsufficient actualCode s
  then Returns (Invalid (insufficientOverlap (overlapRatio actualCode s)
                           actualCode (suggestedCodeOf s)))
  else if 2 <=? endLine s - startLine s
  then
    rejected ← continuityCheck actualLines actualCode s;
    match rejected with
    | Some v => Returns v
    | None => Returns (Valid actualCode)
    end
  else Returns (Valid actualCode).

Definition validateSuggestion (s : suggestion) (lineMap : gmap Z lineInfo)
  : outcome verdict :=
  match List.find (fun i => negb (mapHas lineMap i)) (lineRange s) with
  | Some i => Returns (Invalid (lineNotFound i))
  | None =>
      actualLines ← mapOutcome (getContent lineMap) (lineRange s);
      validateLines actualLines s
  end.

(* ================================================================== *)
(** ** SuggestionParser: [parseSuggestions] *)

Definition backtick : ascii := "`"%char.
Definition star_ : ascii := "*"%char.

Definition optStars : regex := Seq (opt (chr star_)) (opt (chr star_)). (* \*?\*? *)
Definition lineWord : regex :=                              (* (?:Lines?|Line) *)
  alt [cat [litI "Line"; opt (chrI "s")]; litI "Line"].
Definition notNlStar : regex := noneOf (String Js.nl "*").   (* [^\n*] *)

(** The pattern [re] of [parseSuggestions], flags [gi]; its six capturing
    groups are the file label, the lines label, the issue, the priority,
    the fenced code and the unfenced code. *)
Definition suggestionRe : regex :=
  cat [alt [litI "**File:"; litI "File:"];
       star space;
       opt (chr backtick);
       Group 1 (plus (noneOf (String Js.nl "*`")));
       opt (chr backtick);
       optStars;
       star space; chr Js.nl;
       alt [cat [lit "**"; lineWord; chr ":"]; cat [lineWord; chr ":"]];
       star space;
       Group 2 (plus notNlStar);
       optStars;
       star space; chr Js.nl;
       alt [litI "**Issue:"; litI "Issue:"];
       star space;
       Group 3 (plus notNlStar);
       optStars;
       opt (cat [chr Js.nl; alt [litI "**Priority:"; litI "Priority:"];
                 star space; Group 4 (plus notNlStar); optStars]);
       star space; chr Js.nl;
       alt [litI "**Suggestion:**"; litI "Suggestion:"];
       star space; chr Js.nl;
       alt [cat [lit "```";
                 star (Chr (fun a => Js.isWord a || Ascii.eqb a "-"));
                 chr Js.nl; Group 5 (lazyStar anyChar); chr Js.nl; lit "```"];
            cat [Group 6 (lazyStar anyChar);
                 Look true
                   (alt [cat [chr Js.nl;
                              alt [cat [chr star_; opt (chr star_); litI "File:"];
                                   litI "File:"]];
                         EndIn])]]].

(** [/(\d+)(?:-(\d+))?/] *)
Definition lineNumbersRe : regex :=
  cat [Group 1 (plus digit); opt (cat [chr "-"; Group 2 (plus digit)])].

(** [x || ''] for a capture *)
Definition orEmpty (o : option string) : string := default "" o.

(** The predicate of [files.find] for the trimmed file label. *)
Definition fileMatches (label : string) (f : prFile) : bool :=
  String.eqb (filename f) label
  || Js.endsWith (filename f) label
  || Js.endsWith label (filename f)
  || Js.includes (filename f) label
  || Js.includes label (filename f).

(** [files.find(...)]: the first changed file, in the order of the array,
    that the predicate accepts. *)
Definition resolveFile (files : list prFile) (label : string) : option prFile :=
  List.find (fileMatches label) files.

(** [!file.patch]: the patch is absent or the empty string. *)
Definition noPatch (f : prFile) : bool :=
  match patch f with
  | None => true
  | Some p => String.eqb p ""
  end.

Definition normalizePriority (prioRaw : option string) : string :=
  let priority := Js.toUpperCase (Js.trim (orEmpty prioRaw)) in
  if existsb (String.eqb priority) ["URGENT"; "HIGH"; "MEDIUM"; "LOW"]
  then priority else "MEDIUM".

(** The replacement code of a block: the fenced code unless it is absent or
    blank, else the unfenced code. *)
Definition blockCode (code codeAlt : option string) : string :=
  match code with
  | Some c => if String.eqb (Js.trim c) "" then orEmpty codeAlt else c
  | None => orEmpty codeAlt
  end.

(** The body of the [while] loop for one match of [re]: the suggestion
    pushed, or [None] when the loop [continue]s. *)
Definition parseBlock (files : list prFile) (m : rmatched) : option suggestion :=
  let g := groups m in
  let code := blockCode (capture 5 g) (capture 6 g) in
  let label := Js.trim (orEmpty (capture 1 g)) in
  match resolveFile files label with
  | None => None
  | Some f =>
      if noPatch f then None
      else
        match exec lineNumbersRe (orEmpty (capture 2 g)) with
        | None => None
        | Some lineMatch =>
            let startLine := Js.parseInt (orEmpty (capture 1 (groups lineMatch))) in
            let endLine :=
              match capture 2 (groups lineMatch) with
              | Some d => if String.eqb d "" then startLine else Js.parseInt d
              | None => startLine
              end in
            Some {| path := filename f;
                    issue := Js.trim (orEmpty (capture 3 g));
                    code := Js.trim code;
                    startLine := startLine;
                    endLine := endLine;
                    priority := normalizePriority (capture 4 g);
                    file := f |}
        end
  end.

(** The suggestions pushed by the [while] loop, in the order of the
    matches. *)
Definition parsedBlocks (markdown : string) (files : list prFile) : list suggestion :=
  omap (parseBlock files) (matchAll suggestionRe markdown).

(** The deduplication key, a template string. *)
Definition dedupKey (s : suggestion) : string :=
  path s +:+ ":" +:+ Js.showZ (startLine s) +:+ ":" +:+ Js.toLowerCase (issue s).

(** One iteration of the deduplication loop over [seen] and [unique]. *)
Definition dedupStep (st : gset string * list suggestion) (s : suggestion)
  : gset string * list suggestion :=
  let '(seen, unique) := st in
  if decide (dedupKey s ∈ seen) then st
  else ({[dedupKey s]} ∪ seen, (unique ++ [s])%list).

Definition dedup (suggestions : list suggestion) : list suggestion :=
  snd (fold_left dedupStep suggestions (∅, [])).

Definition parseSuggestions (markdown : string) (files : list prFile) : list suggestion :=
  if String.eqb markdown "" then []
  else dedup (parsedBlocks markdown files).

(* ================================================================== *)
(** ** The pipeline of [main]: index, parse, validate *)

(** The [lineMaps] built from the changed files. *)
Definition lineMapOf (f : prFile) : gmap Z lineInfo :=
  buildLineMap (orEmpty (patch f)).

(** The lines a suggestion targets, as the index holds them. *)
Definition actualLinesAt (lineMap : gmap Z lineInfo) (s : suggestion) : list string :=
  omap (fun i => content <$> lineMap !! i) (lineRange s).

Definition actualCodeAt (lineMap : gmap Z lineInfo) (s : suggestion) : string :=
  Js.trim (Js.joinLines (actualLinesAt lineMap s)).

(** Every line of [startLine .. endLine] is a key of the index. *)
Definition allLinesExist (lineMap : gmap Z lineInfo) (s : suggestion) : Prop :=
  forall i, startLine s <= i <= endLine s -> is_Some (lineMap !! i).

(* ================================================================== *)
(** ** The specification's wording, for comparison

    These definitions follow the sentences of the specification, not the
    script; the theorems below compare the script with them. *)

Module Spec.

(** A hunk header: a line that starts with [@@] and carries the header
    pattern; its value is [newStart]. *)
Definition hunkHeader (line : string) : option Z :=
  if Js.startsWith line "@@" then hunkNewStart line else None.

(** The line numbering as the specification words it: a hunk header resets
    the counter to its [newStart]; a deletion line gets no number and does
    not advance the counter; an addition or context line gets the current
    counter value, which then advances by one; lines before the first hunk
    header get no number.  [numbering st lines] gives, for each line, its
    new-file line number, if any; [st] is the counter, [None] before the
    first header. *)
Fixpoint numbering (st : option Z) (lines : list string) : list (option Z) :=
  match lines with
  | [] => []
  | line :: lines' =>
      match hunkHeader line with
      | Some newStart => None :: numbering (Some newStart) lines'
      | None =>
          match st with
          | None => None :: numbering None lines'
          | Some n =>
              if Js.startsWith line "-" then None :: numbering st lines'
              else if Js.startsWith line "+" || Js.startsWith line " "
              then Some n :: numbering (Some (n + 1)) lines'
              else None :: numbering st lines'
          end
      end
  end.

(** The entry recorded for an addition or context line. *)
Definition entryOf (line : string) : lineInfo :=
  LineInfo true (Js.substring1 line)
           (if Js.startsWith line "+" then add else context).

(** Identifiers as the specification defines them: the maximal runs of
    letters, digits and underscores, longer than two characters. *)
Definition identifiers (text : string) : gset string :=
  list_to_set (filter (fun w => 2 < Js.strlen w) (whole <$> matchAll (plus word) text)).

(** Three word characters in a row: the text holds a run of letters,
    digits and underscores longer than two characters. *)
Fixpoint hasLongWordRun (text : string) : bool :=
  match text with
  | String a ((String b (String c _)) as t) =>
      (Js.isWord a && Js.isWord b && Js.isWord c) || hasLongWordRun t
  | _ => false
  end.

(** File resolution in order of preference: an exact match anywhere in the
    list first, then a changed-file path that is a suffix of the label,
    then a label that is a suffix of a changed-file path, then containment
    in either direction. *)
Definition resolveFile (files : list prFile) (label : string) : option prFile :=
  match List.find (fun f => String.eqb (filename f) label) files with
  | Some f => Some f
  | None =>
  match List.find (fun f => Js.endsWith label (filename f)) files with
  | Some f => Some f
  | None =>
  match List.find (fun f => Js.endsWith (filename f) label) files with
  | Some f => Some f
  | None =>
      List.find (fun f => Js.includes (filename f) label
                          || Js.includes label (filename f)) files
  end end end.

(** The deduplication key of the specification: the triple of the resolved
    path, the start line and the lower-cased issue text. *)
Definition dedupKey (s : suggestion) : string * Z * string :=
  (path s, startLine s, Js.toLowerCase (issue s)).

(** The text begins with the letters of [w], compared without case, and
    what comes after them satisfies [more]. *)
Fixpoint wordThen (w : string) (more : string -> bool) (s : string) : bool :=
  match w with
  | EmptyString => more s
  | String b w' =>
      match s with
      | String a t => Ascii.eqb (Js.fold a) (Js.fold b) && wordThen w' more t
      | EmptyString => false
      end
  end.

(** The property holds of the text from some position on. *)
Fixpoint somewhere (p : string -> bool) (s : string) : bool :=
  p s || match s with
         | String _ t => somewhere p t
         | EmptyString => false
         end.

(** The property holds further on the same line: from some position that
    no line terminator separates from the start. *)
Fixpoint laterOnLine (p : string -> bool) (s : string) : bool :=
  p s || match s with
         | String c t => negb (Js.isLineTerminator c) && laterOnLine p t
         | EmptyString => false
         end.

Definition beginsWithAny (words : list string) (s : string) : bool :=
  existsb (fun w => wordThen w (fun _ => true) s) words.

(** The issue text mentions removing or skipping a check or a validation,
    in the words of the claim: it holds a word of removing or skipping and a
    word of checking or validating, in any order and anywhere. *)
Definition mentionsCheckRemoval (issue : string) : bool :=
  (somewhere (beginsWithAny ["remov"; "skip"]) issue)
  && (somewhere (beginsWithAny ["check"; "validat"]) issue).

(** The justification as the code reads it: [remov] followed on the same
    line by [check], [validat] or [isset], or [skip] followed on the same
    line by [check] or [validat]; letters compared without case. *)
Definition justifiesRemoval (issue : string) : bool :=
  somewhere (fun s =>
    wordThen "remov" (laterOnLine (beginsWithAny ["check"; "validat"; "isset"])) s
    || wordThen "skip" (laterOnLine (beginsWithAny ["check"; "validat"])) s) issue.

End Spec.

(* ================================================================== *)
(** ** Definitions used by the statements *)

(** The entries the replay records, in the order of the patch lines. *)
Definition entries (st : option Z) (lines : list string) : list (Z * lineInfo) :=
  omap (fun p : string * option Z => (fun n => (n, Spec.entryOf p.1)) <$> p.2)
       (zip lines (Spec.numbering st lines)).

(** [lineMap.set(n, info)] *)
Definition insertEntry (m : gmap Z lineInfo) (e : Z * lineInfo) : gmap Z lineInfo :=
  <[e.1 := e.2]> m.

(** The counter [newLineNum] of [buildLineMap] against the counter of the
    replay: zero stands for the time before the first header. *)
Definition counterRel (n : Z) (st : option Z) : Prop :=
  (st = None /\ n = 0) \/ (st = Some n /\ 1 <= n).

(** A line that starts with [@@] is a hunk header that both header patterns
    read alike, with a [newStart] of at least 1. *)
Definition headerAgrees (line : string) : bool :=
  if Js.startsWith line "@@" then
    match hunkNewStart line, positionNewStart line with
    | Some a, Some b => (a =? b) && (1 <=? a)
    | _, _ => false
    end
  else true.

(** A patch as a diff listing gives it: it begins with a hunk header, and
    every line that starts with [@@] is a well-formed hunk header. *)
Definition wellFormedPatch (patch : string) : bool :=
  match Js.splitLines patch with
  | first :: _ => Js.startsWith first "@@"
  | [] => false
  end && forallb headerAgrees (Js.splitLines patch).

(** A rejection whose reason starts with the given words. *)
Definition rejectedWith (words : string) (o : outcome verdict) : Prop :=
  exists reason, o = Returns (Invalid reason) /\ Js.startsWith reason words = true.

(** The input left once the leading run of word characters is passed. *)
Fixpoint dropWord (s : string) : string :=
  match s with
  | String c t => if Js.isWord c then dropWord t else s
  | EmptyString => EmptyString
  end.

(** The first identifier-like token of the first targeted line, and of the
    first line of the suggested code. *)
Definition actualFirstToken (lineMap : gmap Z lineInfo) (s : suggestion) : string :=
  getFirstToken (Js.trim (List.hd EmptyString (actualLinesAt lineMap s))).
Definition suggestedFirstToken (s : suggestion) : string :=
  getFirstToken (Js.trim (List.hd EmptyString (Js.splitLines (suggestedCodeOf s)))).

(** The file label of a matched block, as [parseSuggestions] trims it. *)
Definition blockLabel (m : rmatched) : string :=
  Js.trim (orEmpty (capture 1 (groups m))).

(** [f] is the first file of the list, in list order, that the label
    matches by any of the five criteria. *)
Definition firstMatching (files : list prFile) (label : string) (f : prFile) : Prop :=
  exists i : nat,
    files !! i = Some f /\ fileMatches label f = true
    /\ forall (j : nat) f', (j < i)%nat -> files !! j = Some f' ->
         fileMatches label f' = false.

(** The deduplication loop as a filter: a suggestion is kept when its key
    has not been seen. *)
Fixpoint dedupFrom (seen : gset string) (l : list suggestion) : list suggestion :=
  match l with
  | [] => []
  | s :: l' =>
      if decide (dedupKey s ∈ seen) then dedupFrom seen l'
      else s :: dedupFrom ({[dedupKey s]} ∪ seen) l'
  end.

(* ================================================================== *)
(** ** Concrete inputs *)

(** Whether a match was found. *)
Definition found {A} (o : option A) : bool :=
  match o with Some _ => true | None => false end.

(** The continuation [k] succeeds on a state exactly when [b] holds of the
    input left, whatever the character before and the captures. *)
Definition decides (k : mstate -> option mstate) (b : string -> bool) : Prop :=
  forall pv s g, found (k (MState pv s g)) = b s.

Module Examples.

(** The patch of the specification: one hunk that adds one line. *)
Definition oneAddedPatch : string :=
"@@ -1,3 +1,4 @@
 first
 second
+added
 third".

(** A header whose [newStart] is 0, followed by an addition. *)
Definition zeroStartPatch : string :=
"@@ -1 +0,0 @@
+x".

(** An addition with no hunk header before it. *)
Definition headerlessPatch : string := "+foo".

Definition changedFile (patch : string) : prFile := PrFile "a.js" (Some patch).

Definition candidate (patch : string) (first last : Z) (issue code : string)
  : suggestion :=
  Suggestion "a.js" issue code first last "MEDIUM" (changedFile patch).

Definition guardPatch : string :=
"@@ -10 +10 @@
+if (!valid) return false;".
Definition guardCandidate : suggestion :=
  candidate guardPatch 10 10 "Simplify" "doSomething();".

Definition existencePatch : string :=
"@@ -10 +10 @@
+if (x !== null) { run(x); }".
Definition existenceCandidate : suggestion :=
  candidate existencePatch 10 10 "Simplify the call" "run(x);".

(** The same replacement with an issue that matches the justification
    pattern, and with one that names the check before its removal. *)
Definition justifiedCandidate : suggestion :=
  candidate existencePatch 10 10 "Remove the redundant null check" "run(x);".
Definition lateMentionCandidate : suggestion :=
  candidate existencePatch 10 10 "The null check is redundant and can be removed"
            "run(x);".

Definition overlapPatch : string :=
"@@ -10 +10 @@
+const x = compute(a, b);".
Definition overlapCandidate : suggestion :=
  candidate overlapPatch 10 10 "Log a greeting" "print('hello world');".

Definition numericPatch : string :=
"@@ -10 +10 @@
+timeout = 1000 + 2000 + 3000 + 4000 + 5000;".
Definition numericCandidate : suggestion :=
  candidate numericPatch 10 10 "Use the named total" "timeout = TOTAL;".

Definition shortPatch : string :=
"@@ -10 +10 @@
+i = i + 1;".
Definition shortCandidate : suggestion :=
  candidate shortPatch 10 10 "Name the counter" "counter = counter + 1;".

Definition twoLinePatch : string :=
"@@ -0,0 +1,2 @@
+alpha(beta, gamma);
+delta();".
Definition twoLineCandidate : suggestion :=
  candidate twoLinePatch 1 2 "Rename the call"
"omega(sigma, kappa);
delta();".

Definition threeLinePatch : string :=
"@@ -0,0 +1,3 @@
+alpha(beta, gamma);
+delta();
+}".
Definition threeLineText : string :=
"File: a.js
Lines: 1-3
Issue: Rename the call
Suggestion:
```suggestion
omega(sigma, kappa);
delta();
}
```".
Definition threeLineCandidate : suggestion :=
  candidate threeLinePatch 1 3 "Rename the call"
"omega(sigma, kappa);
delta();
}".

Definition utilsFiles : list prFile :=
  [PrFile "src/utils.js" (Some oneAddedPatch); PrFile "utils.js" (Some oneAddedPatch)].

Definition utilsText : string :=
"File: utils.js
Line: 2
Issue: Rename the helper
Suggestion:
```suggestion
second line
```".

Definition collisionFiles : list prFile :=
  [PrFile "a:1" (Some oneAddedPatch); PrFile "a" (Some oneAddedPatch)].

Definition collisionText : string :=
"File: a:1
Line: 2
Issue: x
Suggestion:
```suggestion
one
```
File: src/a
Line: 1
Issue: 2:x
Suggestion:
```suggestion
two
```
File: src/a
Line: 1
Issue: 2:x
Suggestion:
```suggestion
three
```".

Definition collisionFirst : suggestion :=
  Suggestion "a:1" "x" "one" 2 2 "MEDIUM" (PrFile "a:1" (Some oneAddedPatch)).
Definition collisionSecond : suggestion :=
  Suggestion "a" "2:x" "two" 1 1 "MEDIUM" (PrFile "a" (Some oneAddedPatch)).
Definition collisionThird : suggestion :=
  Suggestion "a" "2:x" "three" 1 1 "MEDIUM" (PrFile "a" (Some oneAddedPatch)).

End Examples.

(* ================================================================== *)
(** ** Further definitions: the code around the three functions *)

Module MoreExamples.

(** A listing with a file header before the hunk and a deleted line. *)
Definition deletionPatch : string :=
"@@ -1,3 +1,3 @@
 first
-old
+new
 third".

(** The same listing without its deletion line. *)
Definition deletionFreePatch : string :=
"@@ -1,3 +1,3 @@
 first
+new
 third".

(** Lines of a listing with no hunk header that can be read. *)
Definition noHunkPatch : string :=
"diff --git a/a.js b/a.js
@@ malformed @@
+one
 two".

(** Two hunks that both start at line 1. *)
Definition overlappingPatch : string :=
"@@ -1 +1 @@
+a
@@ -1 +1 @@
+b".

End MoreExamples.

(** No character of the string is a line feed. *)
Fixpoint noLineBreak (s : string) : bool :=
  match s with
  | EmptyString => true
  | String c t => negb (Ascii.eqb c Js.nl) && noLineBreak t
  end.

(** What [buildLineMap] keeps true of its counter and of its map after
    every line. *)
Definition indexInvariant (lines : list string) (st : Z * gmap Z lineInfo) : Prop :=
  0 <= st.1
  /\ forall n info, st.2 !! n = Some info ->
       1 <= n /\ exists_ info = true
       /\ exists line, line ∈ lines
            /\ Js.startsWith line "@@" = false /\ Js.startsWith line "-" = false
            /\ content info = Js.substring1 line
            /\ (type info = add /\ Js.startsWith line "+" = true
                \/ type info = context /\ Js.startsWith line " " = true).

(** The leading run of word characters of a string. *)
Fixpoint takeWord (s : string) : string :=
  match s with
  | String c t => if Js.isWord c then String c (takeWord t) else EmptyString
  | EmptyString => EmptyString
  end.

(** The text a match of the identifier pattern covers at the start of a
    string, if it matches there. *)
Definition identAt (s : string) : option string :=
  match s with
  | String c t => if isIdStart c then Some (String c (takeWord t)) else None
  | EmptyString => None
  end.

(** The words of [text.match(identRe)], read off the text directly; [skip]
    counts the characters of the last word still to be passed over. *)
Fixpoint wordsFrom (s : string) (skip : nat) : list string :=
  match skip with
  | S skip' =>
      match s with
      | EmptyString => []
      | String _ t => wordsFrom t skip'
      end
  | O =>
      match identAt s with
      | Some w =>
          w :: match s with
               | EmptyString => []
               | String _ t => wordsFrom t (Nat.pred (String.length w))
               end
      | None =>
          match s with
          | EmptyString => []
          | String _ t => wordsFrom t O
          end
      end
  end.

Definition allWord (s : string) : bool := forallb Js.isWord (list_ascii_of_string s).

(** ** The changed files and the review comments of [main] *)

(** An entry of the file listing of the pull request, as [getPrFiles]
    reads it: the changed file with its [status]. *)
Record listedFile : Type := ListedFile {
  listed : prFile;
  status : string
}.

(** [getPrFiles], from the listing on:
    [files.filter((f) => f.patch && f.status !== 'removed')]. *)
Definition getPrFiles (files : list listedFile) : list prFile :=
  map listed
    (List.filter (fun f => negb (noPatch (listed f))
                           && negb (String.eqb (status f) "removed")) files).

(** [file.patch] as the argument of [buildLineMap]: [patch.split] raises
    when the property is absent. *)
Definition patchText (f : prFile) : outcome string :=
  match patch f with
  | Some p => Returns p
  | None => Throws (TypeError "Cannot read properties of undefined (reading 'split')")
  end.

(** The loop [for (const file of files) lineMaps.set(file.filename,
    buildLineMap(file.patch))]. *)
Fixpoint buildLineMapsFrom (files : list prFile) (lineMaps : gmap string (gmap Z lineInfo))
  : outcome (gmap string (gmap Z lineInfo)) :=
  match files with
  | [] => Returns lineMaps
  | f :: files' =>
      p ← patchText f;
      buildLineMapsFrom files' (<[filename f := buildLineMap p]> lineMaps)
  end.

Definition buildLineMaps (files : list prFile) : outcome (gmap string (gmap Z lineInfo)) :=
  buildLineMapsFrom files ∅.

(** The validation loop of [main]: a suggestion is skipped when its path
    has no line map or when its verdict is not valid, else pushed to
    [validated]. *)
Fixpoint validated (lineMaps : gmap string (gmap Z lineInfo)) (suggestions : list suggestion)
  : outcome (list suggestion) :=
  match suggestions with
  | [] => Returns []
  | s :: suggestions' =>
      match lineMaps !! path s with
      | None => validated lineMaps suggestions'
      | Some lineMap =>
          validation ← validateSuggestion s lineMap;
          others ← validated lineMaps suggestions';
          Returns (if valid validation then s :: others else others)
      end
  end.

(** The four priority markers of the comment bodies are code units above
    U+00FF; they are parameters of the embedding. *)
Record marks : Type := Marks {
  urgentMark : string;
  highMark : string;
  lowMark : string;
  mediumMark : string
}.

(** A review comment in the line and side format. *)
Record comment : Type := Comment {
  commentPath : string;
  body : string;
  line : Z;
  side : string;
  start_line : option Z;
  start_side : option string
}.

Definition em (mk : marks) (priority : string) : string :=
  if String.eqb priority "URGENT" then urgentMark mk
  else if String.eqb priority "HIGH" then highMark mk
  else if String.eqb priority "LOW" then lowMark mk
  else mediumMark mk.

Definition fence : string := String backtick (String backtick (String backtick "")).

Definition commentBody (mk : marks) (s : suggestion) : string :=
  em mk (priority s) +:+ " **[" +:+ priority s +:+ "]** " +:+ issue s
  +:+ String Js.nl (String Js.nl "") +:+ fence +:+ "suggestion" +:+ String Js.nl ""
  +:+ code s +:+ String Js.nl "" +:+ fence.

(** The comment built for a validated suggestion; [s.endLine || s.startLine]
    takes the start line when the end line is 0. *)
Definition commentOf (mk : marks) (s : suggestion) : comment :=
  let multi := negb (endLine s =? 0) && negb (endLine s =? startLine s) in
  {| commentPath := path s;
     body := commentBody mk s;
     line := if endLine s =? 0 then startLine s else endLine s;
     side := "RIGHT";
     start_line := if multi then Some (startLine s) else None;
     start_side := if multi then Some "RIGHT" else None |}.

(** [comments.length > 0 ? 'REQUEST_CHANGES' : 'COMMENT'] *)
Definition reviewEvent (comments : list comment) : string :=
  if (0 <? Z.of_nat (length comments)) then "REQUEST_CHANGES" else "COMMENT".

(** From the changed files and the text of the suggestions pass to the
    inline comments of the review. *)
Definition inlineComments (mk : marks) (files : list prFile) (suggestionsOnlyText : string)
  : outcome (list comment) :=
  lineMaps ← buildLineMaps files;
  accepted ← validated lineMaps (parseSuggestions suggestionsOnlyText files);
  Returns (map (commentOf mk) accepted).

Module PipelineExamples.

Definition plainMarks : marks := Marks "(!)" "(+)" "(-)" "(o)".

Definition twoLineText : string :=
"File: a.js
Lines: 1-2
Issue: Rename the call
Priority: high
Suggestion:
```suggestion
omega(sigma, kappa);
delta();
```".

Definition listing : list listedFile :=
  [ListedFile (PrFile "gone.js" (Some Examples.twoLinePatch)) "removed";
   ListedFile (PrFile "image.png" None) "added";
   ListedFile (Examples.changedFile Examples.twoLinePatch) "modified"].

End PipelineExamples.

(** ** The earlier revision: suggestions resolved to patch positions *)

Module Legacy.

(** A parsed suggestion of the earlier revision: it carries the position
    in the patch, and neither an end line nor the file. *)
Record suggestion : Type := Suggestion {
  path : string;
  position : Z;
  issue : string;
  code : string;
  startLine : Z;
  priority : string
}.

Definition lineWord : regex :=                              (* (?:Lines?|Line) *)
  alt [cat [lit "Line"; opt (chr "s")]; lit "Line"].

(** The pattern [re] of the earlier [parseSuggestions]: the same source
    text, with the flag [g] only. *)
Definition suggestionRe : regex :=
  cat [alt [lit "**File:"; lit "File:"];
       star space;
       opt (chr backtick);
       Group 1 (plus (noneOf (String Js.nl "*`")));
       opt (chr backtick);
       optStars;
       star space; chr Js.nl;
       alt [cat [lit "**"; lineWord; chr ":"]; cat [lineWord; chr ":"]];
       star space;
       Group 2 (plus notNlStar);
       optStars;
       star space; chr Js.nl;
       alt [lit "**Issue:"; lit "Issue:"];
       star space;
       Group 3 (plus notNlStar);
       optStars;
       opt (cat [chr Js.nl; alt [lit "**Priority:"; lit "Priority:"];
                 star space; Group 4 (plus notNlStar); optStars]);
       star space; chr Js.nl;
       alt [lit "**Suggestion:**"; lit "Suggestion:"];
       star space; chr Js.nl;
       alt [cat [lit "```";
                 star (Chr (fun a => Js.isWord a || Ascii.eqb a "-"));
                 chr Js.nl; Group 5 (lazyStar anyChar); chr Js.nl; lit "```"];
            cat [Group 6 (lazyStar anyChar);
                 Look true
                   (alt [cat [chr Js.nl;
                              alt [cat [chr star_; opt (chr star_); lit "File:"];
                                   lit "File:"]];
                         EndIn])]]].

(** The body of the [while] loop for one match: the suggestion pushed, or
    [None] when the loop [continue]s: [!file.patch] holds of a patch that
    is absent or empty, [!position || position < 1] of a position that is
    null, 0 or negative. *)
Definition parseBlock (files : list prFile) (m : rmatched) : option suggestion :=
  let g := groups m in
  let code := blockCode (capture 5 g) (capture 6 g) in
  let label := Js.trim (orEmpty (capture 1 g)) in
  match resolveFile files label with
  | None => None
  | Some f =>
      match patch f with
      | None => None
      | Some p =>
          if String.eqb p "" then None
          else
            match exec lineNumbersRe (orEmpty (capture 2 g)) with
            | None => None
            | Some lineMatch =>
                let startLine := Js.parseInt (orEmpty (capture 1 (groups lineMatch))) in
                match findPositionInPatch p startLine with
                | None => None
                | Some position =>
                    if (position =? 0) || (position <? 1) then None
                    else Some {| path := filename f;
                                 position := position;
                                 issue := Js.trim (orEmpty (capture 3 g));
                                 code := Js.trim code;
                                 startLine := startLine;
                                 priority := normalizePriority (capture 4 g) |}
                end
            end
      end
  end.

Definition parsedBlocks (markdown : string) (files : list prFile) : list suggestion :=
  omap (parseBlock files) (matchAll suggestionRe markdown).

Definition dedupKey (s : suggestion) : string :=
  path s +:+ ":" +:+ Js.showZ (startLine s) +:+ ":" +:+ Js.toLowerCase (issue s).

Definition dedupStep (st : gset string * list suggestion) (s : suggestion)
  : gset string * list suggestion :=
  let '(seen, unique) := st in
  if decide (dedupKey s ∈ seen) then st
  else ({[dedupKey s]} ∪ seen, (unique ++ [s])%list).

Definition dedup (suggestions : list suggestion) : list suggestion :=
  snd (fold_left dedupStep suggestions (∅, [])).

Definition parseSuggestions (markdown : string) (files : list prFile) : list suggestion :=
  if String.eqb markdown "" then []
  else dedup (parsedBlocks markdown files).

(** The second deduplication, in [main]: the key also holds the first 40
    characters of the code. *)
Definition mainKey (s : suggestion) : string :=
  dedupKey s +:+ ":" +:+ Js.substring0 40 (code s).

Fixpoint filterSeen (seen : gset string) (l : list suggestion) : list suggestion :=
  match l with
  | [] => []
  | s :: l' =>
      if decide (mainKey s ∈ seen) then filterSeen seen l'
      else s :: filterSeen ({[mainKey s]} ∪ seen) l'
  end.

(** [suggestions.filter((s) => s.position && s.position > 0)] *)
Definition positioned (suggestions : list suggestion) : list suggestion :=
  List.filter (fun s => negb (position s =? 0) && (0 <? position s)) suggestions.

(** A review comment in the position format. *)
Record comment : Type := Comment {
  commentPath : string;
  commentPosition : Z;
  body : string
}.

Definition commentOf (mk : marks) (s : suggestion) : comment :=
  {| commentPath := path s;
     commentPosition := position s;
     body := em mk (priority s) +:+ " [" +:+ priority s +:+ "] " +:+ issue s
             +:+ String Js.nl (String Js.nl "") +:+ fence +:+ "suggestion"
             +:+ String Js.nl "" +:+ code s +:+ String Js.nl "" +:+ fence |}.

(** From the changed files and the text of the suggestions pass to the
    inline comments of the review. *)
Definition inlineComments (mk : marks) (files : list prFile) (suggestionsOnlyText : string)
  : list comment :=
  map (commentOf mk)
      (positioned (filterSeen ∅ (parseSuggestions suggestionsOnlyText files))).

End Legacy.

(** A non-empty run of decimal digits. *)
Definition isNumeral (s : string) : bool :=
  negb (String.eqb s "") && forallb Js.isDigit (list_ascii_of_string s).

(** [,count], or nothing when the count is left out. *)
Definition countText (count : option string) : string :=
  match count with
  | Some n => "," +:+ n
  | None => ""
  end.

(** The text of a hunk header of a unified diff,
    [@@ -oldStart,oldCount +newStart,newCount @@ heading]. *)
Definition hunkHeaderText (oldStart : string) (oldCount : option string)
  (newStart : string) (newCount : option string) (heading : string) : string :=
  "@@ -" +:+ (oldStart +:+ (countText oldCount +:+ (" +" +:+ (newStart
    +:+ (countText newCount +:+ (" @@" +:+ heading)))))).

(** A count is a numeral when it is there. *)
Definition isCount (count : option string) : bool :=
  match count with
  | Some n => isNumeral n
  | None => true
  end.

(** A hunk header in that form, with a new start of at least 1. *)
Definition standardHeader (l : string) : Prop :=
  exists oldStart oldCount newStart newCount heading,
    l = hunkHeaderText oldStart oldCount newStart newCount heading
    /\ isNumeral oldStart = true /\ isCount oldCount = true
    /\ isNumeral newStart = true /\ isCount newCount = true
    /\ 1 <= Js.parseInt newStart.

(** The last character passed, after the run [s]. *)
Fixpoint lastOf (p : option ascii) (s : string) : option ascii :=
  match s with
  | EmptyString => p
  | String c t => lastOf (Some c) t
  end.

(** The string does not go on with a digit. *)
Definition noDigitAhead (s : string) : bool :=
  match s with
  | String c _ => negb (Js.isDigit c)
  | EmptyString => true
  end.

(** The string does not go on with a character of the class. *)
Definition aheadNot (p : ascii -> bool) (s : string) : bool :=
  match s with
  | String c _ => negb (p c)
  | EmptyString => true
  end.

Definition allOf (p : ascii -> bool) (s : string) : bool :=
  forallb p (list_ascii_of_string s).

(** The character is none of those of [excl]: the class of [noneOf excl]. *)
Definition notIn (excl : string) (a : ascii) : bool :=
  negb (existsb (Ascii.eqb a) (list_ascii_of_string excl)).

(** A field of a suggestion block: not empty, not starting with white
    space, and without any of the characters [excl]. *)
Definition isField (excl : string) (w : string) : bool :=
  match w with
  | String c _ => negb (Js.isSpace c) && allOf (notIn excl) w
  | EmptyString => false
  end.

(** A suggestion block as the prompt of the suggestions pass asks for it;
    [lineWord] is [Line:] or [Lines:]. *)
Definition blockThen (path lineWord range issue priority code more : string) : string :=
  "File:" +:+ " " +:+ path +:+ String Js.nl (
  lineWord +:+ " " +:+ range +:+ String Js.nl (
  "Issue:" +:+ " " +:+ issue +:+ String Js.nl (
  "Priority:" +:+ " " +:+ priority +:+ String Js.nl (
  "Suggestion:" +:+ String Js.nl (
  fence +:+ "suggestion" +:+ String Js.nl (
  code +:+ String Js.nl (fence +:+ more))))))).

(** Named parts of the suggestion pattern: the fenced or unfenced code,
    the optional priority line, the label of the lines line. *)
Definition codeRe : regex :=
  alt [cat [lit "```";
            star (Chr (fun a => Js.isWord a || Ascii.eqb a "-"));
            chr Js.nl; Group 5 (lazyStar anyChar); chr Js.nl; lit "```"];
       cat [Group 6 (lazyStar anyChar);
            Look true
              (alt [cat [chr Js.nl;
                         alt [cat [chr star_; opt (chr star_); litI "File:"];
                              litI "File:"]];
                    EndIn])]].

Definition priorityRe : regex :=
  opt (cat [chr Js.nl; alt [litI "**Priority:"; litI "Priority:"];
            star space; Group 4 (plus notNlStar); optStars]).

Definition linesLabelRe : regex :=
  alt [cat [lit "**"; lineWord; chr ":"]; cat [lineWord; chr ":"]].

(** A suggestion written as a block of the format the suggestions pass asks
    for: [Line: X] for one line, [Lines: X-Y] for a range. *)
Definition lineWordOf (s : suggestion) : string :=
  if startLine s =? endLine s then "Line:" else "Lines:".

Definition rangeOf (s : suggestion) : string :=
  if startLine s =? endLine s then Js.showZ (startLine s)
  else Js.showZ (startLine s) +:+ String "-" (Js.showZ (endLine s)).

Definition renderThen (s : suggestion) (more : string) : string :=
  blockThen (path s) (lineWordOf s) (rangeOf s) (issue s) (priority s) (code s) more.

(** The blocks of a list of suggestions, one after the other, each
    followed by a line break. *)
Fixpoint renderAll (l : list suggestion) : string :=
  match l with
  | [] => ""
  | s :: l' => renderThen s (String Js.nl (renderAll l'))
  end.

(** A suggestion that can be written as a block and read back: its file is
    the one its path resolves to among the changed files and has a patch;
    path and issue are trimmed one-line texts without asterisk (and, for the
    path, without backtick); the priority is one of the four names; the code
    is trimmed, not empty and holds no three backticks in a row; the line
    numbers are not negative. *)
Definition printable (files : list prFile) (s : suggestion) : Prop :=
  resolveFile files (path s) = Some (file s)
  /\ filename (file s) = path s /\ noPatch (file s) = false
  /\ isField (String Js.nl "*`") (path s) = true /\ Js.trim (path s) = path s
  /\ isField (String Js.nl "*") (issue s) = true /\ Js.trim (issue s) = issue s
  /\ priority s ∈ ["URGENT"; "HIGH"; "MEDIUM"; "LOW"]
  /\ Js.includes (code s) fence = false /\ Js.trim (code s) = code s /\ code s <> ""
  /\ 0 <= startLine s /\ 0 <= endLine s.

(** Two printable suggestions on one changed file. *)
Module RoundTripExamples.
Definition changedFile : prFile := PrFile "src/a.js" (Some Examples.oneAddedPatch).
Definition rangeSuggestion : suggestion :=
  Suggestion "src/a.js" "Rename the call" "omega(sigma, kappa);
delta();" 2 3 "HIGH" changedFile.
Definition lineSuggestion : suggestion :=
  Suggestion "src/a.js" "Drop it" "x = 1;" 12 12 "LOW" changedFile.
End RoundTripExamples.

(* ================================================================== *)
(** * Properties

    Claims are referred to by their identifiers C1 .. C10. *)

Import Examples.

Ltac evaluate := vm_compute; reflexivity.

(* ================================================================== *)
(** ** The matcher: the fuel of a star is never used up *)

Section Fuel.

Variable step : mstate -> (mstate -> option mstate) -> option mstate.
Hypothesis step_ext : forall x k k', (forall y, k y = k' y) -> step x k = step x k'.

Lemma starLoop_ext g k k' fuel : forall x,
  (forall y, k y = k' y) ->
  starLoop step g k fuel x = starLoop step g k' fuel x.
Proof.
  induction fuel as [|fuel IH]; intros x Hk; [reflexivity|].
  cbn [starLoop]. rewrite (Hk x).
  rewrite (step_ext x _ (fun y =>
    if (String.length (rest y) <? String.length (rest x))%nat
    then starLoop step g k' fuel y else None)); [reflexivity|].
  intros y. destruct (_ <? _)%nat; [by apply IH|reflexivity].
Qed.

Lemma starLoop_fuel g k fuel : forall fuel' x,
  (String.length (rest x) < fuel)%nat -> (String.length (rest x) < fuel')%nat ->
  starLoop step g k fuel x = starLoop step g k fuel' x.
Proof.
  induction fuel as [|fuel IH]; intros fuel' x H1 H2; [lia|].
  destruct fuel' as [|fuel']; [lia|]. cbn [starLoop].
  rewrite (step_ext x _ (fun y =>
    if (String.length (rest y) <? String.length (rest x))%nat
    then starLoop step g k fuel' y else None)); [reflexivity|].
  intros y. destruct (Nat.ltb_spec (String.length (rest y)) (String.length (rest x)));
    [|reflexivity].
  apply IH; lia.
Qed.

End Fuel.

Lemma rmatch_ext r : forall x k k',
  (forall y, k y = k' y) -> rmatch r x k = rmatch r x k'.
Proof.
  induction r as [|p|r1 IH1 r2 IH2|r1 IH1 r2 IH2|g r1 IH1|n r1 IH1|b r1 IH1| |];
    intros x k k' Hk; cbn [rmatch].
  - apply Hk.
  - destruct (rest x) as [|c t]; [reflexivity|]. destruct (p c); [apply Hk|reflexivity].
  - apply IH1. intros y. by apply IH2.
  - by rewrite (IH1 x k k' Hk), (IH2 x k k' Hk).
  - by apply starLoop_ext.
  - apply IH1. intros y. apply Hk.
  - destruct (rmatch r1 x Some); destruct b; try reflexivity; apply Hk.
  - destruct (xorb _ _); [apply Hk|reflexivity].
  - destruct (rest x); [apply Hk|reflexivity].
Qed.

(** Any larger fuel gives the same result: the matcher never stops for
    want of fuel. *)
Lemma star_fuel_suffices r g k x extra :
  starLoop (rmatch r) g k (S (String.length (rest x)) + extra) x
  = rmatch (Star g r) x k.
Proof.
  cbn [rmatch]. apply starLoop_fuel; [apply rmatch_ext|lia|lia].
Qed.

(* ================================================================== *)
(** ** DiffIndex and PatchPositionResolver *)

Lemma parseDigits_nonneg s : forall acc, 0 <= acc -> 0 <= Js.parseDigits acc s.
Proof.
  induction s as [|c t IH]; intros acc Hacc; simpl; [exact Hacc|].
  apply IH. unfold Js.digitVal. lia.
Qed.

Lemma hunkNewStart_nonneg line n : hunkNewStart line = Some n -> 0 <= n.
Proof.
  unfold hunkNewStart. destruct (exec hunkRe line) as [m|]; [|discriminate].
  destruct (capture 1 (groups m)) as [d|]; cbn; [|done].
  intros Heq. injection Heq as <-. apply parseDigits_nonneg. lia.
Qed.

Lemma startsWith_char a t (c : ascii) :
  Js.startsWith (String a t) (String c "") = Ascii.eqb a c.
Proof. cbn [Js.startsWith]. apply andb_true_r. Qed.

Lemma startsWith_at_not line (c : ascii) :
  Js.startsWith line "@@" = true -> Ascii.eqb "@" c = false ->
  Js.startsWith line (String c "") = false.
Proof.
  destruct line as [|a t]; [done|].
  rewrite startsWith_char. cbn [Js.startsWith].
  destruct (Ascii.eqb_spec a "@") as [->|]; [|done].
  intros _ Hc. exact Hc.
Qed.

Lemma startsWith_plus_not_minus line :
  Js.startsWith line "+" || Js.startsWith line " " = true ->
  Js.startsWith line "-" = false.
Proof.
  destruct line as [|a t]; [done|].
  rewrite !startsWith_char.
  destruct (Ascii.eqb_spec a "+") as [->|]; [reflexivity|].
  destruct (Ascii.eqb_spec a " ") as [->|]; [reflexivity|]. done.
Qed.

Lemma entries_cons_none st st' line lines :
  Spec.numbering st (line :: lines) = None :: Spec.numbering st' lines ->
  entries st (line :: lines) = entries st' lines.
Proof. unfold entries. intros ->. reflexivity. Qed.

Lemma entries_cons_some st st' n line lines :
  Spec.numbering st (line :: lines) = Some n :: Spec.numbering st' lines ->
  entries st (line :: lines) = (n, Spec.entryOf line) :: entries st' lines.
Proof. unfold entries. intros ->. reflexivity. Qed.

(** [buildLineMap] inserts exactly the entries of the replay, in order,
    as long as no hunk header resets the counter to 0. *)
Lemma buildLineMapLines_entries lines : forall n m st,
  counterRel n st ->
  Forall (fun l => Spec.hunkHeader l <> Some 0) lines ->
  snd (buildLineMapLines lines (n, m)) = fold_left insertEntry (entries st lines) m.
Proof.
  induction lines as [|line lines IH]; intros n m st Hrel Hz; [reflexivity|].
  apply Forall_cons in Hz as [Hz0 Hz].
  unfold buildLineMapLines in *. cbn [fold_left buildLineMapStep].
  unfold Spec.hunkHeader in Hz0.
  destruct (Js.startsWith line "@@") eqn:Hat.
  - destruct (hunkNewStart line) as [k|] eqn:Hk.
    + rewrite (IH k m (Some k)); [|right; split; [reflexivity|]|exact Hz].
      * erewrite entries_cons_none; [reflexivity|].
        cbn [Spec.numbering]. unfold Spec.hunkHeader. rewrite Hat, Hk. reflexivity.
      * apply hunkNewStart_nonneg in Hk. assert (k <> 0) by congruence. lia.
    + rewrite (IH n m st Hrel Hz).
      erewrite entries_cons_none; [reflexivity|].
      cbn [Spec.numbering]. unfold Spec.hunkHeader. rewrite Hat, Hk.
      destruct st; [|reflexivity].
      rewrite !(startsWith_at_not line) by (assumption || reflexivity).
      reflexivity.
  - destruct Hrel as [[-> ->]|[-> Hn]].
    + simpl. rewrite (IH 0 m None); [|left; auto|exact Hz].
      erewrite entries_cons_none; [reflexivity|].
      cbn [Spec.numbering]. unfold Spec.hunkHeader. rewrite Hat. reflexivity.
    + destruct (n =? 0) eqn:Hn0; [lia|].
      destruct (Js.startsWith line "-") eqn:Hminus.
      { rewrite (IH n m (Some n)); [|right; auto|exact Hz].
        erewrite entries_cons_none; [reflexivity|].
        cbn [Spec.numbering]. unfold Spec.hunkHeader. rewrite Hat, Hminus. reflexivity. }
      destruct (Js.startsWith line "+") eqn:Hplus.
      { rewrite (IH (n + 1) _ (Some (n + 1))); [|right; split; [reflexivity|lia]|exact Hz].
        erewrite entries_cons_some with (n := n); [|
          cbn [Spec.numbering]; unfold Spec.hunkHeader; rewrite Hat, Hminus, Hplus; reflexivity].
        cbn [fold_left]. unfold insertEntry at 2, Spec.entryOf. cbn [fst snd]. rewrite Hplus. reflexivity. }
      destruct (Js.startsWith line " ") eqn:Hsp.
      { rewrite (IH (n + 1) _ (Some (n + 1))); [|right; split; [reflexivity|lia]|exact Hz].
        erewrite entries_cons_some with (n := n); [|
          cbn [Spec.numbering]; unfold Spec.hunkHeader; rewrite Hat, Hminus, Hplus, Hsp; reflexivity].
        cbn [fold_left]. unfold insertEntry at 2, Spec.entryOf. cbn [fst snd]. rewrite Hplus. reflexivity. }
      rewrite (IH n m (Some n)); [|right; auto|exact Hz].
      erewrite entries_cons_none; [reflexivity|].
      cbn [Spec.numbering]. unfold Spec.hunkHeader. rewrite Hat, Hminus, Hplus, Hsp. reflexivity.
Qed.

Lemma fold_insertEntry_dom es : forall (m : gmap Z lineInfo) k,
  k ∈ dom (fold_left insertEntry es m) <-> k ∈ dom m \/ k ∈ es.*1.
Proof.
  induction es as [|[k0 v0] es IH]; intros m k; cbn [fold_left fmap list_fmap].
  - rewrite elem_of_nil. tauto.
  - rewrite IH. unfold insertEntry at 1. cbn [fst snd].
    rewrite dom_insert, elem_of_union, elem_of_singleton, elem_of_cons. tauto.
Qed.

Lemma fold_insertEntry_lookup es : forall (m : gmap Z lineInfo) k v,
  fold_left insertEntry es m !! k = Some v -> m !! k = Some v \/ (k, v) ∈ es.
Proof.
  induction es as [|[k0 v0] es IH]; intros m k v; cbn [fold_left]; [tauto|].
  intros H. apply IH in H as [H|H]; [|right; apply elem_of_cons; by right].
  unfold insertEntry in H. cbn [fst snd] in H.
  destruct (decide (k0 = k)) as [->|Hne].
  - rewrite lookup_insert_eq in H. injection H as ->. right. apply elem_of_cons. by left.
  - rewrite lookup_insert_ne in H by done. by left.
Qed.

Lemma numbering_length lines : forall st,
  length (Spec.numbering st lines) = length lines.
Proof.
  induction lines as [|line lines IH]; intros st; [reflexivity|].
  cbn [Spec.numbering].
  destruct (Spec.hunkHeader line); [cbn; by rewrite IH|].
  destruct st; [|cbn; by rewrite IH].
  destruct (Js.startsWith line "-"); [cbn; by rewrite IH|].
  destruct (_ || _); cbn; by rewrite IH.
Qed.

Lemma numbering_numbered lines : forall st (i : nat) k,
  Spec.numbering st lines !! i = Some (Some k) ->
  exists line, lines !! i = Some line
    /\ Js.startsWith line "+" || Js.startsWith line " " = true
    /\ Js.startsWith line "-" = false.
Proof.
  induction lines as [|line lines IH]; intros st i k; [done|].
  cbn [Spec.numbering].
  destruct (Spec.hunkHeader line).
  { destruct i; [done|]. cbn. apply IH. }
  destruct st as [n|]; [|destruct i; [done|]; cbn; apply IH].
  destruct (Js.startsWith line "-") eqn:Hm.
  { destruct i; [done|]. cbn. apply IH. }
  destruct (_ || _) eqn:Hp.
  - destruct i; [|cbn; apply IH]. intros _. exists line. done.
  - destruct i; [done|]. cbn. apply IH.
Qed.

Lemma numbering_deletion lines : forall st (i : nat) line,
  lines !! i = Some line -> Js.startsWith line "-" = true ->
  Spec.numbering st lines !! i = Some None.
Proof.
  intros st i line Hl Hm.
  assert (Hlen : (i < length (Spec.numbering st lines))%nat).
  { rewrite numbering_length. by eapply lookup_lt_Some. }
  apply lookup_lt_is_Some in Hlen as [[k|] Hk]; [|done].
  apply numbering_numbered in Hk as (line' & Hl' & Hp & Hm').
  congruence.
Qed.

Lemma elem_of_entries st lines k v :
  (k, v) ∈ entries st lines <->
  exists (i : nat) line, lines !! i = Some line
    /\ Spec.numbering st lines !! i = Some (Some k) /\ v = Spec.entryOf line.
Proof.
  unfold entries. rewrite list_elem_of_omap. split.
  - intros ([line o] & Hin & Hf). apply list_elem_of_lookup in Hin as [i Hi].
    apply lookup_zip_with_Some in Hi as (x & y & Heq & Hx & Hy).
    injection Heq as <- <-. cbn in Hf. destruct o as [n|]; [|done].
    cbn in Hf. injection Hf as <- <-. eauto.
  - intros (i & line & Hl & Hn & ->). exists (line, Some k). split; [|done].
    apply list_elem_of_lookup. exists i. apply lookup_zip_with_Some. eauto.
Qed.

Lemma buildLineMap_entries patch :
  Forall (fun l => Spec.hunkHeader l <> Some 0) (Js.splitLines patch) ->
  buildLineMap patch = fold_left insertEntry (entries None (Js.splitLines patch)) ∅.
Proof.
  intros Hz. unfold buildLineMap.
  apply buildLineMapLines_entries; [left; done|exact Hz].
Qed.

Lemma buildLineMap_dom patch n :
  Forall (fun l => Spec.hunkHeader l <> Some 0) (Js.splitLines patch) ->
  n ∈ dom (buildLineMap patch) <->
  Some n ∈ Spec.numbering None (Js.splitLines patch).
Proof.
  intros Hz. rewrite (buildLineMap_entries patch Hz).
  rewrite fold_insertEntry_dom, dom_empty, elem_of_empty, list_elem_of_fmap. split.
  - intros [[]|([k v] & -> & Hin)].
    apply elem_of_entries in Hin as (i & line & _ & Hn & _).
    apply list_elem_of_lookup. eauto.
  - intros Hin. right. apply list_elem_of_lookup in Hin as [i Hi].
    destruct (numbering_numbered _ _ _ _ Hi) as (line & Hl & _).
    exists (n, Spec.entryOf line). split; [done|].
    apply elem_of_entries. eauto.
Qed.

Lemma buildLineMap_recorded patch n info :
  Forall (fun l => Spec.hunkHeader l <> Some 0) (Js.splitLines patch) ->
  buildLineMap patch !! n = Some info ->
  exists (i : nat) line,
    Js.splitLines patch !! i = Some line
    /\ Spec.numbering None (Js.splitLines patch) !! i = Some (Some n)
    /\ info = Spec.entryOf line.
Proof.
  intros Hz. rewrite (buildLineMap_entries patch Hz). intros H.
  apply fold_insertEntry_lookup in H as [H|H]; [done|].
  by apply elem_of_entries in H.
Qed.

(** C2, as stated, fails: after a hunk header whose [newStart] is 0 the
    replay of the claim numbers the next addition 0, while [buildLineMap],
    which reads a counter of 0 as the time before the first header, records
    nothing. *)
Lemma buildLineMap_zero_start_counterexample :
  Spec.numbering None (Js.splitLines zeroStartPatch) = [None; Some 0]
  /\ buildLineMap zeroStartPatch !! 0 = None
  /\ dom (buildLineMap zeroStartPatch) = ∅.
Proof. repeat split; vm_compute; reflexivity. Qed.

(** C2 (amended): line-counting fidelity.  For every patch text none of
    whose hunk headers has [newStart] 0, the keys of [buildLineMap] are
    exactly the line numbers of the replay: a hunk header resets the counter
    to [newStart], a deletion line gets no number, an addition or context
    line gets the current counter value, which then advances by one, and
    lines before the first header get no number.  Every entry comes from an
    addition or context line numbered with its key, never from a deletion
    line, and holds that line minus its first character, tagged [add] or
    [context]. *)
Theorem buildLineMap_line_counting (patch : string) :
  Forall (fun l => Spec.hunkHeader l <> Some 0) (Js.splitLines patch) ->
  let lines := Js.splitLines patch in
  let numbers := Spec.numbering None lines in
  (forall n, n ∈ dom (buildLineMap patch) <-> Some n ∈ numbers)
  /\ (forall n info, buildLineMap patch !! n = Some info ->
        exists (i : nat) line,
          lines !! i = Some line /\ numbers !! i = Some (Some n)
          /\ Js.startsWith line "+" || Js.startsWith line " " = true
          /\ Js.startsWith line "-" = false
          /\ info = Spec.entryOf line)
  /\ (forall (i : nat) line, lines !! i = Some line ->
        Js.startsWith line "-" = true -> numbers !! i = Some None).
Proof.
  intros Hz lines numbers. rewrite (buildLineMap_entries patch Hz).
  fold lines. split; [|split].
  - intros n. rewrite fold_insertEntry_dom, dom_empty, elem_of_empty.
    rewrite list_elem_of_fmap. split.
    + intros [[]|([k v] & -> & Hin)]. apply elem_of_entries in Hin as (i & line & _ & Hn & _).
      apply list_elem_of_lookup. eauto.
    + intros Hin. right. apply list_elem_of_lookup in Hin as [i Hi].
      destruct (numbering_numbered _ _ _ _ Hi) as (line & Hl & _).
      exists (n, Spec.entryOf line). split; [done|].
      apply elem_of_entries. eauto.
  - intros n info H. apply fold_insertEntry_lookup in H as [H|H]; [done|].
    apply elem_of_entries in H as (i & line & Hl & Hn & ->).
    destruct (numbering_numbered _ _ _ _ Hn) as (line' & Hl' & Hp & Hm).
    assert (line' = line) as -> by congruence.
    exists i, line. done.
  - intros i line Hl Hm. by eapply numbering_deletion.
Qed.

(** The hypothesis of C2 (amended) holds of the patch of the
    specification. *)
Lemma buildLineMap_line_counting_witness :
  Forall (fun l => Spec.hunkHeader l <> Some 0) (Js.splitLines oneAddedPatch)
  /\ forall n, n ∈ dom (buildLineMap oneAddedPatch)
       <-> Some n ∈ Spec.numbering None (Js.splitLines oneAddedPatch).
Proof.
  assert (H : Forall (fun l => Spec.hunkHeader l <> Some 0)
                (Js.splitLines oneAddedPatch)).
  { apply Forall_forall. intros l Hl. apply list_elem_of_In in Hl.
    vm_compute in Hl. intuition (subst; vm_compute; discriminate). }
  split; [exact H|].
  apply (buildLineMap_line_counting oneAddedPatch H).
Defined.

Lemma headerAgrees_nonzero lines :
  forallb headerAgrees lines = true ->
  Forall (fun l => Spec.hunkHeader l <> Some 0) lines.
Proof.
  rewrite forallb_forall, Forall_forall. intros H l Hl.
  specialize (H l (proj1 (list_elem_of_In _ _) Hl)).
  unfold headerAgrees, Spec.hunkHeader in *.
  destruct (Js.startsWith l "@@"); [|done].
  destruct (hunkNewStart l) as [a|]; [|done].
  destruct (positionNewStart l) as [b|]; [|done].
  intros [= ->]. apply andb_true_iff in H as [_ H]. done.
Qed.

(** Past the first header of a well-formed patch, [findPositionInPatch]
    returns the position of the first line the replay numbers with the
    target. *)
Lemma findPositionFrom_numbering lines : forall i n t,
  forallb headerAgrees lines = true ->
  findPositionFrom lines i (n - 1) t =
  (fun p : nat * option Z => i + Z.of_nat p.1 + 1)
    <$> list_find (fun o => o = Some t) (Spec.numbering (Some n) lines).
Proof.
  induction lines as [|line lines IH]; intros i n t Hwf; [reflexivity|].
  cbn [forallb] in Hwf. apply andb_true_iff in Hwf as [Hline Hwf].
  cbn [findPositionFrom Spec.numbering]. unfold headerAgrees, Spec.hunkHeader in *.
  assert (Hshift : forall o : option (nat * option Z),
    (fun p : nat * option Z => i + 1 + Z.of_nat p.1 + 1) <$> o =
    (fun p : nat * option Z => i + Z.of_nat p.1 + 1) <$> (prod_map S id <$> o)).
  { intros [[j x]|]; cbn; [f_equal; lia|reflexivity]. }
  destruct (Js.startsWith line "@@") eqn:Hat.
  - destruct (hunkNewStart line) as [a|]; [|done].
    destruct (positionNewStart line) as [b|]; [|done].
    apply andb_true_iff in Hline as [Hab _]. apply Z.eqb_eq in Hab as <-.
    rewrite (IH (i + 1) a t Hwf). cbn [list_find].
    rewrite decide_False by done. apply Hshift.
  - destruct (Js.startsWith line "-") eqn:Hm.
    { rewrite (IH (i + 1) n t Hwf). cbn [list_find].
      rewrite decide_False by done. apply Hshift. }
    destruct (Js.startsWith line "+" || Js.startsWith line " ") eqn:Hp.
    + replace (n - 1 + 1) with n by lia. cbn [list_find].
      destruct (Z.eqb_spec n t) as [->|Hne].
      * rewrite decide_True by done. cbn. f_equal. lia.
      * rewrite decide_False by congruence.
        replace n with (n + 1 - 1) at 1 by lia.
        rewrite (IH (i + 1) (n + 1) t Hwf). apply Hshift.
    + rewrite (IH (i + 1) n t Hwf). cbn [list_find].
      rewrite decide_False by done. apply Hshift.
Qed.

(** C1, as stated, fails: [findPositionInPatch] counts an addition that
    comes before any hunk header as line 1, [buildLineMap] ignores it. *)
Lemma findPositionInPatch_headerless_counterexample :
  findPositionInPatch headerlessPatch 1 = Some 1
  /\ buildLineMap headerlessPatch !! 1 = None.
Proof. split; vm_compute; reflexivity. Qed.

(** C1 (amended): position resolution is consistent with diff indexing
    on well-formed patches.  For every patch text that begins with a hunk
    header and in which every line starting with [@@] is a hunk header that
    both header patterns read alike, with a [newStart] of at least 1, and
    for every target line number: [findPositionInPatch] returns a position
    exactly when the target is a key of [buildLineMap]; the position is the
    1-based index, counting every line of the patch, of the first patch line
    the replay numbers with the target; and when the replay gives that
    number to one line only, the entry [buildLineMap] records for the target
    is the entry of that very line. *)
Theorem findPositionInPatch_consistent (patch : string) (targetLine : Z) :
  wellFormedPatch patch = true ->
  let lines := Js.splitLines patch in
  let numbers := Spec.numbering None lines in
  match findPositionInPatch patch targetLine with
  | Some position =>
      targetLine ∈ dom (buildLineMap patch)
      /\ exists (i : nat) line,
           position = Z.of_nat i + 1
           /\ lines !! i = Some line
           /\ numbers !! i = Some (Some targetLine)
           /\ (forall j : nat, (j < i)%nat -> numbers !! j <> Some (Some targetLine))
           /\ ((forall j : nat, numbers !! j = Some (Some targetLine) -> j = i) ->
               buildLineMap patch !! targetLine = Some (Spec.entryOf line))
  | None => targetLine ∉ dom (buildLineMap patch)
  end.
Proof.
  intros Hwf. cbv zeta. unfold wellFormedPatch in Hwf.
  apply andb_true_iff in Hwf as [Hfirst Hall].
  pose proof (headerAgrees_nonzero _ Hall) as Hz.
  pose proof (buildLineMap_dom patch targetLine Hz) as Hdom.
  pose proof (fun info => buildLineMap_recorded patch targetLine info Hz) as Hrec.
  unfold findPositionInPatch. clear Hz.
  destruct (Js.splitLines patch) as [|first rest]; [done|].
  cbn [forallb] in Hall. apply andb_true_iff in Hall as [Hhead Hrest].
  cbn [findPositionFrom]. rewrite Hfirst.
  cbn [Spec.numbering] in *. unfold headerAgrees, Spec.hunkHeader in *.
  rewrite Hfirst in *.
  destruct (hunkNewStart first) as [a|]; [|done].
  destruct (positionNewStart first) as [b|]; [|done].
  apply andb_true_iff in Hhead as [Hab _]. apply Z.eqb_eq in Hab as <-.
  rewrite (findPositionFrom_numbering rest (0 + 1) a targetLine Hrest).
  destruct (list_find _ _) as [[j x]|] eqn:Hfind; cbn.
  - apply list_find_Some in Hfind as (Hj & -> & Hmin).
    assert (Hin : targetLine ∈ dom (buildLineMap patch)).
    { apply Hdom. apply list_elem_of_lookup. by exists (S j). }
    split; [exact Hin|].
    destruct (numbering_numbered _ _ _ _ Hj) as (line & Hl & _).
    exists (S j), line. split; [lia|]. split; [done|]. split; [done|]. split.
    + intros [|j'] Hlt; [done|]. cbn. intros Hj'. eapply (Hmin j'); [exact Hj'|lia|done].
    + intros Huniq. apply elem_of_dom in Hin as [info Hinfo].
      rewrite Hinfo. destruct (Hrec info Hinfo) as (i' & line' & Hl' & Hn' & ->).
      apply Huniq in Hn' as ->. change (rest !! j = Some line') in Hl'. congruence.
  - apply list_find_None in Hfind. intros Hin. apply Hdom in Hin.
    apply elem_of_cons in Hin as [?|Hin]; [done|].
    rewrite Forall_forall in Hfind. by apply (Hfind _ Hin).
Qed.

(** The hypothesis of C1 (amended) holds of the patch of the
    specification; the added line, number 3, is at position 4. *)
Lemma findPositionInPatch_consistent_witness :
  wellFormedPatch oneAddedPatch = true
  /\ findPositionInPatch oneAddedPatch 3 = Some 4
  /\ 3 ∈ dom (buildLineMap oneAddedPatch).
Proof.
  assert (H : wellFormedPatch oneAddedPatch = true) by (vm_compute; reflexivity).
  assert (E : findPositionInPatch oneAddedPatch 3 = Some 4) by (vm_compute; reflexivity).
  split; [exact H|]. split; [exact E|].
  pose proof (findPositionInPatch_consistent oneAddedPatch 3 H) as Hc.
  cbv zeta in Hc. rewrite E in Hc. exact (proj1 Hc).
Defined.

(* ================================================================== *)
(** ** SuggestionValidator *)

Lemma lineRange_elem lineMap s i :
  allLinesExist lineMap s -> i ∈ lineRange s -> is_Some (lineMap !! i).
Proof.
  intros Hall Hin. apply Hall. unfold lineRange in Hin.
  apply elem_of_seqZ in Hin. lia.
Qed.

Lemma find_missing_none (lineMap : gmap Z lineInfo) (l : list Z) :
  (forall i, i ∈ l -> is_Some (lineMap !! i)) ->
  List.find (fun i => negb (mapHas lineMap i)) l = None.
Proof.
  induction l as [|i l IH]; intros H; [reflexivity|]. cbn [List.find].
  destruct (H i) as [info Hi]; [apply elem_of_cons; by left|].
  unfold mapHas at 1. rewrite Hi. cbn [negb].
  apply IH. intros j Hj. apply H, elem_of_cons. by right.
Qed.

Lemma getContent_Some (lineMap : gmap Z lineInfo) i info :
  lineMap !! i = Some info -> getContent lineMap i = Returns (content info).
Proof. unfold getContent. by intros ->. Qed.

Lemma mapOutcome_getContent (lineMap : gmap Z lineInfo) (l : list Z) :
  (forall i, i ∈ l -> is_Some (lineMap !! i)) ->
  mapOutcome (getContent lineMap) l
  = Returns (omap (fun i => content <$> lineMap !! i) l).
Proof.
  induction l as [|i l IH]; intros H; [reflexivity|].
  destruct (H i) as [info Hi]; [apply elem_of_cons; by left|].
  cbn [mapOutcome omap list_omap]. rewrite (getContent_Some _ _ _ Hi), Hi.
  rewrite IH; [reflexivity|]. intros j Hj. apply H, elem_of_cons. by right.
Qed.

(** When every targeted line exists, the existence loop passes and the
    rules are applied to the lines the index holds. *)
Lemma validateSuggestion_lines s lineMap :
  allLinesExist lineMap s ->
  validateSuggestion s lineMap = validateLines (actualLinesAt lineMap s) s.
Proof.
  intros Hall. unfold validateSuggestion.
  rewrite find_missing_none by (intros i; apply lineRange_elem, Hall).
  rewrite mapOutcome_getContent by (intros i; apply lineRange_elem, Hall).
  reflexivity.
Qed.

Lemma allLinesExist_check lineMap s :
  forallb (mapHas lineMap) (lineRange s) = true -> allLinesExist lineMap s.
Proof.
  rewrite forallb_forall. intros H i Hi.
  specialize (H i). unfold mapHas in H.
  destruct (lineMap !! i); [eauto|].
  discriminate H. apply list_elem_of_In. unfold lineRange. apply elem_of_seqZ. lia.
Qed.

Ltac lines_exist := apply allLinesExist_check; evaluate.

(** C3: guard-clause protection.  For every candidate whose lines all
    exist, if the actual code at those lines matches the early-return
    pattern and the suggested code does not, [validateSuggestion] returns a
    rejection whose reason starts with the words on the guard clause and
    early return, whatever the later rules (existence check, control flow,
    overlap floor, continuity) would say. *)
Theorem guard_clause_protection (s : suggestion) (lineMap : gmap Z lineInfo) :
  allLinesExist lineMap s ->
  hasEarlyReturn (extractStructure (actualCodeAt lineMap s)) = true ->
  hasEarlyReturn (extractStructure (suggestedCodeOf s)) = false ->
  validateSuggestion s lineMap
  = Returns (Invalid (removesGuard (actualCodeAt lineMap s)))
  /\ Js.startsWith (removesGuard (actualCodeAt lineMap s))
       "Removes guard clause/early return" = true.
Proof.
  intros Hall Ha Hs. split; [|reflexivity].
  rewrite (validateSuggestion_lines s lineMap Hall).
  unfold validateLines. fold (actualCodeAt lineMap s).
  unfold guardClauseRemoved. rewrite Ha, Hs. reflexivity.
Qed.

(** The hypotheses of C3 hold of the example of the specification. *)
Lemma guard_clause_protection_witness :
  allLinesExist (buildLineMap guardPatch) guardCandidate
  /\ validateSuggestion guardCandidate (buildLineMap guardPatch)
     = Returns (Invalid (removesGuard "if (!valid) return false;")).
Proof.
  assert (H : allLinesExist (buildLineMap guardPatch) guardCandidate) by lines_exist.
  split; [exact H|].
  apply (guard_clause_protection guardCandidate (buildLineMap guardPatch) H); evaluate.
Defined.

(** The continuity check never returns a rejection: it lets the suggestion
    pass or raises. *)
Lemma continuityCheck_cases actualLines actualCode s :
  continuityCheck actualLines actualCode s = Returns None
  \/ exists e, continuityCheck actualLines actualCode s = Throws e.
Proof.
  unfold continuityCheck.
  destruct (firstLineTrimmed actualLines) as [a|e]; cbn; [|right; eauto].
  destruct (firstLineTrimmed (Js.splitLines (suggestedCodeOf s))) as [b|e]; cbn;
    [|right; eauto].
  destruct (_ && _); [right; eauto|left; reflexivity].
Qed.

(** The outcomes of the rules, each with the condition that selects it. *)
Lemma validateLines_cases actualLines s :
  let actualCode := Js.trim (Js.joinLines actualLines) in
  let result := validateLines actualLines s in
  (guardClauseRemoved actualCode s = true
   /\ result = Returns (Invalid (removesGuard actualCode)))
  \/ (guardClauseRemoved actualCode s = false
      /\ existenceCheckRemoved actualCode s = true
      /\ result = Returns (Invalid (removesExistenceCheck actualCode)))
  \/ (existenceCheckRemoved actualCode s = false
      /\ controlFlowRewritten actualCode s = true
      /\ result = Returns (Invalid (rewritesControlFlow actualCode)))
  \/ (shortSnippetAccepted actualCode s = true
      /\ result = Returns (Valid actualCode))
  \/ (overlapInsufficient actualCode s = true
      /\ result = Returns (Invalid (insufficientOverlap (overlapRatio actualCode s)
                                      actualCode (suggestedCodeOf s))))
  \/ result = Returns (Valid actualCode)
  \/ (exists e, result = Throws e).
Proof.
  intros actualCode result. subst result. unfold validateLines. fold actualCode.
  destruct (guardClauseRemoved actualCode s); [by left|right].
  destruct (existenceCheckRemoved actualCode s); [by left|right].
  destruct (controlFlowRewritten actualCode s); [by left|right].
  destruct (shortSnippetAccepted actualCode s); [by left|right].
  destruct (overlapInsufficient actualCode s); [by left|right].
  destruct (2 <=? _); [|by left].
  destruct (continuityCheck_cases actualLines actualCode s) as [->|[e ->]];
    [by left|right; eauto].
Qed.

Lemma decides_Some : decides Some (fun _ => true).
Proof. by intros pv s g. Qed.

Lemma decides_ext k b b' : decides k b -> (forall s, b s = b' s) -> decides k b'.
Proof. intros H Hb pv s g. by rewrite H. Qed.

Lemma decides_Seq r1 r2 k b :
  decides (fun x => rmatch r1 x (fun y => rmatch r2 y k)) b ->
  decides (fun x => rmatch (Seq r1 r2) x k) b.
Proof. intros H pv s g. exact (H pv s g). Qed.

Lemma decides_Alt r1 r2 k b1 b2 :
  decides (fun x => rmatch r1 x k) b1 -> decides (fun x => rmatch r2 x k) b2 ->
  decides (fun x => rmatch (Alt r1 r2) x k) (fun s => b1 s || b2 s).
Proof.
  intros H1 H2 pv s g. specialize (H1 pv s g). specialize (H2 pv s g).
  cbn [rmatch]. cbn beta in H1, H2. rewrite <- H1, <- H2.
  by destruct (rmatch r1 _ k).
Qed.

Lemma decides_chrI c k b :
  decides k b ->
  decides (fun x => rmatch (chrI c) x k)
    (fun s => match s with
              | String a t => Ascii.eqb (Js.fold a) (Js.fold c) && b t
              | EmptyString => false
              end).
Proof.
  intros H pv s g. unfold chrI. cbn [rmatch rest caps].
  destruct s as [|a t]; [reflexivity|].
  destruct (Ascii.eqb _ _); [apply H|reflexivity].
Qed.

Lemma decides_litI w : w <> "" -> forall k b,
  decides k b -> decides (fun x => rmatch (litI w) x k) (Spec.wordThen w b).
Proof.
  induction w as [|c w IH]; intros Hw k b H; [done|].
  destruct w as [|c' w'].
  - cbn [litI Spec.wordThen]. apply (decides_chrI c k b H).
  - change (litI (String c (String c' w'))) with (Seq (chrI c) (litI (String c' w'))).
    apply decides_Seq.
    eapply decides_ext.
    + apply (decides_chrI c). apply IH; [done|exact H].
    + intros s. reflexivity.
Qed.

Lemma starLoop_dot_decides k b : decides k b ->
  forall fuel pv s g, (String.length s < fuel)%nat ->
  found (starLoop (rmatch dot) true k fuel (MState pv s g)) = Spec.laterOnLine b s.
Proof.
  intros H fuel. induction fuel as [|fuel IH]; intros pv s g Hf; [lia|].
  cbn [starLoop]. unfold dot at 1. cbn [rmatch rest caps].
  destruct s as [|c t].
  - cbn [Spec.laterOnLine]. rewrite orb_false_r. apply H.
  - cbn [Spec.laterOnLine String.length] in *.
    destruct (Js.isLineTerminator c); cbn [negb andb].
    + rewrite orb_false_r. apply H.
    + cbn [rest]. cbn [String.length].
      rewrite (proj2 (Nat.ltb_lt _ _)) by lia.
      specialize (IH (Some c) t g ltac:(lia)).
      rewrite <- IH, <- (H pv (String c t) g).
      destruct (starLoop _ _ _ _ _); [by rewrite orb_true_r|by rewrite orb_false_r].
Qed.

Lemma decides_star_dot k b :
  decides k b -> decides (fun x => rmatch (star dot) x k) (Spec.laterOnLine b).
Proof.
  intros H pv s g. unfold star. cbn [rmatch rest].
  apply starLoop_dot_decides; [exact H|lia].
Qed.

Lemma found_searchFrom r b :
  decides (fun x => rmatch r x Some) b ->
  forall s pv, found (searchFrom r pv s) = Spec.somewhere b s.
Proof.
  intros H. induction s as [|c t IH]; intros pv.
  - cbn [searchFrom Spec.somewhere]. unfold matchAt.
    rewrite <- (H pv "" []). cbn beta.
    by destruct (rmatch r _ Some).
  - cbn [searchFrom Spec.somewhere]. unfold matchAt.
    rewrite <- (H pv (String c t) []), <- (IH (Some c)). cbn beta.
    by destruct (rmatch r _ Some).
Qed.

Lemma test_somewhere r b :
  decides (fun x => rmatch r x Some) b ->
  forall s, test r s = Spec.somewhere b s.
Proof.
  intros H s. unfold test, exec. rewrite <- (found_searchFrom r b H s None).
  by destruct (searchFrom r None s).
Qed.

Lemma decides_beginsWithAny3 a b c :
  a <> "" -> b <> "" -> c <> "" ->
  decides (fun x => rmatch (alt [litI a; litI b; litI c]) x Some)
    (Spec.beginsWithAny [a; b; c]).
Proof.
  intros Ha Hb Hc. cbn [alt].
  eapply decides_ext.
  - apply decides_Alt; [apply (decides_litI a Ha), decides_Some|].
    apply decides_Alt; [apply (decides_litI b Hb), decides_Some
                       |apply (decides_litI c Hc), decides_Some].
  - intros s. unfold Spec.beginsWithAny. cbn [existsb]. by rewrite orb_false_r.
Qed.

Lemma decides_beginsWithAny2 a b :
  a <> "" -> b <> "" ->
  decides (fun x => rmatch (alt [litI a; litI b]) x Some)
    (Spec.beginsWithAny [a; b]).
Proof.
  intros Ha Hb. cbn [alt].
  eapply decides_ext.
  - apply decides_Alt; [apply (decides_litI a Ha), decides_Some
                       |apply (decides_litI b Hb), decides_Some].
  - intros s. unfold Spec.beginsWithAny. cbn [existsb]. by rewrite orb_false_r.
Qed.

(** The justification pattern read in words, for every issue text. *)
Lemma issueExplicitRe_reads (issue : string) :
  test issueExplicitRe issue = Spec.justifiesRemoval issue.
Proof.
  unfold Spec.justifiesRemoval. apply test_somewhere.
  unfold issueExplicitRe.
  change (alt [cat [litI "remov"; star dot; alt [litI "check"; litI "validat"; litI "isset"]];
               cat [litI "skip"; star dot; alt [litI "check"; litI "validat"]]])
    with (Alt (Seq (litI "remov")
                 (Seq (star dot) (alt [litI "check"; litI "validat"; litI "isset"])))
              (Seq (litI "skip") (Seq (star dot) (alt [litI "check"; litI "validat"])))).
  apply decides_Alt.
  - apply decides_Seq, (decides_litI "remov"); [done|].
    apply decides_Seq, decides_star_dot. by apply decides_beginsWithAny3.
  - apply decides_Seq, (decides_litI "skip"); [done|].
    apply decides_Seq, decides_star_dot. by apply decides_beginsWithAny2.
Qed.

(** C7, as stated, fails: the issue text says that the null check can be
    removed, so it mentions removing a check, but it names the check before
    the removal and the pattern of the code asks for the reverse order;
    [validateSuggestion] rejects the candidate for removing the check. *)
Lemma existence_check_mention_counterexample :
  let lineMap := buildLineMap existencePatch in
  let s := lateMentionCandidate in
  let actualCode := actualCodeAt lineMap s in
  allLinesExist lineMap s
  /\ guardClauseRemoved actualCode s = false
  /\ hasExistenceCheck (extractStructure actualCode) = true
  /\ hasExistenceCheck (extractStructure (suggestedCodeOf s)) = false
  /\ Spec.mentionsCheckRemoval (issue s) = true
  /\ rejectedWith "Removes existence/validation check" (validateSuggestion s lineMap).
Proof.
  cbv zeta. split; [lines_exist|].
  split; [evaluate|]. split; [evaluate|]. split; [evaluate|]. split; [evaluate|].
  eexists. split; evaluate.
Qed.

(** C7 (amended): existence-check protection with its justification
    escape.  For every candidate whose lines all exist and that passed the
    guard-clause rule, [validateSuggestion] rejects with a reason about
    removing an existence or validation check exactly when the actual code
    has the existence-check feature, the suggested code has not, and the
    issue text does not match the justification pattern; when the issue
    text matches it, this rejection does not occur.  The pattern matches
    exactly when the issue text holds, letters compared without case,
    [remov] followed on the same line by [check], [validat] or [isset], or
    [skip] followed on the same line by [check] or [validat]. *)
Theorem existence_check_protection (s : suggestion) (lineMap : gmap Z lineInfo) :
  allLinesExist lineMap s ->
  guardClauseRemoved (actualCodeAt lineMap s) s = false ->
  (rejectedWith "Removes existence/validation check" (validateSuggestion s lineMap)
   <-> hasExistenceCheck (extractStructure (actualCodeAt lineMap s)) = true
       /\ hasExistenceCheck (extractStructure (suggestedCodeOf s)) = false
       /\ test issueExplicitRe (issue s) = false)
  /\ (test issueExplicitRe (issue s) = true ->
      ~ rejectedWith "Removes existence/validation check" (validateSuggestion s lineMap))
  /\ test issueExplicitRe (issue s) = Spec.justifiesRemoval (issue s).
Proof.
  intros Hall Hguard.
  rewrite (validateSuggestion_lines s lineMap Hall).
  assert (Hcond : existenceCheckRemoved (actualCodeAt lineMap s) s = true
          <-> hasExistenceCheck (extractStructure (actualCodeAt lineMap s)) = true
              /\ hasExistenceCheck (extractStructure (suggestedCodeOf s)) = false
              /\ test issueExplicitRe (issue s) = false).
  { unfold existenceCheckRemoved.
    rewrite !andb_true_iff, !negb_true_iff. tauto. }
  assert (Hiff : rejectedWith "Removes existence/validation check"
                   (validateLines (actualLinesAt lineMap s) s)
                 <-> existenceCheckRemoved (actualCodeAt lineMap s) s = true).
  { pose proof (validateLines_cases (actualLinesAt lineMap s) s) as Hcases.
    cbv zeta in Hcases. fold (actualCodeAt lineMap s) in Hcases. split.
    - intros (reason & Heq & Hpre).
      destruct Hcases as [[Hg _]|[(_ & He & _)|[(_ & _ & E)|[(_ & E)|[(_ & E)|[E|[e E]]]]]]];
        [congruence|exact He|..]; rewrite E in Heq; try discriminate Heq;
        injection Heq as <-; discriminate Hpre.
    - intros He.
      destruct Hcases as [[Hg _]|[(_ & _ & E)|[(He' & _)|Hrest]]]; [congruence| |congruence|].
      + rewrite E. eexists. split; reflexivity.
      + exfalso. revert Hrest. unfold validateLines. fold (actualCodeAt lineMap s).
        rewrite Hguard, He. intros [(_ & E)|[(_ & E)|[E|[e E]]]]; discriminate E. }
  split; [|split].
  - rewrite Hiff. exact Hcond.
  - intros Hissue. rewrite Hiff, Hcond. intros (_ & _ & Hno). congruence.
  - apply issueExplicitRe_reads.
Qed.

(** C7 at two candidates that drop a null check: with the issue
    [Simplify the call] the candidate is rejected; with the issue
    [Remove the redundant null check] the pattern matches, the rejection
    does not occur and the candidate is accepted. *)
Lemma existence_check_protection_witness :
  allLinesExist (buildLineMap existencePatch) existenceCandidate
  /\ guardClauseRemoved (actualCodeAt (buildLineMap existencePatch) existenceCandidate)
       existenceCandidate = false
  /\ rejectedWith "Removes existence/validation check"
       (validateSuggestion existenceCandidate (buildLineMap existencePatch))
  /\ allLinesExist (buildLineMap existencePatch) justifiedCandidate
  /\ guardClauseRemoved (actualCodeAt (buildLineMap existencePatch) justifiedCandidate)
       justifiedCandidate = false
  /\ hasExistenceCheck
       (extractStructure (actualCodeAt (buildLineMap existencePatch) justifiedCandidate))
     = true
  /\ hasExistenceCheck (extractStructure (suggestedCodeOf justifiedCandidate)) = false
  /\ Spec.justifiesRemoval (issue justifiedCandidate) = true
  /\ ~ rejectedWith "Removes existence/validation check"
        (validateSuggestion justifiedCandidate (buildLineMap existencePatch))
  /\ validateSuggestion justifiedCandidate (buildLineMap existencePatch)
     = Returns (Valid "if (x !== null) { run(x); }").
Proof.
  assert (H : allLinesExist (buildLineMap existencePatch) existenceCandidate)
    by lines_exist.
  assert (H' : allLinesExist (buildLineMap existencePatch) justifiedCandidate)
    by lines_exist.
  assert (Hg' : guardClauseRemoved
                  (actualCodeAt (buildLineMap existencePatch) justifiedCandidate)
                  justifiedCandidate = false) by evaluate.
  destruct (existence_check_protection justifiedCandidate (buildLineMap existencePatch)
              H' Hg') as (_ & Hescape & Hreads).
  split; [exact H|]. split; [evaluate|].
  split.
  { apply (existence_check_protection existenceCandidate (buildLineMap existencePatch) H);
      [evaluate|]. repeat split; evaluate. }
  split; [exact H'|]. split; [exact Hg'|]. split; [evaluate|]. split; [evaluate|].
  split; [rewrite <- Hreads; evaluate|].
  split; [apply Hescape; evaluate|evaluate].
Defined.

Lemma dropWord_length s : (String.length (dropWord s) <= String.length s)%nat.
Proof.
  induction s as [|c t IH]; cbn [dropWord]; [lia|].
  destruct (Js.isWord c); cbn [String.length]; lia.
Qed.

Lemma rmatch_word_cons pv c t g k :
  rmatch word (MState pv (String c t) g) k
  = if Js.isWord c then k (MState (Some c) t g) else None.
Proof. reflexivity. Qed.

Lemma starLoop_word s : forall fuel pv g,
  (String.length s < fuel)%nat ->
  exists pv',
    starLoop (rmatch word) true Some fuel (MState pv s g)
    = Some (MState pv' (dropWord s) g).
Proof.
  induction s as [|c t IH]; intros fuel pv g Hfuel.
  - destruct fuel; [cbn in Hfuel; lia|]. exists pv. reflexivity.
  - destruct fuel as [|fuel]; [lia|]. cbn [String.length] in Hfuel.
    cbn [starLoop]. rewrite rmatch_word_cons. cbn [rest dropWord].
    destruct (Js.isWord c).
    + cbn [String.length]. rewrite (proj2 (Nat.ltb_lt _ _)) by lia.
      destruct (IH fuel (Some c) g) as [pv' ->]; [lia|]. eauto.
    + eauto.
Qed.

(** A match of the identifier pattern covers a letter or underscore and
    the run of word characters after it. *)
Lemma matchAt_identRe pv s m :
  matchAt identRe pv s = Some m ->
  exists c t, s = String c t /\ isIdStart c = true
    /\ whole m = consumed s (dropWord t).
Proof.
  unfold matchAt, identRe, star.
  destruct s as [|c t]; [done|].
  change (rmatch (Seq (Chr isIdStart) (Star true word)) (MState pv (String c t) []) Some)
    with (if isIdStart c
          then starLoop (rmatch word) true Some (S (String.length t)) (MState (Some c) t [])
          else None).
  destruct (isIdStart c) eqn:Hc; [|done].
  destruct (starLoop_word t (S (String.length t)) (Some c) []) as [pv' ->]; [lia|].
  intros [= <-]. exists c, t. done.
Qed.

Lemma substring0_length n s :
  String.length (Js.substring0 n s) = Nat.min n (String.length s).
Proof.
  unfold Js.substring0. revert n. induction s as [|c t IH]; intros [|n]; cbn; try reflexivity.
  by rewrite IH.
Qed.

Lemma isIdStart_isWord c : isIdStart c = true -> Js.isWord c = true.
Proof.
  unfold isIdStart, Js.isWord. intros H.
  apply orb_true_iff in H as [->| ->]; [reflexivity|]. apply orb_true_r.
Qed.

Lemma hasLongWordRun_tail c t :
  Spec.hasLongWordRun (String c t) = false -> Spec.hasLongWordRun t = false.
Proof.
  destruct t as [|b [|d t]]; try reflexivity.
  cbn [Spec.hasLongWordRun]. intros H. by apply orb_false_iff in H as [_ H].
Qed.

Lemma long_ident_has_run pv s m :
  matchAt identRe pv s = Some m -> 2 < Js.strlen (whole m) ->
  Spec.hasLongWordRun s = true.
Proof.
  intros Hm Hlen. apply matchAt_identRe in Hm as (c & t & -> & Hc & Hw).
  unfold Js.strlen in Hlen. rewrite Hw in Hlen. unfold consumed in Hlen.
  rewrite substring0_length in Hlen. cbn [String.length] in Hlen.
  apply isIdStart_isWord in Hc.
  destruct t as [|b t]; [cbn in Hlen; lia|].
  cbn [dropWord] in Hlen. destruct (Js.isWord b) eqn:Hb;
    [|cbn [String.length] in Hlen; lia].
  destruct t as [|d t]; [cbn in Hlen; lia|].
  cbn [dropWord] in Hlen. destruct (Js.isWord d) eqn:Hd;
    [|cbn [String.length] in Hlen; lia].
  cbn [Spec.hasLongWordRun]. by rewrite Hc, Hb, Hd.
Qed.

Lemma scan_identRe_short s : forall pv skip,
  Spec.hasLongWordRun s = false ->
  Forall (fun m => ~ 2 < Js.strlen (whole m)) (scan identRe pv s skip).
Proof.
  induction s as [|c t IH]; intros pv skip Hrun.
  - destruct skip; cbn [scan]; [|constructor].
    destruct (matchAt identRe pv "") as [m|] eqn:Hm; [|constructor].
    apply matchAt_identRe in Hm as (? & ? & ? & _). done.
  - pose proof (hasLongWordRun_tail _ _ Hrun) as Htail.
    destruct skip; cbn [scan]; [|by apply IH].
    destruct (matchAt identRe pv (String c t)) as [m|] eqn:Hm; [|by apply IH].
    constructor; [|by apply IH].
    intros Hlen. rewrite (long_ident_has_run _ _ _ Hm Hlen) in Hrun. done.
Qed.

Lemma identWords_short text :
  Spec.hasLongWordRun text = false -> identWords text = [].
Proof.
  intros Hrun. unfold identWords, matchAll.
  pose proof (scan_identRe_short text None O Hrun) as H.
  induction H as [|m l Hm _ IH]; [reflexivity|].
  cbn [fmap list_fmap]. rewrite filter_cons_False by exact Hm. exact IH.
Qed.

(** A text with no run of word characters longer than two has no
    identifier. *)
Lemma extractIdentifiers_short text :
  Spec.hasLongWordRun text = false -> extractIdentifiers text = ∅.
Proof. intros H. unfold extractIdentifiers. by rewrite (identWords_short text H). Qed.

(** C10: for every candidate whose lines all exist, if the actual code
    holds no run of letters, digits and underscores longer than two
    characters, its identifier set is empty and the rejection for
    insufficient identifier overlap does not occur: the overlap floor needs
    both identifier sets non-empty. *)
Theorem empty_identifiers_skip_overlap_floor (s : suggestion) (lineMap : gmap Z lineInfo) :
  allLinesExist lineMap s ->
  Spec.hasLongWordRun (actualCodeAt lineMap s) = false ->
  extractIdentifiers (actualCodeAt lineMap s) = ∅
  /\ ~ rejectedWith "Insufficient identifier overlap" (validateSuggestion s lineMap).
Proof.
  intros Hall Hrun.
  pose proof (extractIdentifiers_short _ Hrun) as Hids. split; [exact Hids|].
  rewrite (validateSuggestion_lines s lineMap Hall).
  assert (Hno : overlapInsufficient (actualCodeAt lineMap s) s = false).
  { unfold overlapInsufficient. rewrite Hids. reflexivity. }
  pose proof (validateLines_cases (actualLinesAt lineMap s) s) as Hcases.
  cbv zeta in Hcases. fold (actualCodeAt lineMap s) in Hcases.
  intros (reason & Heq & Hpre).
  destruct Hcases as [[_ E]|[(_ & _ & E)|[(_ & _ & E)|[(_ & E)|[(Hov & _)|[E|[e E]]]]]]];
    [| | | |congruence| |]; rewrite E in Heq; try discriminate Heq;
    injection Heq as <-; discriminate Hpre.
Qed.

(** The hypotheses of C10 hold of a one-letter increment. *)
Lemma empty_identifiers_skip_overlap_floor_witness :
  allLinesExist (buildLineMap shortPatch) shortCandidate
  /\ Spec.hasLongWordRun (actualCodeAt (buildLineMap shortPatch) shortCandidate) = false
  /\ ~ rejectedWith "Insufficient identifier overlap"
         (validateSuggestion shortCandidate (buildLineMap shortPatch)).
Proof.
  assert (H : allLinesExist (buildLineMap shortPatch) shortCandidate) by lines_exist.
  split; [exact H|]. split; [evaluate|].
  apply (empty_identifiers_skip_overlap_floor shortCandidate (buildLineMap shortPatch) H).
  evaluate.
Defined.

Lemma commonIdsOf_length (A S : gset string) :
  length (commonIdsOf A S) = size (A ∩ S).
Proof.
  unfold commonIdsOf, size, set_size. cbn. apply Permutation_length.
  apply NoDup_Permutation.
  - apply NoDup_filter, NoDup_elements.
  - apply NoDup_elements.
  - intros x. rewrite list_elem_of_filter, !elem_of_elements, elem_of_intersection. tauto.
Qed.

Lemma size_pos (X : gset string) : X <> ∅ -> (0 <? Z.of_nat (size X)) = true.
Proof.
  intros Hne. apply Z.ltb_lt. destruct (size X) eqn:Hsz; [|lia].
  exfalso. apply Hne. apply leibniz_equiv. by apply size_empty_inv.
Qed.

Lemma Qltb_div_lt (c m p : Z) (q : positive) :
  0 < m -> Z.pos q * c < p * m ->
  Qltb (inject_Z c / inject_Z m) (p # q) = true.
Proof.
  intros Hm Hlt. unfold Qltb.
  assert (H : (inject_Z c / inject_Z m < p # q)%Q).
  { apply Qlt_shift_div_r.
    - unfold Qlt, inject_Z. cbn. lia.
    - unfold Qlt, Qmult, inject_Z. cbn. lia. }
  by rewrite (proj1 (Qlt_alt _ _) H).
Qed.

Lemma nonempty_check (X : gset string) : elements X <> [] -> X <> ∅.
Proof. intros H ->. apply H. apply elements_empty. Qed.

(** C6, as stated, fails: with identifiers taken as the maximal runs of
    letters, digits and underscores, the numbers of the actual code count as
    identifiers and the ratio is 1/6; [validateSuggestion] takes only the
    runs that start with a letter or an underscore, finds a ratio of 1/2
    and accepts. *)
Lemma overlap_floor_numeric_counterexample :
  let lineMap := buildLineMap numericPatch in
  let s := numericCandidate in
  let actualCode := actualCodeAt lineMap s in
  let actualIds := Spec.identifiers actualCode in
  let suggestedIds := Spec.identifiers (suggestedCodeOf s) in
  allLinesExist lineMap s
  /\ guardClauseRemoved actualCode s = false
  /\ existenceCheckRemoved actualCode s = false
  /\ controlFlowRewritten actualCode s = false
  /\ shortSnippetAccepted actualCode s = false
  /\ actualIds <> ∅ /\ suggestedIds <> ∅
  /\ (5 * size (actualIds ∩ suggestedIds)
      < Nat.max (size actualIds) (size suggestedIds))%nat
  /\ validateSuggestion s lineMap = Returns (Valid actualCode).
Proof.
  cbv zeta. split; [lines_exist|].
  split; [evaluate|]. split; [evaluate|]. split; [evaluate|]. split; [evaluate|].
  split; [apply nonempty_check; vm_compute; discriminate|].
  split; [apply nonempty_check; vm_compute; discriminate|].
  split; [apply Nat.ltb_lt; evaluate|evaluate].
Qed.

(** C6 (amended): overlap floor.  Identifiers are the matches, longer than
    two characters, of a letter or underscore followed by letters, digits
    and underscores (a run that starts with digits counts from its first
    letter or underscore on, a number does not count); the identifiers of
    the suggestion are taken from its untrimmed code.  For every candidate
    whose lines all exist and that reaches the overlap check, if both
    identifier sets are non-empty and the number of shared identifiers is
    below a fifth of the size of the larger set, [validateSuggestion]
    returns a rejection whose reason starts with the words on insufficient
    identifier overlap. *)
Theorem overlap_floor (s : suggestion) (lineMap : gmap Z lineInfo) :
  allLinesExist lineMap s ->
  let actualCode := actualCodeAt lineMap s in
  let actualIds := extractIdentifiers actualCode in
  let suggestedIds := extractIdentifiers (code s) in
  guardClauseRemoved actualCode s = false ->
  existenceCheckRemoved actualCode s = false ->
  controlFlowRewritten actualCode s = false ->
  shortSnippetAccepted actualCode s = false ->
  actualIds <> ∅ -> suggestedIds <> ∅ ->
  (5 * size (actualIds ∩ suggestedIds) < Nat.max (size actualIds) (size suggestedIds))%nat ->
  rejectedWith "Insufficient identifier overlap" (validateSuggestion s lineMap).
Proof.
  intros Hall actualCode actualIds suggestedIds Hg He Hc Hs HA HS Hratio.
  rewrite (validateSuggestion_lines s lineMap Hall).
  unfold validateLines. fold (actualCodeAt lineMap s). fold actualCode.
  rewrite Hg, He, Hc, Hs.
  assert (Hov : overlapInsufficient actualCode s = true).
  { unfold overlapInsufficient, overlapRatio, overlapRatioOf.
    fold actualIds suggestedIds.
    rewrite (size_pos _ HA), (size_pos _ HS). cbn [andb].
    rewrite commonIdsOf_length.
    apply Qltb_div_lt.
    - pose proof (proj1 (Z.ltb_lt _ _) (size_pos _ HA)). lia.
    - lia. }
  rewrite Hov. eexists. split; reflexivity.
Qed.

(** The hypotheses of C6 (amended) hold of the example of the
    specification. *)
Lemma overlap_floor_witness :
  allLinesExist (buildLineMap overlapPatch) overlapCandidate
  /\ rejectedWith "Insufficient identifier overlap"
       (validateSuggestion overlapCandidate (buildLineMap overlapPatch)).
Proof.
  assert (H : allLinesExist (buildLineMap overlapPatch) overlapCandidate) by lines_exist.
  split; [exact H|].
  apply (overlap_floor overlapCandidate (buildLineMap overlapPatch) H);
    [evaluate | evaluate | evaluate | evaluate
    | apply nonempty_check; vm_compute; discriminate
    | apply nonempty_check; vm_compute; discriminate
    | apply Nat.ltb_lt; evaluate].
Defined.

Lemma splitLines_cons s : exists l ls, Js.splitLines s = l :: ls.
Proof.
  induction s as [|c t (l & ls & IH)]; cbn [Js.splitLines]; [eauto|].
  destruct (Ascii.eqb c Js.nl); [eauto|]. rewrite IH. eauto.
Qed.

Lemma actualLinesAt_cons lineMap s :
  allLinesExist lineMap s -> startLine s <= endLine s ->
  exists l ls, actualLinesAt lineMap s = l :: ls.
Proof.
  intros Hall Hle. unfold actualLinesAt, lineRange.
  rewrite seqZ_cons by lia. cbn [omap list_omap].
  destruct (Hall (startLine s)) as [info ->]; [lia|]. cbn. eauto.
Qed.

(** C4, as stated, fails: a candidate of two lines meets every condition
    of the claim (both first tokens exist, differ and are not shared, the
    ratio is 1/4) and is accepted, since the check is entered only when
    [endLine - startLine >= 2]. *)
Lemma continuity_two_lines_counterexample :
  let lineMap := buildLineMap twoLinePatch in
  let s := twoLineCandidate in
  let actualCode := actualCodeAt lineMap s in
  allLinesExist lineMap s
  /\ guardClauseRemoved actualCode s = false
  /\ existenceCheckRemoved actualCode s = false
  /\ controlFlowRewritten actualCode s = false
  /\ shortSnippetAccepted actualCode s = false
  /\ overlapInsufficient actualCode s = false
  /\ 2 <= endLine s - startLine s + 1
  /\ actualFirstToken lineMap s = "alpha"
  /\ suggestedFirstToken s = "omega"
  /\ commonIds actualCode s = ["delta"]
  /\ Qltb (overlapRatio actualCode s) (3 # 10) = true
  /\ validateSuggestion s lineMap = Returns (Valid actualCode).
Proof.
  cbv zeta. split; [lines_exist|]. repeat split; try evaluate. cbn. lia.
Qed.

(** C4 (amended): scope of the multi-line continuity rule.  For every
    candidate whose lines all exist and that no earlier rule rejects or
    accepts, the continuity check applies only when [endLine - startLine] is
    at least 2 (three source lines or more) and the first identifier-like
    tokens of the first actual line and of the first suggested line both
    exist and differ; in every other case [validateSuggestion] accepts the
    candidate. *)
Theorem continuity_rule_scope (s : suggestion) (lineMap : gmap Z lineInfo) :
  allLinesExist lineMap s ->
  let actualCode := actualCodeAt lineMap s in
  guardClauseRemoved actualCode s = false ->
  existenceCheckRemoved actualCode s = false ->
  controlFlowRewritten actualCode s = false ->
  shortSnippetAccepted actualCode s = false ->
  overlapInsufficient actualCode s = false ->
  endLine s - startLine s < 2
  \/ actualFirstToken lineMap s = ""
  \/ suggestedFirstToken s = ""
  \/ actualFirstToken lineMap s = suggestedFirstToken s ->
  validateSuggestion s lineMap = Returns (Valid actualCode).
Proof.
  intros Hall actualCode Hg He Hc Hs Ho Hscope.
  rewrite (validateSuggestion_lines s lineMap Hall).
  unfold validateLines. fold (actualCodeAt lineMap s). fold actualCode.
  rewrite Hg, He, Hc, Hs, Ho.
  destruct (Z.leb_spec 2 (endLine s - startLine s)) as [Hd|Hd]; [|reflexivity].
  destruct Hscope as [Hlt|Htok]; [lia|].
  unfold continuityCheck, actualFirstToken, suggestedFirstToken in *.
  destruct (actualLinesAt_cons lineMap s Hall) as (l & ls & El); [lia|].
  destruct (splitLines_cons (suggestedCodeOf s)) as (l' & ls' & El').
  rewrite El, El' in *. cbn [firstLineTrimmed hd] in *.
  cbn [mbind outcome_bind].
  set (a := getFirstToken (Js.trim l)) in *.
  set (b := getFirstToken (Js.trim l')) in *.
  assert (Hcond : negb (String.eqb a "") && negb (String.eqb b "")
                  && negb (String.eqb a b) = false).
  { destruct Htok as [-> | [-> | ->]].
    - reflexivity.
    - by destruct (String.eqb a "").
    - rewrite String.eqb_refl. by destruct (String.eqb b ""). }
  rewrite Hcond. reflexivity.
Qed.

(** The hypotheses of C4 (amended) hold of the two-line candidate. *)
Lemma continuity_rule_scope_witness :
  allLinesExist (buildLineMap twoLinePatch) twoLineCandidate
  /\ endLine twoLineCandidate - startLine twoLineCandidate < 2
  /\ validateSuggestion twoLineCandidate (buildLineMap twoLinePatch)
     = Returns (Valid (actualCodeAt (buildLineMap twoLinePatch) twoLineCandidate)).
Proof.
  assert (H : allLinesExist (buildLineMap twoLinePatch) twoLineCandidate) by lines_exist.
  assert (Hd : endLine twoLineCandidate - startLine twoLineCandidate < 2) by (cbn; lia).
  split; [exact H|]. split; [exact Hd|].
  apply (continuity_rule_scope twoLineCandidate (buildLineMap twoLinePatch) H);
    try evaluate.
  left. exact Hd.
Defined.

(** The candidates on which [validateSuggestion] raises: those that reach
    the continuity check, over three lines or more, with two different first
    tokens. *)
Lemma continuity_check_raises (s : suggestion) (lineMap : gmap Z lineInfo) :
  allLinesExist lineMap s ->
  let actualCode := actualCodeAt lineMap s in
  guardClauseRemoved actualCode s = false ->
  existenceCheckRemoved actualCode s = false ->
  controlFlowRewritten actualCode s = false ->
  shortSnippetAccepted actualCode s = false ->
  overlapInsufficient actualCode s = false ->
  2 <= endLine s - startLine s ->
  actualFirstToken lineMap s <> EmptyString ->
  suggestedFirstToken s <> EmptyString ->
  actualFirstToken lineMap s <> suggestedFirstToken s ->
  validateSuggestion s lineMap
  = Throws (TypeError "commonIds.has is not a function").
Proof.
  intros Hall actualCode Hg He Hc Hs Ho Hd Ha Hb Hab.
  rewrite (validateSuggestion_lines s lineMap Hall).
  unfold validateLines. fold (actualCodeAt lineMap s). fold actualCode.
  rewrite Hg, He, Hc, Hs, Ho.
  rewrite (proj2 (Z.leb_le _ _) Hd).
  unfold continuityCheck, actualFirstToken, suggestedFirstToken in *.
  destruct (actualLinesAt_cons lineMap s Hall) as (l & ls & El); [lia|].
  destruct (splitLines_cons (suggestedCodeOf s)) as (l' & ls' & El').
  rewrite El, El' in *. cbn [firstLineTrimmed hd] in *.
  cbn [mbind outcome_bind].
  apply String.eqb_neq in Ha, Hb, Hab. rewrite Ha, Hb, Hab. reflexivity.
Qed.

Lemma find_missing_allLinesExist s lineMap :
  List.find (fun i => negb (mapHas lineMap i)) (lineRange s) = None ->
  allLinesExist lineMap s.
Proof.
  intros Hfind i Hi.
  pose proof (find_none _ _ Hfind i) as H. cbn beta in H.
  unfold mapHas in H. destruct (lineMap !! i); [eauto|].
  discriminate H. apply list_elem_of_In. unfold lineRange. apply elem_of_seqZ. lia.
Qed.

(** The other error branches of the embedding are unreachable: the only
    error [validateSuggestion] raises is that of the call of [has] on the
    array, over a range of three lines or more whose lines all exist. *)
Lemma validateSuggestion_only_error (s : suggestion) (lineMap : gmap Z lineInfo) e :
  validateSuggestion s lineMap = Throws e ->
  e = TypeError "commonIds.has is not a function"
  /\ allLinesExist lineMap s /\ 2 <= endLine s - startLine s.
Proof.
  destruct (List.find (fun i => negb (mapHas lineMap i)) (lineRange s)) as [i|] eqn:Hfind.
  { unfold validateSuggestion. rewrite Hfind. discriminate. }
  pose proof (find_missing_allLinesExist s lineMap Hfind) as Hall.
  rewrite (validateSuggestion_lines s lineMap Hall).
  unfold validateLines.
  destruct (guardClauseRemoved _ _); [discriminate|].
  destruct (existenceCheckRemoved _ _); [discriminate|].
  destruct (controlFlowRewritten _ _); [discriminate|].
  destruct (shortSnippetAccepted _ _); [discriminate|].
  destruct (overlapInsufficient _ _); [discriminate|].
  destruct (Z.leb_spec 2 (endLine s - startLine s)) as [Hd|Hd]; [|discriminate].
  unfold continuityCheck.
  destruct (actualLinesAt_cons lineMap s Hall) as (l & ls & ->); [lia|].
  destruct (splitLines_cons (suggestedCodeOf s)) as (l' & ls' & ->).
  cbn [firstLineTrimmed mbind outcome_bind].
  destruct (_ && _); cbn [arrayHas mbind outcome_bind]; [|discriminate].
  intros [= <-]. done.
Qed.

(** C5 fails on the code: [validateSuggestion] raises.  A well-formed
    suggestion block of three lines, parsed by [parseSuggestions] and
    validated against the index of its file, reaches the continuity check
    with two different first tokens; there the call [commonIds.has] on an
    array raises a TypeError. *)
Theorem validateSuggestion_raises :
  parseSuggestions threeLineText [changedFile threeLinePatch] = [threeLineCandidate]
  /\ allLinesExist (lineMapOf (changedFile threeLinePatch)) threeLineCandidate
  /\ validateSuggestion threeLineCandidate (lineMapOf (changedFile threeLinePatch))
     = Throws (TypeError "commonIds.has is not a function").
Proof.
  split; [evaluate|]. split; [lines_exist|evaluate].
Qed.


(* ================================================================== *)
(** ** SuggestionParser *)

(** [List.find] returns the first element, in list order, that satisfies
    the predicate. *)
Lemma find_first {A} (p : A -> bool) (l : list A) x :
  List.find p l = Some x <->
  exists i : nat, l !! i = Some x /\ p x = true
    /\ forall (j : nat) y, (j < i)%nat -> l !! j = Some y -> p y = false.
Proof.
  induction l as [|a l IH]; cbn [List.find].
  - split; [done|]. by intros (i & Hi & _).
  - destruct (p a) eqn:Hpa.
    + split.
      * intros [= ->]. exists O. split; [done|]. split; [done|]. intros j y Hj. lia.
      * intros ([|i] & Hi & Hx & Hmin).
        -- by injection Hi as ->.
        -- rewrite (Hmin O a) in Hpa by (done || lia). done.
    + rewrite IH. split.
      * intros (i & Hi & Hx & Hmin). exists (S i). split; [done|]. split; [done|].
        intros [|j] y Hj Hy; [by injection Hy as <-|]. apply (Hmin j); [lia|done].
      * intros ([|i] & Hi & Hx & Hmin).
        -- injection Hi as ->. congruence.
        -- exists i. split; [done|]. split; [done|].
           intros j y Hj Hy. apply (Hmin (S j)); [lia|done].
Qed.

Lemma resolveFile_first files label f :
  resolveFile files label = Some f <-> firstMatching files label f.
Proof. apply find_first. Qed.

Lemma resolveFile_none files label :
  (forall f, f ∈ files -> fileMatches label f = false) ->
  resolveFile files label = None.
Proof.
  intros H. unfold resolveFile.
  destruct (List.find _ files) as [f|] eqn:Hf; [|done].
  apply find_some in Hf as [Hin Hm]. apply list_elem_of_In in Hin.
  rewrite (H f Hin) in Hm. done.
Qed.

Lemma dedup_fold l : forall seen unique,
  snd (fold_left dedupStep l (seen, unique)) = (unique ++ dedupFrom seen l)%list.
Proof.
  induction l as [|s l IH]; intros seen unique; cbn [fold_left dedupFrom].
  - cbn. by rewrite app_nil_r.
  - unfold dedupStep at 2. destruct (decide _); [apply IH|].
    rewrite IH. by rewrite <- app_assoc.
Qed.

Lemma dedup_dedupFrom l : dedup l = dedupFrom ∅ l.
Proof. unfold dedup. by rewrite dedup_fold. Qed.

(** The retained suggestions are a subsequence of the parsed ones. *)
Lemma dedupFrom_sublist l : forall seen, sublist (dedupFrom seen l) l.
Proof.
  induction l as [|s l IH]; intros seen; cbn [dedupFrom]; [constructor|].
  destruct (decide _); [apply sublist_cons, IH|apply sublist_skip, IH].
Qed.

(** No key is retained twice, and no retained key was seen before. *)
Lemma dedupFrom_keys l : forall seen,
  NoDup (dedupKey <$> dedupFrom seen l)
  /\ forall c, c ∈ dedupFrom seen l -> dedupKey c ∉ seen.
Proof.
  induction l as [|s l IH]; intros seen; cbn [dedupFrom].
  - split; [constructor|]. by intros c H%elem_of_nil.
  - destruct (decide _) as [Hin|Hnot]; [apply IH|].
    destruct (IH ({[dedupKey s]} ∪ seen)) as [Hnd Hseen]. split.
    + cbn [fmap list_fmap]. constructor; [|exact Hnd].
      intros (c & Hk & Hc)%list_elem_of_fmap. apply Hseen in Hc.
      apply Hc, elem_of_union. left. by apply elem_of_singleton.
    + intros c [->|Hc]%elem_of_cons; [exact Hnot|]. apply Hseen in Hc.
      intros Hs. apply Hc, elem_of_union. by right.
Qed.

(** Every key met is retained once, unless it was seen before. *)
Lemma dedupFrom_retained l : forall seen c,
  c ∈ l -> dedupKey c ∈ seen
  \/ exists c', c' ∈ dedupFrom seen l /\ dedupKey c' = dedupKey c.
Proof.
  induction l as [|s l IH]; intros seen c Hc; [by apply elem_of_nil in Hc|].
  cbn [dedupFrom]. apply elem_of_cons in Hc as [->|Hc].
  - destruct (decide _) as [Hin|Hnot]; [by left|right].
    exists s. split; [apply elem_of_cons; by left|done].
  - destruct (decide _) as [Hin|Hnot]; [by apply IH|].
    destruct (IH ({[dedupKey s]} ∪ seen) c Hc) as [Hk|(c' & Hc' & Hk)].
    + apply elem_of_union in Hk as [Hk|Hk]; [|by left]. right.
      apply elem_of_singleton in Hk. exists s. split; [apply elem_of_cons; by left|done].
    + right. exists c'. split; [apply elem_of_cons; by right|done].
Qed.

Lemma dedup_fold_elem l : forall seen unique x,
  x ∈ snd (fold_left dedupStep l (seen, unique)) -> x ∈ unique \/ x ∈ l.
Proof.
  induction l as [|s l IH]; intros seen unique x; cbn [fold_left snd]; [by left|].
  unfold dedupStep at 2. destruct (decide _).
  - intros H. apply IH in H as [H|H]; [by left|right]. apply elem_of_cons. by right.
  - intros H. apply IH in H as [H|H]; [|right; apply elem_of_cons; by right].
    apply elem_of_app in H as [H|H]; [by left|right].
    apply list_elem_of_singleton in H as ->. apply elem_of_cons. by left.
Qed.

Lemma dedup_elem l x : x ∈ dedup l -> x ∈ l.
Proof.
  intros H. apply dedup_fold_elem in H as [H|H]; [|done]. by apply elem_of_nil in H.
Qed.

Lemma parseSuggestions_block markdown files c :
  c ∈ parseSuggestions markdown files ->
  exists m, m ∈ matchAll suggestionRe markdown /\ parseBlock files m = Some c.
Proof.
  unfold parseSuggestions. destruct (String.eqb markdown ""); [by intros H%elem_of_nil|].
  intros H%dedup_elem. unfold parsedBlocks in H.
  by apply list_elem_of_omap in H.
Qed.

(** C8, as stated, fails: the label [utils.js] equals the path of the
    second changed file, yet [parseSuggestions] resolves it to the first
    one, [src/utils.js], which only ends with the label. *)
Lemma file_resolution_preference_counterexample :
  Spec.resolveFile utilsFiles "utils.js" = Some (PrFile "utils.js" (Some oneAddedPatch))
  /\ path <$> parseSuggestions utilsText utilsFiles = ["src/utils.js"].
Proof. split; vm_compute; reflexivity. Qed.

(** C8 (amended): file-path resolution.  For every text and every ordered
    list of changed files, [parseSuggestions] resolves a file label to the
    first changed file, in list order, that matches it by any of the
    criteria (equality, the label a suffix of the path, the path a suffix of
    the label, containment in either direction): every returned candidate
    comes from a matched block whose label resolves in this way to the
    candidate's file, which has a patch; a block whose label matches no
    changed file, or whose first matching file has no patch, yields no
    candidate. *)
Theorem file_resolution_first_match (markdown : string) (files : list prFile) :
  (forall c, c ∈ parseSuggestions markdown files ->
     exists m, m ∈ matchAll suggestionRe markdown
       /\ parseBlock files m = Some c
       /\ firstMatching files (blockLabel m) (file c)
       /\ path c = filename (file c)
       /\ noPatch (file c) = false)
  /\ (forall m, (forall f, f ∈ files -> fileMatches (blockLabel m) f = false) ->
        parseBlock files m = None)
  /\ (forall m f, firstMatching files (blockLabel m) f -> noPatch f = true ->
        parseBlock files m = None)
  /\ (forall label f, fileMatches label f = true <->
        filename f = label
        \/ Js.endsWith (filename f) label = true
        \/ Js.endsWith label (filename f) = true
        \/ Js.includes (filename f) label = true
        \/ Js.includes label (filename f) = true).
Proof.
  split; [|split; [|split]].
  - intros c Hc. apply parseSuggestions_block in Hc as (m & Hm & Hblock).
    exists m. split; [exact Hm|]. split; [exact Hblock|].
    unfold parseBlock in Hblock. fold (blockLabel m) in Hblock.
    destruct (resolveFile files (blockLabel m)) as [f|] eqn:Hf; [|done].
    destruct (noPatch f) eqn:Hp; [done|].
    destruct (exec lineNumbersRe _); [|done].
    injection Hblock as <-. cbn [file path].
    split; [by apply resolveFile_first|done].
  - intros m Hnone. unfold parseBlock. fold (blockLabel m).
    by rewrite (resolveFile_none files (blockLabel m) Hnone).
  - intros m f Hfirst Hp. unfold parseBlock. fold (blockLabel m).
    apply resolveFile_first in Hfirst. by rewrite Hfirst, Hp.
  - intros label f. unfold fileMatches.
    rewrite !orb_true_iff, String.eqb_eq. tauto.
Qed.

(** C9 fails on the code: the key is the string
    [path:startLine:issue], and two different triples can give one string.
    The second block below is the first with its (path, start line, issue)
    triple, and it is dropped, since its key string equals that of the first
    block; the third block repeats the second. *)
Theorem dedup_key_collision :
  parsedBlocks collisionText collisionFiles
  = [collisionFirst; collisionSecond; collisionThird]
  /\ Spec.dedupKey collisionSecond <> Spec.dedupKey collisionFirst
  /\ Spec.dedupKey collisionThird = Spec.dedupKey collisionSecond
  /\ dedupKey collisionSecond = dedupKey collisionFirst
  /\ parseSuggestions collisionText collisionFiles = [collisionFirst].
Proof.
  split; [vm_compute; reflexivity|]. split; [vm_compute; congruence|].
  repeat split; vm_compute; reflexivity.
Qed.

(* ================================================================== *)
(** * Further properties

    Properties of the same code that the claims do not state; they are
    referred to by their identifiers X1, X2, ... *)

Import MoreExamples.
Import PipelineExamples.


Lemma splitLines_noLineBreak s : Forall (fun l => noLineBreak l = true) (Js.splitLines s).
Proof.
  induction s as [|c t IH]; cbn [Js.splitLines].
  - by constructor.
  - destruct (Ascii.eqb c Js.nl) eqn:Hc.
    + by constructor.
    + destruct (Js.splitLines t) as [|l ls].
      * constructor; [cbn; by rewrite Hc|constructor].
      * apply Forall_cons in IH as [Hl Hls].
        constructor; [cbn; by rewrite Hc, Hl|exact Hls].
Qed.

Lemma noLineBreak_substring1 l : noLineBreak l = true -> noLineBreak (Js.substring1 l) = true.
Proof. destruct l as [|c t]; [done|]. cbn. by intros [_ H]%andb_true_iff. Qed.

Lemma buildLineMapStep_invariant lines st line :
  line ∈ lines -> indexInvariant lines st -> indexInvariant lines (buildLineMapStep st line).
Proof.
  intros Hin [Hn Hm]. destruct st as [n m]. cbn [fst snd] in *.
  unfold buildLineMapStep.
  destruct (Js.startsWith line "@@") eqn:Hat.
  { destruct (hunkNewStart line) as [k|] eqn:Hk; [|by split].
    split; [exact (hunkNewStart_nonneg _ _ Hk)|exact Hm]. }
  destruct (Z.eqb_spec n 0) as [Hz|Hz]; [by split|].
  destruct (Js.startsWith line "-") eqn:Hminus; [by split|].
  assert (Hins : forall t, (t = add /\ Js.startsWith line "+" = true
                            \/ t = context /\ Js.startsWith line " " = true) ->
            indexInvariant lines (n + 1, <[n := LineInfo true (Js.substring1 line) t]> m)).
  { intros t Ht. split; [cbn; lia|]. cbn [snd]. intros k info Hk.
    destruct (decide (n = k)) as [<-|Hne].
    - rewrite lookup_insert_eq in Hk. injection Hk as <-. cbn.
      split; [lia|]. split; [done|]. exists line. done.
    - rewrite lookup_insert_ne in Hk by done. by apply Hm. }
  destruct (Js.startsWith line "+") eqn:Hplus; [apply Hins; by left|].
  destruct (Js.startsWith line " ") eqn:Hsp; [apply Hins; by right|].
  by split.
Qed.

Lemma buildLineMapLines_invariant lines : forall ls st,
  ls ⊆ lines -> indexInvariant lines st -> indexInvariant lines (buildLineMapLines ls st).
Proof.
  induction ls as [|l ls IH]; intros st Hsub Hinv; [exact Hinv|].
  unfold buildLineMapLines in *. cbn [fold_left].
  apply IH.
  - intros x Hx. apply Hsub, elem_of_cons. by right.
  - apply buildLineMapStep_invariant; [|exact Hinv]. apply Hsub, elem_of_cons. by left.
Qed.

Lemma buildLineMap_invariant patch :
  indexInvariant (Js.splitLines patch)
    (buildLineMapLines (Js.splitLines patch) (0, ∅)).
Proof.
  apply buildLineMapLines_invariant; [done|]. split; [done|].
  intros k i Hk. cbn [snd] in Hk. by rewrite lookup_empty in Hk.
Qed.

(** X1: every entry of the index, for any patch text whatever: its key is
    at least 1, its flag [exists] is set, its content holds no line break and
    is the text of an addition or context line of the patch without the
    marker, and its type tells which of the two markers the line starts
    with; no hunk header and no deletion line supplies an entry. *)
Theorem buildLineMap_entry_sound (patch : string) (n : Z) (info : lineInfo) :
  buildLineMap patch !! n = Some info ->
  1 <= n /\ exists_ info = true /\ noLineBreak (content info) = true
  /\ exists line, line ∈ Js.splitLines patch
       /\ Js.startsWith line "@@" = false /\ Js.startsWith line "-" = false
       /\ content info = Js.substring1 line
       /\ (type info = add /\ Js.startsWith line "+" = true
           \/ type info = context /\ Js.startsWith line " " = true).
Proof.
  intros Hlook.
  destruct (buildLineMap_invariant patch) as [_ Hm].
  destruct (Hm n info Hlook) as (Hn & He & line & Hin & Hrest).
  split; [exact Hn|]. split; [exact He|]. split; [|by exists line].
  destruct Hrest as (_ & _ & -> & _). apply noLineBreak_substring1.
  pose proof (splitLines_noLineBreak patch) as Hall.
  rewrite Forall_forall in Hall. by apply Hall.
Qed.

Lemma buildLineMap_entry_sound_witness :
  buildLineMap oneAddedPatch !! 3 = Some (LineInfo true "added" add)
  /\ 1 <= 3
  /\ exists line, line ∈ Js.splitLines oneAddedPatch
       /\ Js.substring1 line = "added" /\ Js.startsWith line "+" = true.
Proof.
  assert (H : buildLineMap oneAddedPatch !! 3 = Some (LineInfo true "added" add))
    by evaluate.
  split; [exact H|].
  destruct (buildLineMap_entry_sound oneAddedPatch 3 _ H)
    as (Hn & _ & _ & line & Hin & _ & _ & Hc & [[_ Hp]|[Ht _]]); [|discriminate Ht].
  split; [exact Hn|]. exists line. cbn [content] in Hc. done.
Defined.

(** A line that does not move the counter off 0 and records nothing. *)
Lemma buildLineMapLines_zero lines : forall m,
  Forall (fun l => Js.startsWith l "@@" = true ->
                   hunkNewStart l = None \/ hunkNewStart l = Some 0) lines ->
  buildLineMapLines lines (0, m) = (0, m).
Proof.
  induction lines as [|l ls IH]; intros m Hall; [reflexivity|].
  apply Forall_cons in Hall as [Hl Hls].
  unfold buildLineMapLines in *. cbn [fold_left].
  assert (Hstep : buildLineMapStep (0, m) l = (0, m)).
  { unfold buildLineMapStep. destruct (Js.startsWith l "@@"); [|reflexivity].
    destruct (Hl eq_refl) as [-> | ->]; reflexivity. }
  rewrite Hstep. by apply IH.
Qed.

(** X2: a patch in which no hunk header can be read, or whose headers all
    give a new start of 0, yields the empty index, whatever addition and
    context lines it holds. *)
Theorem buildLineMap_without_start (patch : string) :
  Forall (fun l => Js.startsWith l "@@" = true ->
                   hunkNewStart l = None \/ hunkNewStart l = Some 0)
         (Js.splitLines patch) ->
  buildLineMap patch = ∅.
Proof.
  intros Hall. unfold buildLineMap. by rewrite buildLineMapLines_zero.
Qed.

Lemma buildLineMap_without_start_witness :
  Forall (fun l => Js.startsWith l "@@" = true ->
                   hunkNewStart l = None \/ hunkNewStart l = Some 0)
         (Js.splitLines noHunkPatch)
  /\ buildLineMap noHunkPatch = ∅.
Proof.
  assert (H : Forall (fun l => Js.startsWith l "@@" = true ->
                   hunkNewStart l = None \/ hunkNewStart l = Some 0)
         (Js.splitLines noHunkPatch)).
  { refine (bool_decide_unpack _ _). vm_compute. exact I. }
  split; [exact H|]. exact (buildLineMap_without_start noHunkPatch H).
Defined.

Lemma buildLineMapStep_deletion st line :
  Js.startsWith line "-" = true -> buildLineMapStep st line = st.
Proof.
  intros Hminus. destruct st as [n m]. unfold buildLineMapStep.
  destruct line as [|a t]; [done|].
  rewrite startsWith_char in Hminus. apply Ascii.eqb_eq in Hminus as ->.
  cbn [Js.startsWith]. cbn. by destruct (n =? 0).
Qed.

Lemma buildLineMapLines_deletions lines : forall st,
  buildLineMapLines (filter (fun l => Js.startsWith l "-" = false) lines) st
  = buildLineMapLines lines st.
Proof.
  induction lines as [|l ls IH]; intros st; [reflexivity|].
  rewrite filter_cons. destruct (decide (Js.startsWith l "-" = false)) as [Hf|Hf].
  - unfold buildLineMapLines in *. cbn [fold_left]. apply IH.
  - apply not_false_is_true in Hf.
    unfold buildLineMapLines in *. cbn [fold_left].
    rewrite (buildLineMapStep_deletion _ _ Hf). apply IH.
Qed.

(** X3: deletion lines do not reach the index: a patch and the text left
    when its deletion lines are taken out have the same index. *)
Theorem buildLineMap_ignores_deletions (patch patch' : string) :
  Js.splitLines patch'
  = filter (fun l => Js.startsWith l "-" = false) (Js.splitLines patch) ->
  buildLineMap patch' = buildLineMap patch.
Proof.
  intros Heq. unfold buildLineMap. by rewrite Heq, buildLineMapLines_deletions.
Qed.

Lemma buildLineMap_ignores_deletions_witness :
  Js.splitLines deletionFreePatch
  = filter (fun l => Js.startsWith l "-" = false) (Js.splitLines deletionPatch)
  /\ buildLineMap deletionFreePatch = buildLineMap deletionPatch.
Proof.
  assert (H : Js.splitLines deletionFreePatch
    = filter (fun l => Js.startsWith l "-" = false) (Js.splitLines deletionPatch))
    by evaluate.
  split; [exact H|]. exact (buildLineMap_ignores_deletions _ _ H).
Defined.

(** [findPositionInPatch]: where a position comes from. *)
Lemma findPositionFrom_bounds lines : forall i c t p,
  findPositionFrom lines i c t = Some p ->
  exists (k : nat) line,
    p = i + Z.of_nat k + 1 /\ lines !! k = Some line
    /\ Js.startsWith line "+" || Js.startsWith line " " = true
    /\ Js.startsWith line "-" = false /\ Js.startsWith line "@@" = false.
Proof.
  induction lines as [|l ls IH]; intros i c t p; [done|].
  cbn [findPositionFrom].
  assert (Hrec : forall c', findPositionFrom ls (i + 1) c' t = Some p ->
    exists (k : nat) line,
      p = i + Z.of_nat k + 1 /\ (l :: ls) !! k = Some line
      /\ Js.startsWith line "+" || Js.startsWith line " " = true
      /\ Js.startsWith line "-" = false /\ Js.startsWith line "@@" = false).
  { intros c' H. apply IH in H as (k & line & -> & Hk & Hrest).
    exists (S k), line. split; [lia|]. done. }
  destruct (Js.startsWith l "@@") eqn:Hat; [apply Hrec|].
  destruct (Js.startsWith l "-") eqn:Hminus; [apply Hrec|].
  destruct (Js.startsWith l "+" || Js.startsWith l " ") eqn:Hps; [|apply Hrec].
  destruct (c + 1 =? t); [|apply Hrec].
  intros [= <-]. exists 0%nat, l. split; [lia|]. done.
Qed.

(** X5: a position returned by [findPositionInPatch], for any patch text
    and any target, is the 1-based index of a line of the patch that starts
    with the addition or the context marker: never of a hunk header or a
    deletion line, never 0 and never past the last line. *)
Theorem findPositionInPatch_position (patch : string) (targetLine position : Z) :
  findPositionInPatch patch targetLine = Some position ->
  1 <= position <= Z.of_nat (length (Js.splitLines patch))
  /\ exists line,
       Js.splitLines patch !! Z.to_nat (position - 1) = Some line
       /\ Js.startsWith line "+" || Js.startsWith line " " = true
       /\ Js.startsWith line "-" = false /\ Js.startsWith line "@@" = false.
Proof.
  unfold findPositionInPatch. intros H.
  apply findPositionFrom_bounds in H as (k & line & -> & Hk & Hrest).
  pose proof (lookup_lt_Some _ _ _ Hk) as Hlt.
  split; [lia|]. exists line.
  replace (Z.to_nat (0 + Z.of_nat k + 1 - 1)) with k by lia. done.
Qed.

Lemma findPositionInPatch_position_witness :
  findPositionInPatch deletionPatch 2 = Some 4
  /\ 1 <= 4 <= Z.of_nat (length (Js.splitLines deletionPatch)).
Proof.
  assert (H : findPositionInPatch deletionPatch 2 = Some 4) by evaluate.
  split; [exact H|]. exact (proj1 (findPositionInPatch_position _ _ _ H)).
Defined.

(** [lineMap.set] keeps the last value given to a key. *)
Lemma fold_insertEntry_notin es : forall (m : gmap Z lineInfo) k,
  k ∉ es.*1 -> fold_left insertEntry es m !! k = m !! k.
Proof.
  induction es as [|[k0 v0] es IH]; intros m k Hk; cbn [fold_left]; [reflexivity|].
  cbn [fmap list_fmap fst] in Hk. apply not_elem_of_cons in Hk as [Hne Hk].
  rewrite IH by exact Hk. unfold insertEntry. cbn [fst snd].
  by rewrite lookup_insert_ne.
Qed.

Lemma numbering_cons st line lines :
  exists o st', Spec.numbering st (line :: lines) = o :: Spec.numbering st' lines.
Proof.
  cbn [Spec.numbering]. destruct (Spec.hunkHeader line); [eauto|].
  destruct st; [|eauto].
  destruct (Js.startsWith line "-"); [eauto|].
  destruct (_ || _); eauto.
Qed.

Lemma fold_insertEntry_last lines : forall st m (i : nat) line n,
  lines !! i = Some line ->
  Spec.numbering st lines !! i = Some (Some n) ->
  (forall j : nat, (i < j)%nat -> Spec.numbering st lines !! j <> Some (Some n)) ->
  fold_left insertEntry (entries st lines) m !! n = Some (Spec.entryOf line).
Proof.
  induction lines as [|l ls IH]; intros st m i line n Hi Hn Hlast; [done|].
  destruct (numbering_cons st l ls) as (o & st' & Hnum).
  rewrite Hnum in Hn, Hlast.
  destruct i as [|i].
  - cbn in Hi, Hn. injection Hi as ->. injection Hn as ->.
    rewrite (entries_cons_some _ _ _ _ _ Hnum). cbn [fold_left].
    rewrite fold_insertEntry_notin.
    + unfold insertEntry. cbn [fst snd]. by rewrite lookup_insert_eq.
    + intros Hin. apply list_elem_of_fmap in Hin as ([k v] & Hk & Hin).
      cbn [fst] in Hk. subst k.
      apply elem_of_entries in Hin as (j & line' & _ & Hj & _).
      apply (Hlast (S j)); [lia|]. exact Hj.
  - cbn [lookup list_lookup] in Hi, Hn.
    assert (Hlast' : forall j : nat, (i < j)%nat ->
              Spec.numbering st' ls !! j <> Some (Some n)).
    { intros j Hj. apply (Hlast (S j)). lia. }
    destruct o as [k|].
    + rewrite (entries_cons_some _ _ _ _ _ Hnum). cbn [fold_left].
      by apply (IH st' _ i).
    + rewrite (entries_cons_none _ _ _ _ Hnum). by apply (IH st' _ i).
Qed.

(** X4: when several lines of a patch get the same new-file number, the
    index keeps the entry of the last of them.  (No hunk header resets the
    counter to 0.) *)
Theorem buildLineMap_last_wins (patch : string) (i : nat) (line : string) (n : Z) :
  Forall (fun l => Spec.hunkHeader l <> Some 0) (Js.splitLines patch) ->
  Js.splitLines patch !! i = Some line ->
  Spec.numbering None (Js.splitLines patch) !! i = Some (Some n) ->
  (forall j : nat, (i < j)%nat ->
     Spec.numbering None (Js.splitLines patch) !! j <> Some (Some n)) ->
  buildLineMap patch !! n = Some (Spec.entryOf line).
Proof.
  intros Hz Hi Hn Hlast. rewrite (buildLineMap_entries patch Hz).
  by apply (fold_insertEntry_last _ None ∅ i).
Qed.

Lemma buildLineMap_last_wins_witness :
  Spec.numbering None (Js.splitLines overlappingPatch) = [None; Some 1; None; Some 1]
  /\ buildLineMap overlappingPatch !! 1 = Some (LineInfo true "b" add).
Proof.
  assert (Hnum : Spec.numbering None (Js.splitLines overlappingPatch)
                 = [None; Some 1; None; Some 1]) by evaluate.
  split; [exact Hnum|].
  apply (buildLineMap_last_wins overlappingPatch 3 "+b" 1).
  - refine (bool_decide_unpack _ _). vm_compute. exact I.
  - evaluate.
  - rewrite Hnum. reflexivity.
  - intros j Hj. rewrite Hnum. destruct j as [|[|[|[|j]]]]; try lia. done.
Defined.

(** The existence loop stops at the first line that is not a key. *)
Lemma find_missing_first (lineMap : gmap Z lineInfo) (s : suggestion) (i : Z) :
  startLine s <= i <= endLine s -> lineMap !! i = None ->
  (forall j, startLine s <= j < i -> is_Some (lineMap !! j)) ->
  List.find (fun i => negb (mapHas lineMap i)) (lineRange s) = Some i.
Proof.
  intros Hi Hnone Hbefore. apply find_first.
  exists (Z.to_nat (i - startLine s)). split; [|split].
  - unfold lineRange. rewrite lookup_seqZ. lia.
  - unfold mapHas. by rewrite Hnone.
  - intros j y Hj Hy. unfold lineRange in Hy. apply lookup_seqZ in Hy as [-> Hlt].
    destruct (Hbefore (startLine s + Z.of_nat j)) as [info Hinfo]; [lia|].
    unfold mapHas. by rewrite Hinfo.
Qed.

(** X6: a line missing from the index.  When some line of the range
    [startLine .. endLine] is not a key of the index, [validateSuggestion]
    rejects the suggestion and the reason names the first such line,
    whatever the code, the issue and the other lines are. *)
Theorem validateSuggestion_first_missing (s : suggestion) (lineMap : gmap Z lineInfo) (i : Z) :
  startLine s <= i <= endLine s -> lineMap !! i = None ->
  (forall j, startLine s <= j < i -> is_Some (lineMap !! j)) ->
  validateSuggestion s lineMap = Returns (Invalid (lineNotFound i)).
Proof.
  intros Hi Hnone Hbefore. unfold validateSuggestion.
  by rewrite (find_missing_first lineMap s i Hi Hnone Hbefore).
Qed.

Lemma validateSuggestion_first_missing_witness :
  buildLineMap twoLinePatch !! 3 = None
  /\ validateSuggestion (candidate twoLinePatch 1 4 "Rename" "omega();")
       (buildLineMap twoLinePatch)
     = Returns (Invalid "Line 3 not found in diff").
Proof.
  assert (H : buildLineMap twoLinePatch !! 3 = None) by evaluate.
  split; [exact H|].
  apply (validateSuggestion_first_missing
           (candidate twoLinePatch 1 4 "Rename" "omega();") _ 3); [cbn; lia|exact H|].
  cbn [startLine candidate]. intros j Hj.
  assert (Hj' : j = 1 \/ j = 2) by lia.
  destruct Hj' as [-> | ->]; vm_compute; eauto.
Defined.

Lemma find_ext_in {A} (f g : A -> bool) (l : list A) :
  (forall x, x ∈ l -> f x = g x) -> List.find f l = List.find g l.
Proof.
  induction l as [|a l IH]; intros H; [reflexivity|]. cbn [List.find].
  rewrite (H a) by (apply elem_of_cons; by left).
  rewrite IH; [reflexivity|]. intros x Hx. apply H, elem_of_cons. by right.
Qed.

Lemma mapOutcome_ext_in {A B} (f g : A -> outcome B) (l : list A) :
  (forall x, x ∈ l -> f x = g x) -> mapOutcome f l = mapOutcome g l.
Proof.
  induction l as [|a l IH]; intros H; [reflexivity|]. cbn [mapOutcome].
  rewrite (H a) by (apply elem_of_cons; by left).
  rewrite IH; [reflexivity|]. intros x Hx. apply H, elem_of_cons. by right.
Qed.

(** X7: the verdict depends on the index only through the contents of the
    targeted lines: two indexes that hold the same content at every line of
    [startLine .. endLine] give the same outcome.  Entries outside the range
    and the type of an entry (addition or context) play no part. *)
Theorem validateSuggestion_frame (s : suggestion) (lineMap lineMap' : gmap Z lineInfo) :
  (forall i, startLine s <= i <= endLine s ->
     content <$> lineMap !! i = content <$> lineMap' !! i) ->
  validateSuggestion s lineMap = validateSuggestion s lineMap'.
Proof.
  intros Hsame.
  assert (Hin : forall i, i ∈ lineRange s ->
            content <$> lineMap !! i = content <$> lineMap' !! i).
  { intros i Hi. apply Hsame. unfold lineRange in Hi. apply elem_of_seqZ in Hi. lia. }
  unfold validateSuggestion.
  rewrite (find_ext_in _ (fun i => negb (mapHas lineMap' i)) (lineRange s)).
  2:{ intros i Hi. specialize (Hin i Hi). unfold mapHas.
      destruct (lineMap !! i), (lineMap' !! i); done. }
  rewrite (mapOutcome_ext_in _ (getContent lineMap') (lineRange s)); [reflexivity|].
  intros i Hi. specialize (Hin i Hi). unfold getContent.
  destruct (lineMap !! i), (lineMap' !! i); cbn in Hin; congruence.
Qed.

Lemma validateSuggestion_frame_witness :
  validateSuggestion guardCandidate (buildLineMap guardPatch)
  = validateSuggestion guardCandidate
      (<[11 := LineInfo true "next();" add]>
         (<[10 := LineInfo true "if (!valid) return false;" context]> (buildLineMap guardPatch))).
Proof.
  apply validateSuggestion_frame. cbn [startLine endLine guardCandidate candidate].
  intros i Hi. assert (i = 10) as -> by lia. evaluate.
Defined.

(** An accepted suggestion has passed the existence loop. *)
Lemma validateSuggestion_valid_lines (s : suggestion) (lineMap : gmap Z lineInfo)
  (actualCode : string) :
  validateSuggestion s lineMap = Returns (Valid actualCode) -> allLinesExist lineMap s.
Proof.
  intros Hv. apply find_missing_allLinesExist.
  destruct (List.find (fun i => negb (mapHas lineMap i)) (lineRange s)) as [i|] eqn:Hfind;
    [|reflexivity].
  unfold validateSuggestion in Hv. rewrite Hfind in Hv. discriminate.
Qed.

(** X8: what an accepted suggestion has passed.  Whenever
    [validateSuggestion] accepts, every targeted line is a key of the index,
    the [actualCode] returned is the trimmed text of those lines, the actual
    code's early return and existence check (unless the issue justifies
    its removal) are kept by the suggested code, the control flow is not
    rewritten, and the overlap floor holds unless the snippet was accepted
    as a short one. *)
Theorem accepted_suggestion_checked (s : suggestion) (lineMap : gmap Z lineInfo)
  (actualCode : string) :
  validateSuggestion s lineMap = Returns (Valid actualCode) ->
  allLinesExist lineMap s
  /\ actualCode = actualCodeAt lineMap s
  /\ (hasEarlyReturn (extractStructure actualCode) = true ->
      hasEarlyReturn (extractStructure (suggestedCodeOf s)) = true)
  /\ (hasExistenceCheck (extractStructure actualCode) = true ->
      hasExistenceCheck (extractStructure (suggestedCodeOf s)) = true
      \/ test issueExplicitRe (issue s) = true)
  /\ controlFlowRewritten actualCode s = false
  /\ (shortSnippetAccepted actualCode s = true
      \/ overlapInsufficient actualCode s = false).
Proof.
  intros Hv.
  pose proof (validateSuggestion_valid_lines s lineMap actualCode Hv) as Hall.
  split; [exact Hall|].
  rewrite (validateSuggestion_lines s lineMap Hall) in Hv.
  unfold validateLines in Hv. fold (actualCodeAt lineMap s) in Hv.
  set (a := actualCodeAt lineMap s) in *.
  destruct (guardClauseRemoved a s) eqn:Hg; [discriminate|].
  destruct (existenceCheckRemoved a s) eqn:He; [discriminate|].
  destruct (controlFlowRewritten a s) eqn:Hc; [discriminate|].
  assert (Hcode : actualCode = a /\ (shortSnippetAccepted a s = true
                                      \/ overlapInsufficient a s = false)).
  { destruct (shortSnippetAccepted a s); [injection Hv as <-; auto|].
    destruct (overlapInsufficient a s); [discriminate|].
    split; [|by right].
    destruct (2 <=? _); [|by injection Hv].
    destruct (continuityCheck_cases (actualLinesAt lineMap s) a s) as [Hk|[e Hk]];
      rewrite Hk in Hv; cbn in Hv; [by injection Hv|discriminate]. }
  destruct Hcode as [-> Hshort].
  split; [reflexivity|]. split; [|split; [|split; [exact Hc|exact Hshort]]].
  - intros Ha. unfold guardClauseRemoved in Hg. rewrite Ha in Hg.
    by destruct (hasEarlyReturn (extractStructure (suggestedCodeOf s))).
  - intros Ha. unfold existenceCheckRemoved in He. rewrite Ha in He.
    destruct (hasExistenceCheck (extractStructure (suggestedCodeOf s))); [by left|].
    right. by destruct (test issueExplicitRe (issue s)).
Qed.

Lemma accepted_suggestion_checked_witness :
  validateSuggestion twoLineCandidate (buildLineMap twoLinePatch)
  = Returns (Valid "alpha(beta, gamma);
delta();")
  /\ allLinesExist (buildLineMap twoLinePatch) twoLineCandidate.
Proof.
  assert (H : validateSuggestion twoLineCandidate (buildLineMap twoLinePatch)
              = Returns (Valid "alpha(beta, gamma);
delta();")) by evaluate.
  split; [exact H|]. exact (proj1 (accepted_suggestion_checked _ _ _ H)).
Defined.

(** X9: when [validateSuggestion] raises.  It raises exactly on the
    suggestions whose lines all exist, that no rule before the continuity
    check rejects or accepts, that span three lines or more, and whose
    first actual line and first suggested line both have a first token, the
    two being different; on every other input it returns a verdict. *)
Theorem validateSuggestion_raises_exactly (s : suggestion) (lineMap : gmap Z lineInfo) :
  (exists e, validateSuggestion s lineMap = Throws e)
  <-> (allLinesExist lineMap s
       /\ guardClauseRemoved (actualCodeAt lineMap s) s = false
       /\ existenceCheckRemoved (actualCodeAt lineMap s) s = false
       /\ controlFlowRewritten (actualCodeAt lineMap s) s = false
       /\ shortSnippetAccepted (actualCodeAt lineMap s) s = false
       /\ overlapInsufficient (actualCodeAt lineMap s) s = false
       /\ 2 <= endLine s - startLine s
       /\ actualFirstToken lineMap s <> EmptyString
       /\ suggestedFirstToken s <> EmptyString
       /\ actualFirstToken lineMap s <> suggestedFirstToken s).
Proof.
  split.
  - intros [e He].
    destruct (validateSuggestion_only_error s lineMap e He) as (_ & Hall & Hd).
    split; [exact Hall|].
    rewrite (validateSuggestion_lines s lineMap Hall) in He.
    unfold validateLines in He. fold (actualCodeAt lineMap s) in He.
    destruct (guardClauseRemoved _ _); [discriminate|].
    destruct (existenceCheckRemoved _ _); [discriminate|].
    destruct (controlFlowRewritten _ _); [discriminate|].
    destruct (shortSnippetAccepted _ _); [discriminate|].
    destruct (overlapInsufficient _ _); [discriminate|].
    do 5 (split; [reflexivity|]). split; [exact Hd|].
    rewrite (proj2 (Z.leb_le _ _) Hd) in He.
    unfold continuityCheck, actualFirstToken, suggestedFirstToken in *.
    destruct (actualLinesAt_cons lineMap s Hall) as (l & ls & El); [lia|].
    destruct (splitLines_cons (suggestedCodeOf s)) as (l' & ls' & El').
    rewrite El, El' in *. cbn [firstLineTrimmed hd mbind outcome_bind] in *.
    set (a := getFirstToken (Js.trim l)) in *.
    set (b := getFirstToken (Js.trim l')) in *.
    destruct (String.eqb_spec a "") as [|Ha]; [discriminate|].
    destruct (String.eqb_spec b "") as [|Hb]; [discriminate|].
    destruct (String.eqb_spec a b) as [|Hab]; [discriminate|]. done.
  - intros (Hall & Hg & He & Hc & Hs & Ho & Hd & Ha & Hb & Hab).
    eexists. by apply continuity_check_raises.
Qed.

Lemma extractStructure_empty :
  extractStructure "" =
  Structure false false false false false false false false false
            false false false false false false false false.
Proof. vm_compute. reflexivity. Qed.

(** X10: a range written backwards.  When the end line is below the start
    line, both loops over the range are empty: [validateSuggestion] looks up
    no line, whatever the index holds, takes the empty string as the actual
    code, and accepts the suggestion unless the control-flow rule rejects
    it.  No such suggestion is rejected for a line missing from the diff. *)
Theorem reversed_range_unchecked (s : suggestion) (lineMap : gmap Z lineInfo) :
  endLine s < startLine s ->
  validateSuggestion s lineMap
  = Returns (if controlFlowRewritten "" s
             then Invalid (rewritesControlFlow "") else Valid "").
Proof.
  intros Hrev. unfold validateSuggestion, lineRange.
  rewrite seqZ_nil by lia. cbn [List.find mapOutcome mbind outcome_bind].
  unfold validateLines. change (Js.trim (Js.joinLines [])) with "".
  assert (Hg : guardClauseRemoved "" s = false).
  { unfold guardClauseRemoved. by rewrite extractStructure_empty. }
  assert (He : existenceCheckRemoved "" s = false).
  { unfold existenceCheckRemoved. by rewrite extractStructure_empty. }
  assert (Hids : extractIdentifiers "" = ∅) by (by apply extractIdentifiers_short).
  assert (Ho : overlapInsufficient "" s = false).
  { unfold overlapInsufficient. by rewrite Hids, size_empty. }
  rewrite Hg, He. destruct (controlFlowRewritten "" s); [reflexivity|].
  destruct (shortSnippetAccepted "" s); [reflexivity|]. rewrite Ho.
  destruct (Z.leb_spec 2 (endLine s - startLine s)) as [|_]; [lia|reflexivity].
Qed.

Lemma reversed_range_unchecked_witness :
  endLine (candidate twoLinePatch 9 7 "Rename" "omega();")
    < startLine (candidate twoLinePatch 9 7 "Rename" "omega();")
  /\ buildLineMap twoLinePatch !! 9 = None
  /\ validateSuggestion (candidate twoLinePatch 9 7 "Rename" "omega();")
       (buildLineMap twoLinePatch) = Returns (Valid "").
Proof.
  assert (H : endLine (candidate twoLinePatch 9 7 "Rename" "omega();")
              < startLine (candidate twoLinePatch 9 7 "Rename" "omega();")) by (cbn; lia).
  split; [exact H|]. split; [evaluate|].
  rewrite (reversed_range_unchecked _ (buildLineMap twoLinePatch) H).
  evaluate.
Defined.

Lemma consumed_takeWord t :
  Js.substring0 (String.length t - String.length (dropWord t)) t = takeWord t.
Proof.
  unfold Js.substring0. induction t as [|c t IH]; [reflexivity|].
  cbn [dropWord takeWord]. pose proof (dropWord_length t) as Hlen.
  destruct (Js.isWord c).
  - cbn [String.length].
    replace (S (String.length t) - String.length (dropWord t))%nat
      with (S (String.length t - String.length (dropWord t))) by lia.
    cbn [String.substring]. by rewrite IH.
  - by rewrite Nat.sub_diag.
Qed.

Lemma matchAt_identRe_whole pv s : whole <$> matchAt identRe pv s = identAt s.
Proof.
  unfold matchAt, identRe, star.
  destruct s as [|c t]; [reflexivity|].
  change (rmatch (Seq (Chr isIdStart) (Star true word)) (MState pv (String c t) []) Some)
    with (if isIdStart c
          then starLoop (rmatch word) true Some (S (String.length t)) (MState (Some c) t [])
          else None).
  cbn [identAt]. destruct (isIdStart c) eqn:Hc; [|reflexivity].
  destruct (starLoop_word t (S (String.length t)) (Some c) []) as [pv' ->]; [lia|].
  cbn [fmap option_fmap option_map whole rest]. f_equal.
  unfold consumed, Js.substring0. pose proof (dropWord_length t) as Hlen.
  cbn [String.length].
  replace (S (String.length t) - String.length (dropWord t))%nat
    with (S (String.length t - String.length (dropWord t))) by lia.
  cbn [String.substring]. f_equal. apply consumed_takeWord.
Qed.

Lemma scan_identRe_words s : forall pv skip,
  whole <$> scan identRe pv s skip = wordsFrom s skip.
Proof.
  induction s as [|c t IH]; intros pv skip.
  - destruct skip; [|reflexivity]. cbn [scan wordsFrom].
    pose proof (matchAt_identRe_whole pv "") as H.
    destruct (matchAt identRe pv "") as [m|]; cbn in H; [discriminate|].
    reflexivity.
  - destruct skip; cbn [scan wordsFrom]; [|apply IH].
    pose proof (matchAt_identRe_whole pv (String c t)) as H.
    destruct (matchAt identRe pv (String c t)) as [m|]; cbn [fmap option_fmap option_map] in H;
      rewrite <- H.
    + cbn [fmap list_fmap]. by rewrite IH.
    + apply IH.
Qed.

Lemma identWords_wordsFrom text :
  identWords text = filter (fun w => 2 < Js.strlen w) (wordsFrom text O).
Proof. unfold identWords, matchAll. by rewrite scan_identRe_words. Qed.

Lemma takeWord_allWord t : allWord (takeWord t) = true.
Proof.
  unfold allWord. induction t as [|c t IH]; [reflexivity|]. cbn [takeWord].
  destruct (Js.isWord c) eqn:Hc; [|reflexivity]. cbn. by rewrite Hc.
Qed.

Lemma startsWith_takeWord t : Js.startsWith t (takeWord t) = true.
Proof.
  induction t as [|c t IH]; [reflexivity|]. cbn [takeWord].
  destruct (Js.isWord c); [|reflexivity]. cbn [Js.startsWith].
  by rewrite Ascii.eqb_refl.
Qed.

Lemma includes_tail c t p : Js.includes t p = true -> Js.includes (String c t) p = true.
Proof. intros H. cbn [Js.includes]. rewrite H. apply orb_true_r. Qed.

Lemma includes_startsWith s p : Js.startsWith s p = true -> Js.includes s p = true.
Proof. intros H. destruct s; cbn [Js.includes]; by rewrite H. Qed.

Lemma wordsFrom_shape s : forall skip w,
  w ∈ wordsFrom s skip ->
  (exists c t, w = String c t /\ isIdStart c = true /\ allWord t = true)
  /\ Js.includes s w = true.
Proof.
  induction s as [|c t IH]; intros skip w Hw.
  - destruct skip; cbn in Hw; by apply elem_of_nil in Hw.
  - destruct skip; cbn [wordsFrom] in Hw.
    + cbn [identAt] in Hw. destruct (isIdStart c) eqn:Hc.
      * apply elem_of_cons in Hw as [->|Hw].
        { split; [exists c, (takeWord t); by rewrite takeWord_allWord|].
          apply includes_startsWith. cbn [Js.startsWith].
          by rewrite Ascii.eqb_refl, startsWith_takeWord. }
        destruct (IH _ _ Hw) as [Hshape Hinc]. split; [exact Hshape|].
        by apply includes_tail.
      * destruct (IH _ _ Hw) as [Hshape Hinc]. split; [exact Hshape|].
        by apply includes_tail.
    + destruct (IH _ _ Hw) as [Hshape Hinc]. split; [exact Hshape|].
      by apply includes_tail.
Qed.

(** X11: what [extractIdentifiers] collects.  Every identifier of a text is
    longer than two characters, starts with a letter or an underscore,
    continues with letters, digits and underscores only, and occurs in the
    text. *)
Theorem extractIdentifiers_shape (text w : string) :
  w ∈ extractIdentifiers text ->
  2 < Js.strlen w
  /\ (exists c t, w = String c t /\ isIdStart c = true /\ allWord t = true)
  /\ Js.includes text w = true.
Proof.
  unfold extractIdentifiers. rewrite elem_of_list_to_set, identWords_wordsFrom.
  intros [Hlen Hw]%list_elem_of_filter. split; [exact Hlen|].
  exact (wordsFrom_shape _ _ _ Hw).
Qed.

Lemma extractIdentifiers_shape_witness :
  "compute" ∈ extractIdentifiers "const x = compute(a, b);"
  /\ Js.includes "const x = compute(a, b);" "compute" = true.
Proof.
  assert (H : "compute" ∈ extractIdentifiers "const x = compute(a, b);").
  { unfold extractIdentifiers. apply elem_of_list_to_set.
    replace (identWords "const x = compute(a, b);") with ["const"; "compute"] by evaluate.
    apply elem_of_cons. right. apply elem_of_cons. by left. }
  split; [exact H|]. exact (proj2 (proj2 (extractIdentifiers_shape _ _ H))).
Defined.

Lemma isSpace_not_word c : Js.isSpace c = true -> Js.isWord c = false.
Proof. destruct c as [[] [] [] [] [] [] [] []]; vm_compute; congruence. Qed.

Lemma isSpace_not_idStart c : Js.isSpace c = true -> isIdStart c = false.
Proof.
  intros H. apply isSpace_not_word in H.
  destruct (isIdStart c) eqn:Hc; [|reflexivity].
  apply isIdStart_isWord in Hc. congruence.
Qed.

Lemma wordsFrom_empty skip : wordsFrom "" skip = [].
Proof. by destruct skip. Qed.

Lemma wordsFrom_trimStart s : wordsFrom (Js.trimStart s) O = wordsFrom s O.
Proof.
  induction s as [|c t IH]; [reflexivity|]. cbn [Js.trimStart].
  destruct (Js.isSpace c) eqn:Hc; [|reflexivity].
  rewrite IH. cbn [wordsFrom identAt]. by rewrite (isSpace_not_idStart c Hc).
Qed.

Lemma takeWord_trimEnd t : takeWord (Js.trimEnd t) = takeWord t.
Proof.
  induction t as [|c t IH]; [reflexivity|]. cbn [Js.trimEnd].
  destruct (Js.trimEnd t) as [|b t'] eqn:Et.
  - cbn [takeWord] in *. rewrite <- IH.
    destruct (Js.isSpace c) eqn:Hc; [|reflexivity].
    by rewrite (isSpace_not_word c Hc).
  - cbn [takeWord] in *. by rewrite <- IH.
Qed.

Lemma wordsFrom_trimEnd s : forall skip,
  wordsFrom (Js.trimEnd s) skip = wordsFrom s skip.
Proof.
  induction s as [|c t IH]; intros skip; [reflexivity|].
  pose proof (takeWord_trimEnd t) as Htake.
  cbn [Js.trimEnd]. destruct (Js.trimEnd t) as [|b t'] eqn:Et.
  - assert (Hnil : forall k, wordsFrom t k = []).
    { intros k. rewrite <- IH. apply wordsFrom_empty. }
    cbn [takeWord] in Htake.
    destruct (Js.isSpace c) eqn:Hc.
    + rewrite wordsFrom_empty. destruct skip; cbn [wordsFrom]; [|by rewrite Hnil].
      cbn [identAt]. by rewrite (isSpace_not_idStart c Hc), Hnil.
    + destruct skip; cbn [wordsFrom]; [|rewrite Hnil; by destruct skip].
      cbn [identAt]. rewrite <- Htake. cbn [takeWord].
      destruct (isIdStart c); by rewrite ?Hnil.
  - remember (String b t') as u eqn:Eu.
    destruct skip; cbn [wordsFrom]; [|apply IH].
    cbn [identAt]. rewrite Htake.
    destruct (isIdStart c); by rewrite IH.
Qed.

(** The identifiers of a text are those of the trimmed text. *)
Lemma extractIdentifiers_trim text :
  extractIdentifiers (Js.trim text) = extractIdentifiers text.
Proof.
  unfold extractIdentifiers. rewrite !identWords_wordsFrom. unfold Js.trim.
  by rewrite wordsFrom_trimEnd, wordsFrom_trimStart.
Qed.

(** X12: white space around the suggested code does not change the verdict.
    [validateSuggestion] reads the identifiers of the suggestion off the
    untrimmed [code] and its structure off the trimmed one; the identifiers
    of a text and of the trimmed text are the same set, so two suggestions
    that differ only in the white space at the two ends of the code (and in
    their path, priority or file) have the same outcome. *)
Theorem validateSuggestion_code_whitespace (s s' : suggestion) (lineMap : gmap Z lineInfo) :
  startLine s' = startLine s -> endLine s' = endLine s -> issue s' = issue s ->
  Js.trim (code s') = Js.trim (code s) ->
  extractIdentifiers (code s') = extractIdentifiers (code s)
  /\ validateSuggestion s' lineMap = validateSuggestion s lineMap.
Proof.
  intros Hstart Hend Hissue Hcode.
  assert (Hids : extractIdentifiers (code s') = extractIdentifiers (code s)).
  { by rewrite <- (extractIdentifiers_trim (code s')), Hcode, extractIdentifiers_trim. }
  split; [exact Hids|].
  unfold validateSuggestion, lineRange, validateLines, continuityCheck,
    guardClauseRemoved, existenceCheckRemoved, controlFlowRewritten,
    shortSnippetAccepted, overlapInsufficient, commonIds, overlapRatio, suggestedCodeOf.
  by rewrite Hstart, Hend, Hissue, Hcode, Hids.
Qed.

Lemma validateSuggestion_code_whitespace_witness :
  validateSuggestion (candidate overlapPatch 10 10 "Log a greeting" "  print('hello world');
") (buildLineMap overlapPatch)
  = validateSuggestion overlapCandidate (buildLineMap overlapPatch).
Proof.
  apply validateSuggestion_code_whitespace; reflexivity.
Defined.

Lemma Qdiv_Z_range (c m : Z) :
  0 <= c <= m -> 0 < m ->
  (0 <= inject_Z c / inject_Z m)%Q /\ (inject_Z c / inject_Z m <= 1)%Q.
Proof.
  intros Hc Hm.
  assert (Hm' : (0 < inject_Z m)%Q) by (unfold Qlt, inject_Z; cbn; lia).
  split.
  - apply Qle_shift_div_l; [exact Hm'|]. rewrite Qmult_0_l. unfold Qle, inject_Z; cbn; lia.
  - apply Qle_shift_div_r; [exact Hm'|]. rewrite Qmult_1_l. unfold Qle, inject_Z; cbn; lia.
Qed.

Lemma Qdiv_Z_eq (c m k : Z) :
  0 < m -> (inject_Z c / inject_Z m == inject_Z k)%Q <-> c = k * m.
Proof.
  intros Hm.
  assert (Hm' : ~ (inject_Z m == 0)%Q).
  { intros H. apply (inject_Z_injective m 0) in H. lia. }
  split.
  - intros H. apply inject_Z_injective. rewrite inject_Z_mult, <- H.
    by rewrite Qmult_comm, Qmult_div_r.
  - intros ->. rewrite inject_Z_mult. by apply Qdiv_mult_l.
Qed.

(** X13: the overlap ratio.  For any two identifier sets the ratio lies
    between 0 and 1 and does not depend on which of the two sets is the
    actual one; it is 1 exactly when the two sets are equal and not empty,
    and 0 exactly when they share no identifier. *)
Theorem overlapRatioOf_range (A S : gset string) :
  (0 <= overlapRatioOf A S)%Q /\ (overlapRatioOf A S <= 1)%Q
  /\ overlapRatioOf A S = overlapRatioOf S A
  /\ ((overlapRatioOf A S == 1)%Q <-> A = S /\ A <> ∅)
  /\ ((overlapRatioOf A S == 0)%Q <-> A ∩ S = ∅).
Proof.
  assert (HA : (size (A ∩ S) <= size A)%nat) by (apply subseteq_size, intersection_subseteq_l).
  assert (HS : (size (A ∩ S) <= size S)%nat) by (apply subseteq_size, intersection_subseteq_r).
  assert (Hsym : overlapRatioOf A S = overlapRatioOf S A).
  { unfold overlapRatioOf. rewrite !commonIdsOf_length.
    rewrite (comm_L (∩) S A), (Z.max_comm (Z.of_nat (size S))).
    by rewrite (andb_comm (0 <? Z.of_nat (size S))). }
  unfold overlapRatioOf in *. rewrite !commonIdsOf_length in *.
  destruct (Z.ltb_spec 0 (Z.of_nat (size A))) as [Ha|Ha];
    destruct (Z.ltb_spec 0 (Z.of_nat (size S))) as [Hs|Hs]; cbn [andb].
  - set (c := Z.of_nat (size (A ∩ S))).
    set (m := Z.max (Z.of_nat (size A)) (Z.of_nat (size S))).
    assert (Hm : 0 < m) by lia. assert (Hc : 0 <= c <= m) by lia.
    destruct (Qdiv_Z_range c m Hc Hm) as [H0 H1].
    split; [exact H0|]. split; [exact H1|]. split; [exact Hsym|]. split.
    + rewrite (Qdiv_Z_eq c m 1 Hm). split.
      * intros Heq.
        assert (E1 : A ∩ S = A) by (apply set_subseteq_size_eq; [apply intersection_subseteq_l|lia]).
        assert (E2 : A ∩ S = S) by (apply set_subseteq_size_eq; [apply intersection_subseteq_r|lia]).
        split; [congruence|]. intros ->. rewrite size_empty in Ha. lia.
      * intros [<- _]. subst c m. rewrite (idemp_L (∩) A). lia.
    + rewrite (Qdiv_Z_eq c m 0 Hm). split.
      * intros Heq. apply leibniz_equiv, size_empty_iff. lia.
      * intros Heq. subst c. rewrite Heq, size_empty. lia.
  - assert (EA : S = ∅) by (apply leibniz_equiv, size_empty_iff; lia).
    split; [done|]. split; [done|]. split; [exact Hsym|]. split.
    + split; [intros H; unfold Qeq in H; cbn in H; lia|].
      intros [-> Hne]. done.
    + split; [|done]. intros _. subst S. apply (right_absorb_L ∅ (∩)).
  - assert (EA : A = ∅) by (apply leibniz_equiv, size_empty_iff; lia).
    split; [done|]. split; [done|]. split; [exact Hsym|]. split.
    + split; [intros H; unfold Qeq in H; cbn in H; lia|].
      intros [_ Hne]. done.
    + split; [|done]. intros _. subst A. apply (left_absorb_L ∅ (∩)).
  - assert (EA : A = ∅) by (apply leibniz_equiv, size_empty_iff; lia).
    split; [done|]. split; [done|]. split; [exact Hsym|]. split.
    + split; [intros H; unfold Qeq in H; cbn in H; lia|].
      intros [_ Hne]. done.
    + split; [|done]. intros _. subst A. apply (left_absorb_L ∅ (∩)).
Qed.

Lemma parsedBlocks_empty files : parsedBlocks "" files = [].
Proof. reflexivity. Qed.

Lemma parseSuggestions_dedup markdown files :
  parseSuggestions markdown files = dedup (parsedBlocks markdown files).
Proof.
  unfold parseSuggestions. destruct (String.eqb_spec markdown "") as [->|]; reflexivity.
Qed.

(** The first suggestion with a key is the one that is kept. *)
Lemma dedupFrom_first l : forall seen (i : nat) c,
  l !! i = Some c -> dedupKey c ∉ seen ->
  (forall (j : nat) c', (j < i)%nat -> l !! j = Some c' -> dedupKey c' <> dedupKey c) ->
  c ∈ dedupFrom seen l.
Proof.
  induction l as [|s l IH]; intros seen i c Hi Hseen Hfirst; [done|].
  cbn [dedupFrom]. destruct i as [|i].
  - injection Hi as ->. rewrite decide_False by exact Hseen. apply elem_of_cons. by left.
  - cbn [lookup list_lookup] in Hi.
    assert (Hne : dedupKey s <> dedupKey c) by (apply (Hfirst O); [lia|done]).
    assert (Hrec : forall seen', dedupKey c ∉ seen' -> c ∈ dedupFrom seen' l).
    { intros seen' Hs. apply (IH seen' i); [done|done|].
      intros j c' Hj Hc'. apply (Hfirst (S j)); [lia|done]. }
    destruct (decide _); [by apply Hrec|]. apply elem_of_cons. right. apply Hrec.
    intros [Hk|Hk]%elem_of_union; [|done]. apply elem_of_singleton in Hk. congruence.
Qed.

(** A list whose keys are pairwise different and unseen is left as it is. *)
Lemma dedupFrom_id l : forall seen,
  NoDup (dedupKey <$> l) -> (forall c, c ∈ l -> dedupKey c ∉ seen) ->
  dedupFrom seen l = l.
Proof.
  induction l as [|s l IH]; intros seen Hnd Hseen; [reflexivity|].
  cbn [dedupFrom]. cbn [fmap list_fmap] in Hnd. apply NoDup_cons in Hnd as [Hs Hnd].
  rewrite decide_False by (apply Hseen, elem_of_cons; by left).
  f_equal. apply IH; [exact Hnd|].
  intros c Hc [Hk|Hk]%elem_of_union.
  - apply elem_of_singleton in Hk. apply Hs. rewrite <- Hk.
    apply list_elem_of_fmap. by exists c.
  - apply (Hseen c); [apply elem_of_cons; by right|done].
Qed.

(** X14: the deduplication of [parseSuggestions].  The suggestions returned
    are a subsequence of those the loop over the matches pushed; no two of
    them have the same key string; every pushed suggestion has its key
    string among them, and the first pushed suggestion with a key string is
    the one that is kept; deduplicating the result again changes nothing. *)
Theorem parseSuggestions_deduplicated (markdown : string) (files : list prFile) :
  sublist (parseSuggestions markdown files) (parsedBlocks markdown files)
  /\ NoDup (dedupKey <$> parseSuggestions markdown files)
  /\ (forall c, c ∈ parsedBlocks markdown files ->
        exists c', c' ∈ parseSuggestions markdown files /\ dedupKey c' = dedupKey c)
  /\ (forall (i : nat) c, parsedBlocks markdown files !! i = Some c ->
        (forall (j : nat) c', (j < i)%nat -> parsedBlocks markdown files !! j = Some c' ->
           dedupKey c' <> dedupKey c) ->
        c ∈ parseSuggestions markdown files)
  /\ dedup (parseSuggestions markdown files) = parseSuggestions markdown files.
Proof.
  rewrite parseSuggestions_dedup, !dedup_dedupFrom.
  set (l := parsedBlocks markdown files).
  destruct (dedupFrom_keys l ∅) as [Hnd Hseen].
  split; [apply dedupFrom_sublist|]. split; [exact Hnd|]. split; [|split].
  - intros c Hc. destruct (dedupFrom_retained l ∅ c Hc) as [H|H]; [|exact H].
    by apply elem_of_empty in H.
  - intros i c Hi Hfirst. apply (dedupFrom_first l ∅ i); [done| |done].
    apply not_elem_of_empty.
  - apply dedupFrom_id; [exact Hnd|]. intros c _. apply not_elem_of_empty.
Qed.

Lemma trimEnd_idemp s : Js.trimEnd (Js.trimEnd s) = Js.trimEnd s.
Proof.
  induction s as [|c t IH]; [reflexivity|]. cbn [Js.trimEnd].
  destruct (Js.trimEnd t) as [|b t'] eqn:Et.
  - destruct (Js.isSpace c) eqn:Hc; [reflexivity|]. cbn [Js.trimEnd]. by rewrite Hc.
  - remember (String b t') as u eqn:Eu. cbn [Js.trimEnd]. rewrite IH.
    subst u. reflexivity.
Qed.

Lemma trimStart_trimEnd s :
  Js.trimStart (Js.trimEnd (Js.trimStart s)) = Js.trimEnd (Js.trimStart s).
Proof.
  induction s as [|c t IH]; [reflexivity|]. cbn [Js.trimStart].
  destruct (Js.isSpace c) eqn:Hc; [exact IH|].
  cbn [Js.trimEnd]. destruct (Js.trimEnd t); rewrite ?Hc; cbn [Js.trimStart]; by rewrite Hc.
Qed.

Lemma trim_idemp s : Js.trim (Js.trim s) = Js.trim s.
Proof. unfold Js.trim. by rewrite trimStart_trimEnd, trimEnd_idemp. Qed.

Lemma normalizePriority_values prioRaw :
  normalizePriority prioRaw ∈ ["URGENT"; "HIGH"; "MEDIUM"; "LOW"].
Proof.
  unfold normalizePriority.
  destruct (existsb _ _) eqn:He.
  - apply existsb_exists in He as (x & Hx & He). apply String.eqb_eq in He as ->.
    by apply list_elem_of_In.
  - apply elem_of_cons. right. apply elem_of_cons. right. apply elem_of_cons. by left.
Qed.

Lemma parseInt_nonneg s : 0 <= Js.parseInt s.
Proof. apply parseDigits_nonneg. lia. Qed.

Lemma parseSuggestions_file markdown files c :
  c ∈ parseSuggestions markdown files -> file c ∈ files /\ path c = filename (file c).
Proof.
  intros Hc. apply parseSuggestions_block in Hc as (m & _ & Hm).
  unfold parseBlock in Hm.
  destruct (resolveFile files _) as [f|] eqn:Hf; [|discriminate].
  destruct (noPatch f); [discriminate|].
  destruct (exec lineNumbersRe _) as [lineMatch|]; [|discriminate].
  injection Hm as <-. cbn [file path]. split; [|reflexivity].
  apply find_some in Hf as [Hin _]. by apply list_elem_of_In.
Qed.

(** X15: the fields of a parsed suggestion.  Every suggestion
    [parseSuggestions] returns has one of the four priority names as its
    priority, line numbers that are not negative, an issue and a code that
    are trimmed, and a file that is one of the changed files given, whose
    name is the path; so without changed files nothing is returned. *)
Theorem parseSuggestions_fields (markdown : string) (files : list prFile) :
  (forall c, c ∈ parseSuggestions markdown files ->
     priority c ∈ ["URGENT"; "HIGH"; "MEDIUM"; "LOW"]
     /\ 0 <= startLine c /\ 0 <= endLine c
     /\ Js.trim (issue c) = issue c /\ Js.trim (code c) = code c
     /\ file c ∈ files /\ path c = filename (file c))
  /\ parseSuggestions markdown [] = [].
Proof.
  assert (Hfields : forall fs c, c ∈ parseSuggestions markdown fs ->
     priority c ∈ ["URGENT"; "HIGH"; "MEDIUM"; "LOW"]
     /\ 0 <= startLine c /\ 0 <= endLine c
     /\ Js.trim (issue c) = issue c /\ Js.trim (code c) = code c
     /\ file c ∈ fs /\ path c = filename (file c)).
  { intros fs c Hc. pose proof (parseSuggestions_file markdown fs c Hc) as Hfile.
    apply parseSuggestions_block in Hc as (m & _ & Hm).
    unfold parseBlock in Hm.
    destruct (resolveFile fs _) as [f|] eqn:Hf; [|discriminate].
    destruct (noPatch f); [discriminate|].
    destruct (exec lineNumbersRe _) as [lineMatch|]; [|discriminate].
    injection Hm as <-. cbn [priority startLine endLine issue code file path] in *.
    split; [apply normalizePriority_values|].
    split; [apply parseInt_nonneg|].
    split; [destruct (capture 2 _) as [d|]; [destruct (String.eqb d "")|];
            apply parseInt_nonneg|].
    split; [apply trim_idemp|]. split; [apply trim_idemp|]. exact Hfile. }
  split; [apply Hfields|].
  destruct (parseSuggestions markdown []) as [|c l] eqn:E; [reflexivity|].
  destruct (Hfields [] c) as (_ & _ & _ & _ & _ & Hin & _).
  - rewrite E. apply elem_of_cons. by left.
  - by apply elem_of_nil in Hin.
Qed.


Lemma getPrFiles_elem listing f :
  f ∈ getPrFiles listing ->
  exists p, patch f = Some p /\ p <> ""
    /\ exists st, ListedFile f st ∈ listing /\ st <> "removed".
Proof.
  unfold getPrFiles. intros Hf. apply list_elem_of_In, in_map_iff in Hf as ([g st] & <- & Hin).
  apply filter_In in Hin as [Hin Hcond]. cbn [listed status] in *.
  apply andb_true_iff in Hcond as [Hp Hst].
  unfold noPatch in Hp. destruct (patch g) as [p|] eqn:Ep; [|done].
  exists p. split; [reflexivity|]. split.
  - intros ->. done.
  - exists st. split; [by apply list_elem_of_In|]. intros ->. done.
Qed.

Lemma buildLineMapsFrom_returns files : forall m0,
  (forall f, f ∈ files -> is_Some (patch f)) ->
  exists lineMaps, buildLineMapsFrom files m0 = Returns lineMaps.
Proof.
  induction files as [|f files IH]; intros m0 Hp; [by exists m0|].
  destruct (Hp f) as [p Ep]; [apply elem_of_cons; by left|].
  cbn [buildLineMapsFrom]. unfold patchText. rewrite Ep. cbn [mbind outcome_bind].
  apply IH. intros g Hg. apply Hp, elem_of_cons. by right.
Qed.

Lemma buildLineMapsFrom_values files : forall m0 lineMaps,
  buildLineMapsFrom files m0 = Returns lineMaps ->
  forall name lineMap, lineMaps !! name = Some lineMap ->
    m0 !! name = Some lineMap
    \/ exists f p, f ∈ files /\ filename f = name /\ patch f = Some p
         /\ lineMap = buildLineMap p.
Proof.
  induction files as [|f files IH]; intros m0 lineMaps Hb name lineMap Hl.
  - injection Hb as <-. by left.
  - cbn [buildLineMapsFrom] in Hb. unfold patchText in Hb.
    destruct (patch f) as [p|] eqn:Ep; [|discriminate].
    cbn [mbind outcome_bind] in Hb.
    destruct (IH _ _ Hb name lineMap Hl) as [H0|(g & q & Hg & Hn & Hq & ->)].
    + destruct (decide (filename f = name)) as [<-|Hne].
      * rewrite lookup_insert_eq in H0. injection H0 as <-. right.
        exists f, p. split; [apply elem_of_cons; by left|done].
      * rewrite lookup_insert_ne in H0 by done. by left.
    + right. exists g, q. split; [apply elem_of_cons; by right|done].
Qed.

Lemma buildLineMapsFrom_dom files : forall m0 lineMaps f,
  buildLineMapsFrom files m0 = Returns lineMaps ->
  (f ∈ files \/ is_Some (m0 !! filename f)) -> is_Some (lineMaps !! filename f).
Proof.
  induction files as [|g files IH]; intros m0 lineMaps f Hb Hf.
  - injection Hb as <-. destruct Hf as [Hf|Hf]; [by apply elem_of_nil in Hf|done].
  - cbn [buildLineMapsFrom] in Hb. destruct (patchText g) as [p|e]; [|discriminate].
    cbn [mbind outcome_bind] in Hb. apply (IH _ _ f Hb).
    destruct Hf as [[->|Hf]%elem_of_cons|Hf].
    + right. rewrite lookup_insert_eq. eauto.
    + by left.
    + right. destruct (decide (filename g = filename f)) as [->|Hne].
      * rewrite lookup_insert_eq. eauto.
      * by rewrite lookup_insert_ne.
Qed.

(** X16: the line maps of the changed files.  For the files [getPrFiles]
    keeps, building the line maps does not raise, every line map is the
    index of the patch of a changed file of that name, and every suggestion
    [parseSuggestions] returns finds a line map under its path: the
    validation loop never skips a suggestion for want of a line map. *)
Theorem lineMaps_cover_suggestions (listing : list listedFile) (text : string) :
  exists lineMaps,
    buildLineMaps (getPrFiles listing) = Returns lineMaps
    /\ (forall name lineMap, lineMaps !! name = Some lineMap ->
          exists f p, f ∈ getPrFiles listing /\ filename f = name
            /\ patch f = Some p /\ p <> "" /\ lineMap = buildLineMap p)
    /\ (forall s, s ∈ parseSuggestions text (getPrFiles listing) ->
          is_Some (lineMaps !! path s)).
Proof.
  destruct (buildLineMapsFrom_returns (getPrFiles listing) ∅) as (lineMaps & Hb).
  { intros f Hf. apply getPrFiles_elem in Hf as (p & -> & _). eauto. }
  exists lineMaps. split; [exact Hb|]. split.
  - intros name lineMap Hl.
    destruct (buildLineMapsFrom_values _ _ _ Hb name lineMap Hl)
      as [H0|(f & p & Hf & Hn & Hp & ->)].
    { by rewrite lookup_empty in H0. }
    exists f, p. split; [exact Hf|]. split; [exact Hn|]. split; [exact Hp|].
    split; [|reflexivity].
    apply getPrFiles_elem in Hf as (q & Hq & Hne & _). congruence.
  - intros s Hs.
    destruct (parseSuggestions_file text (getPrFiles listing) s Hs) as [Hin ->].
    apply (buildLineMapsFrom_dom _ ∅ lineMaps (file s) Hb). by left.
Qed.

Lemma validated_spec lineMaps suggestions : forall accepted,
  validated lineMaps suggestions = Returns accepted ->
  sublist accepted suggestions
  /\ forall s, s ∈ accepted <->
       s ∈ suggestions
       /\ exists lineMap actualCode, lineMaps !! path s = Some lineMap
            /\ validateSuggestion s lineMap = Returns (Valid actualCode).
Proof.
  induction suggestions as [|s0 l IH]; intros accepted Hv.
  - injection Hv as <-. split; [constructor|]. intros s. split.
    + by intros H%elem_of_nil.
    + by intros [H%elem_of_nil _].
  - cbn [validated] in Hv.
    destruct (lineMaps !! path s0) as [lineMap|] eqn:Hlm.
    + destruct (validateSuggestion s0 lineMap) as [v|e] eqn:Hval; [|discriminate].
      cbn [mbind outcome_bind] in Hv.
      destruct (validated lineMaps l) as [others|e]; [|discriminate].
      cbn [mbind outcome_bind] in Hv. injection Hv as <-.
      destruct (IH others eq_refl) as [Hsub Hmem].
      destruct v as [a|reason]; cbn [valid].
      * split; [by apply sublist_skip|]. intros s. rewrite !elem_of_cons, Hmem. split.
        -- intros [->|[Hs Hex]]; [|by auto]. split; [by left|]. by exists lineMap, a.
        -- intros [[->|Hs] Hex]; [by left|right; by split].
      * split; [by apply sublist_cons|]. intros s. rewrite elem_of_cons, Hmem. split.
        -- intros [Hs Hex]. by auto.
        -- intros [[->|Hs] Hex]; [|by split].
           destruct Hex as (lm & a & Hl & Hva). congruence.
    + destruct (IH accepted Hv) as [Hsub Hmem].
      split; [by apply sublist_cons|]. intros s. rewrite elem_of_cons, Hmem. split.
      * intros [Hs Hex]. by auto.
      * intros [[->|Hs] Hex]; [|by split].
        destruct Hex as (lm & a & Hl & Hva). congruence.
Qed.

(** X17: the inline comments of the review.  When the pipeline of [main]
    returns its comments, each comment is the one built for a parsed
    suggestion that [validateSuggestion] accepted against the line map of
    its path, on the new side; every line of the suggestion is at least 1
    and is a key of that line map; for a range written in order the comment
    sits on the end line, with a start line exactly when the range has more
    than one line.  Conversely every accepted suggestion has its comment,
    and the review requests changes exactly when there is a comment. *)
Theorem inlineComments_anchored (mk : marks) (files : list prFile) (text : string)
  (comments : list comment) :
  inlineComments mk files text = Returns comments ->
  exists lineMaps,
    buildLineMaps files = Returns lineMaps
    /\ (forall c, c ∈ comments ->
          exists s lineMap actualCode,
            s ∈ parseSuggestions text files /\ c = commentOf mk s
            /\ lineMaps !! path s = Some lineMap
            /\ validateSuggestion s lineMap = Returns (Valid actualCode)
            /\ side c = "RIGHT"
            /\ (forall i, startLine s <= i <= endLine s ->
                  1 <= i /\ is_Some (lineMap !! i))
            /\ (startLine s <= endLine s ->
                  line c = endLine s
                  /\ start_line c
                     = if startLine s =? endLine s then None else Some (startLine s)))
    /\ (forall s lineMap actualCode,
          s ∈ parseSuggestions text files -> lineMaps !! path s = Some lineMap ->
          validateSuggestion s lineMap = Returns (Valid actualCode) ->
          commentOf mk s ∈ comments)
    /\ (reviewEvent comments = "REQUEST_CHANGES" <-> comments <> []).
Proof.
  unfold inlineComments. intros H.
  destruct (buildLineMaps files) as [lineMaps|e] eqn:Hb; [|discriminate].
  cbn [mbind outcome_bind] in H.
  destruct (validated lineMaps (parseSuggestions text files)) as [accepted|e] eqn:Hv;
    [|discriminate].
  cbn [mbind outcome_bind] in H. injection H as <-.
  destruct (validated_spec _ _ _ Hv) as [_ Hmem].
  exists lineMaps. split; [reflexivity|]. split; [|split].
  - intros c Hc. apply list_elem_of_In, in_map_iff in Hc as (s & <- & Hs).
    apply list_elem_of_In, Hmem in Hs as (Hs & lineMap & a & Hl & Hval).
    exists s, lineMap, a. do 5 (split; [done|]).
    pose proof (validateSuggestion_valid_lines s lineMap a Hval) as Hall.
    assert (Hkeys : forall i, startLine s <= i <= endLine s ->
              1 <= i /\ is_Some (lineMap !! i)).
    { intros i Hi. destruct (Hall i Hi) as [info Hinfo]. split; [|eauto].
      assert (Hsrc : exists p, lineMap = buildLineMap p).
      { destruct (buildLineMapsFrom_values _ _ _ Hb _ _ Hl) as [H0|(f & p & _ & _ & _ & ->)];
          [by rewrite lookup_empty in H0|by exists p]. }
      destruct Hsrc as [p ->].
      destruct (buildLineMap_invariant p) as [_ Hm].
      by destruct (Hm i info Hinfo). }
    split; [exact Hkeys|]. intros Hle. cbn [line start_line commentOf].
    destruct (Hkeys (endLine s)) as [Hpos _]; [lia|].
    destruct (Z.eqb_spec (endLine s) 0) as [|_]; [lia|]. split; [reflexivity|].
    cbn [negb andb]. rewrite (Z.eqb_sym (endLine s)).
    by destruct (startLine s =? endLine s).
  - intros s lineMap a Hs Hl Hval. apply list_elem_of_In, in_map, list_elem_of_In, Hmem.
    split; [exact Hs|]. by exists lineMap, a.
  - unfold reviewEvent. destruct (map (commentOf mk) accepted); cbn; split; done.
Qed.

Lemma inlineComments_anchored_witness :
  inlineComments plainMarks (getPrFiles listing) twoLineText
  = Returns [Comment "a.js" "(+) **[HIGH]** Rename the call

```suggestion
omega(sigma, kappa);
delta();
```" 2 "RIGHT" (Some 1) (Some "RIGHT")]
  /\ exists lineMaps, buildLineMaps (getPrFiles listing) = Returns lineMaps.
Proof.
  assert (H : inlineComments plainMarks (getPrFiles listing) twoLineText
  = Returns [Comment "a.js" "(+) **[HIGH]** Rename the call

```suggestion
omega(sigma, kappa);
delta();
```" 2 "RIGHT" (Some 1) (Some "RIGHT")]) by evaluate.
  split; [exact H|].
  destruct (inlineComments_anchored _ _ _ _ H) as (lineMaps & Hb & _).
  by exists lineMaps.
Defined.

Lemma legacy_dedup_fold_elem l : forall seen unique x,
  x ∈ snd (fold_left Legacy.dedupStep l (seen, unique)) -> x ∈ unique \/ x ∈ l.
Proof.
  induction l as [|s l IH]; intros seen unique x; cbn [fold_left snd]; [by left|].
  unfold Legacy.dedupStep at 2. destruct (decide _).
  - intros H. apply IH in H as [H|H]; [by left|right]. apply elem_of_cons. by right.
  - intros H. apply IH in H as [H|H]; [|right; apply elem_of_cons; by right].
    apply elem_of_app in H as [H|H]; [by left|right].
    apply list_elem_of_singleton in H as ->. apply elem_of_cons. by left.
Qed.

Lemma legacy_parseSuggestions_block markdown files c :
  c ∈ Legacy.parseSuggestions markdown files ->
  exists m, m ∈ matchAll Legacy.suggestionRe markdown /\ Legacy.parseBlock files m = Some c.
Proof.
  unfold Legacy.parseSuggestions. destruct (String.eqb markdown ""); [by intros H%elem_of_nil|].
  unfold Legacy.dedup. intros H. apply legacy_dedup_fold_elem in H as [H|H];
    [by apply elem_of_nil in H|].
  unfold Legacy.parsedBlocks in H. by apply list_elem_of_omap in H.
Qed.

Lemma legacy_filterSeen_elem l : forall seen x, x ∈ Legacy.filterSeen seen l -> x ∈ l.
Proof.
  induction l as [|s l IH]; intros seen x; cbn [Legacy.filterSeen]; [done|].
  destruct (decide _).
  - intros H%IH. apply elem_of_cons. by right.
  - intros [->|H%IH]%elem_of_cons; apply elem_of_cons; [by left|by right].
Qed.

(** X18: the positions of the earlier revision.  Every suggestion its
    [parseSuggestions] returns carries the position that
    [findPositionInPatch] gives for the start line in the patch of a changed
    file named by the path; the position is the 1-based index of an addition
    or context line of that patch.  So the filter on positions in [main]
    drops nothing, and every comment posted sits on such a line. *)
Theorem legacy_positions_resolved (mk : marks) (markdown : string) (files : list prFile) :
  (forall c, c ∈ Legacy.parseSuggestions markdown files ->
     exists f p line,
       f ∈ files /\ filename f = Legacy.path c /\ patch f = Some p
       /\ findPositionInPatch p (Legacy.startLine c) = Some (Legacy.position c)
       /\ 1 <= Legacy.position c <= Z.of_nat (length (Js.splitLines p))
       /\ Js.splitLines p !! Z.to_nat (Legacy.position c - 1) = Some line
       /\ Js.startsWith line "+" || Js.startsWith line " " = true)
  /\ Legacy.positioned (Legacy.parseSuggestions markdown files)
     = Legacy.parseSuggestions markdown files
  /\ (forall k, k ∈ Legacy.inlineComments mk files markdown ->
        exists c, c ∈ Legacy.parseSuggestions markdown files
          /\ k = Legacy.commentOf mk c
          /\ 1 <= Legacy.commentPosition k).
Proof.
  assert (Hpos : forall c, c ∈ Legacy.parseSuggestions markdown files ->
     exists f p line,
       f ∈ files /\ filename f = Legacy.path c /\ patch f = Some p
       /\ findPositionInPatch p (Legacy.startLine c) = Some (Legacy.position c)
       /\ 1 <= Legacy.position c <= Z.of_nat (length (Js.splitLines p))
       /\ Js.splitLines p !! Z.to_nat (Legacy.position c - 1) = Some line
       /\ Js.startsWith line "+" || Js.startsWith line " " = true).
  { intros c Hc. apply legacy_parseSuggestions_block in Hc as (m & _ & Hm).
    unfold Legacy.parseBlock in Hm.
    destruct (resolveFile files _) as [f|] eqn:Hf; [|discriminate].
    destruct (patch f) as [p|] eqn:Ep; [|discriminate].
    destruct (String.eqb p ""); [discriminate|].
    destruct (exec lineNumbersRe _) as [lineMatch|]; [|discriminate].
    destruct (findPositionInPatch p _) as [pos|] eqn:Hfind; [|discriminate].
    destruct ((pos =? 0) || (pos <? 1)); [discriminate|].
    injection Hm as <-. cbn [Legacy.path Legacy.position Legacy.startLine].
    pose proof Hfind as Hk. unfold findPositionInPatch in Hk.
    apply findPositionFrom_bounds in Hk as (k & line & -> & Hk & Hps & _).
    pose proof (lookup_lt_Some _ _ _ Hk) as Hlt.
    exists f, p, line. split; [|split; [done|split; [done|split; [done|]]]].
    2:{ split; [lia|]. split; [|done].
        by replace (Z.to_nat (0 + Z.of_nat k + 1 - 1)) with k by lia. }
    apply find_some in Hf as [Hin _]. by apply list_elem_of_In. }
  split; [exact Hpos|]. split.
  - unfold Legacy.positioned.
    assert (Hall : forall l, (forall c, c ∈ l -> 1 <= Legacy.position c) ->
              List.filter (fun s => negb (Legacy.position s =? 0) && (0 <? Legacy.position s)) l = l).
    { induction l as [|c l IH]; intros Hl; [reflexivity|]. cbn [List.filter].
      assert (Hc : 1 <= Legacy.position c) by (apply Hl, elem_of_cons; by left).
      destruct (Z.eqb_spec (Legacy.position c) 0) as [|_]; [lia|].
      destruct (Z.ltb_spec 0 (Legacy.position c)) as [_|]; [|lia].
      cbn [negb andb]. f_equal. apply IH. intros x Hx. apply Hl, elem_of_cons. by right. }
    apply Hall. intros c Hc. destruct (Hpos c Hc) as (f & p & line & _ & _ & _ & _ & Hb & _). lia.
  - intros k Hk. unfold Legacy.inlineComments in Hk.
    apply list_elem_of_In, in_map_iff in Hk as (c & <- & Hc).
    unfold Legacy.positioned in Hc. apply filter_In in Hc as [Hc _].
    apply list_elem_of_In, legacy_filterSeen_elem in Hc.
    exists c. split; [exact Hc|]. split; [reflexivity|].
    destruct (Hpos c Hc) as (f & p & line & _ & _ & _ & _ & Hb & _).
    cbn [Legacy.commentPosition Legacy.commentOf]. lia.
Qed.

Lemma legacy_positions_resolved_witness :
  Legacy.parseSuggestions twoLineText [changedFile twoLinePatch]
  = [Legacy.Suggestion "a.js" 2 "Rename the call" "omega(sigma, kappa);
delta();" 1 "HIGH"]
  /\ Legacy.positioned (Legacy.parseSuggestions twoLineText [changedFile twoLinePatch])
     = Legacy.parseSuggestions twoLineText [changedFile twoLinePatch].
Proof.
  split; [evaluate|].
  exact (proj1 (proj2 (legacy_positions_resolved plainMarks twoLineText
                         [changedFile twoLinePatch]))).
Defined.

Lemma append_cons c (a b : string) : String c a +:+ b = String c (a +:+ b).
Proof. reflexivity. Qed.

Lemma append_nil (b : string) : "" +:+ b = b.
Proof. reflexivity. Qed.

Ltac norm_app := repeat (rewrite append_cons || rewrite append_nil).

Lemma rmatch_digit_cons pv c t g k :
  rmatch digit (MState pv (String c t) g) k
  = if Js.isDigit c then k (MState (Some c) t g) else None.
Proof. reflexivity. Qed.

Lemma string_app_length (a b : string) :
  String.length (a +:+ b) = (String.length a + String.length b)%nat.
Proof.
  induction a as [|c a IH]; norm_app; cbn [String.length Nat.add]; [reflexivity|].
  by rewrite IH.
Qed.

(** A greedy run of digits passes all the digits ahead when the more of
    the pattern matches after them. *)
Lemma starLoop_digits ds : forall fuel pv more g k z,
  forallb Js.isDigit (list_ascii_of_string ds) = true ->
  noDigitAhead more = true ->
  (String.length (ds +:+ more) < fuel)%nat ->
  k (MState (lastOf pv ds) more g) = Some z ->
  starLoop (rmatch digit) true k fuel (MState pv (ds +:+ more) g) = Some z.
Proof.
  induction ds as [|c ds IH]; intros fuel pv more g k z Hds Hrest Hfuel Hk.
  - destruct fuel as [|fuel]; [lia|]. norm_app. cbn [starLoop lastOf] in *.
    destruct more as [|c r].
    + cbn. exact Hk.
    + rewrite rmatch_digit_cons. cbn [noDigitAhead] in Hrest.
      apply negb_true_iff in Hrest. by rewrite Hrest.
  - destruct fuel as [|fuel]; [lia|].
    cbn [list_ascii_of_string forallb] in Hds. apply andb_true_iff in Hds as [Hc Hds].
    rewrite append_cons in *. cbn [String.length] in Hfuel.
    cbn [starLoop]. rewrite rmatch_digit_cons, Hc. cbn [rest String.length].
    rewrite (proj2 (Nat.ltb_lt _ _)) by lia.
    rewrite (IH fuel (Some c) more g k z); [reflexivity|done|done|lia|done].
Qed.

Lemma rmatch_star_digits ds pv more g k z :
  forallb Js.isDigit (list_ascii_of_string ds) = true ->
  noDigitAhead more = true ->
  k (MState (lastOf pv ds) more g) = Some z ->
  rmatch (star digit) (MState pv (ds +:+ more) g) k = Some z.
Proof.
  intros Hds Hrest Hk. unfold star. cbn [rmatch rest].
  apply starLoop_digits; [done|done|lia|done].
Qed.

Lemma rmatch_plus_digits ds pv more g k z :
  isNumeral ds = true ->
  noDigitAhead more = true ->
  k (MState (lastOf pv ds) more g) = Some z ->
  rmatch (plus digit) (MState pv (ds +:+ more) g) k = Some z.
Proof.
  unfold isNumeral. intros [Hne Hds]%andb_true_iff Hrest Hk.
  destruct ds as [|c ds]; [done|].
  cbn [list_ascii_of_string forallb] in Hds. apply andb_true_iff in Hds as [Hc Hds].
  unfold plus. rewrite append_cons. cbn [rmatch]. rewrite rmatch_digit_cons, Hc.
  apply starLoop_digits; [done|done|cbn; lia|done].
Qed.

Lemma consumed_app (w more : string) : consumed (w +:+ more) more = w.
Proof.
  unfold consumed, Js.substring0. rewrite string_app_length.
  replace (String.length w + String.length more - String.length more)%nat
    with (String.length w) by lia.
  induction w as [|c w IH]; norm_app; cbn [String.length String.substring].
  - by destruct more.
  - by rewrite IH.
Qed.

(** The tail of a hunk header from the new start on, as both patterns end:
    [lit " +"; Group n (plus digit); count; lit " @@"]. *)
Lemma hunkRe_new_part pv newStart newCount heading g :
  isNumeral newStart = true ->
  isCount newCount = true ->
  rmatch (Seq (lit " +") (Seq (Group 1 (plus digit))
            (Seq (opt (Seq (chr ",") (plus digit))) (lit " @@"))))
    (MState pv (" +" +:+ (newStart +:+ (countText newCount +:+ (" @@" +:+ heading)))) g)
    Some
  = Some (MState (Some "@"%char) heading ((1%nat, newStart) :: g)).
Proof.
  intros Hc Hd. norm_app. cbn [rmatch lit chr Ascii.eqb Bool.eqb rest].
  apply rmatch_plus_digits; [exact Hc|by destruct newCount|].
  cbn [rest prev caps]. rewrite consumed_app.
  destruct newCount as [n|]; cbn [countText]; norm_app; unfold opt;
    cbn [rmatch lit chr Ascii.eqb Bool.eqb rest caps]; [|reflexivity].
  rewrite (rmatch_plus_digits n _ (" @@" +:+ heading) _ _
             (MState (Some "@"%char) heading ((1%nat, newStart) :: g)));
    [reflexivity|exact Hd|reflexivity|].
  norm_app. reflexivity.
Qed.

(** The pattern of [buildLineMap] on a hunk header. *)
Lemma hunkRe_header oldStart oldCount newStart newCount heading pv :
  isNumeral oldStart = true -> isNumeral newStart = true ->
  isCount oldCount = true -> isCount newCount = true ->
  rmatch hunkRe
    (MState pv (hunkHeaderText oldStart oldCount newStart newCount heading) []) Some
  = Some (MState (Some "@"%char) heading [(1%nat, newStart)]).
Proof.
  intros Ha Hc Hb Hd. unfold hunkRe, hunkHeaderText.
  cbn [cat]. norm_app. cbn [rmatch lit chr Ascii.eqb Bool.eqb].
  apply rmatch_plus_digits; [exact Ha|by destruct oldCount|].
  destruct oldCount as [n|]; cbn [countText]; norm_app; unfold opt at 1;
    cbn [rmatch chr Ascii.eqb Bool.eqb rest caps].
  - rewrite (rmatch_plus_digits n _ _ _ _
               (MState (Some "@"%char) heading [(1%nat, newStart)]));
      [reflexivity|exact Hb|reflexivity|].
    rewrite <- (hunkRe_new_part (lastOf (Some ","%char) n)
                  newStart newCount heading [] Hc Hd).
    norm_app. reflexivity.
  - rewrite <- (hunkRe_new_part (lastOf (Some "-"%char) oldStart)
                  newStart newCount heading [] Hc Hd).
    norm_app. reflexivity.
Qed.

Lemma isNumeral_digits n : isNumeral n = true ->
  forallb Js.isDigit (list_ascii_of_string n) = true.
Proof. unfold isNumeral. by intros [_ H]%andb_true_iff. Qed.

Lemma position_new_part pv newStart newCount heading g :
  isNumeral newStart = true -> isCount newCount = true ->
  rmatch (Seq (lit " +") (Seq (Group 2 (plus digit))
            (Seq (opt (chr ",")) (Seq (star digit) (lit " @@")))))
    (MState pv (" +" +:+ (newStart +:+ (countText newCount +:+ (" @@" +:+ heading)))) g)
    Some
  = Some (MState (Some "@"%char) heading ((2%nat, newStart) :: g)).
Proof.
  intros Hc Hd. norm_app. cbn [rmatch lit chr Ascii.eqb Bool.eqb rest].
  apply rmatch_plus_digits; [exact Hc|by destruct newCount|].
  cbn [rest prev caps]. rewrite consumed_app.
  destruct newCount as [n|]; cbn [countText]; norm_app; unfold opt;
    cbn [rmatch chr Ascii.eqb Bool.eqb rest caps].
  - rewrite (rmatch_star_digits n _ (" @@" +:+ heading) _ _
               (MState (Some "@"%char) heading ((2%nat, newStart) :: g)));
      [reflexivity|by apply isNumeral_digits|reflexivity|].
    norm_app. reflexivity.
  - apply (rmatch_star_digits "" _ (" @@" +:+ heading)); [reflexivity|reflexivity|].
    norm_app. reflexivity.
Qed.

(** The pattern of [findPositionInPatch] on a hunk header. *)
Lemma positionHunkRe_header oldStart oldCount newStart newCount heading pv :
  isNumeral oldStart = true -> isNumeral newStart = true ->
  isCount oldCount = true -> isCount newCount = true ->
  rmatch positionHunkRe
    (MState pv (hunkHeaderText oldStart oldCount newStart newCount heading) []) Some
  = Some (MState (Some "@"%char) heading [(2%nat, newStart); (1%nat, oldStart)]).
Proof.
  intros Ha Hc Hb Hd. unfold positionHunkRe, hunkHeaderText.
  cbn [cat]. norm_app. cbn [rmatch lit chr Ascii.eqb Bool.eqb].
  apply rmatch_plus_digits; [exact Ha|by destruct oldCount|].
  cbn [rest prev caps]. rewrite consumed_app.
  destruct oldCount as [n|]; cbn [countText]; norm_app; unfold opt at 1;
    cbn [rmatch chr Ascii.eqb Bool.eqb rest caps].
  - rewrite (rmatch_star_digits n _ _ _ _
               (MState (Some "@"%char) heading [(2%nat, newStart); (1%nat, oldStart)]));
      [reflexivity|by apply isNumeral_digits|reflexivity|].
    rewrite <- (position_new_part (lastOf (Some ","%char) n)
                  newStart newCount heading [(1%nat, oldStart)] Hc Hd).
    norm_app. reflexivity.
  - apply (rmatch_star_digits "" _ (" +" +:+ (newStart +:+ (countText newCount
             +:+ (" @@" +:+ heading))))); [reflexivity|reflexivity|].
    cbn [lastOf].
    rewrite <- (position_new_part (lastOf (Some "-"%char) oldStart)
                  newStart newCount heading [(1%nat, oldStart)] Hc Hd).
    reflexivity.
Qed.

Lemma searchFrom_here r p s m : matchAt r p s = Some m -> searchFrom r p s = Some m.
Proof. intros H. destruct s; cbn [searchFrom]; by rewrite H. Qed.

Lemma hunkNewStart_header oldStart oldCount newStart newCount heading :
  isNumeral oldStart = true -> isNumeral newStart = true ->
  isCount oldCount = true -> isCount newCount = true ->
  hunkNewStart (hunkHeaderText oldStart oldCount newStart newCount heading)
  = Some (Js.parseInt newStart).
Proof.
  intros Ha Hc Hb Hd. unfold hunkNewStart, exec.
  erewrite searchFrom_here; [|unfold matchAt;
    by rewrite (hunkRe_header _ _ _ _ heading None Ha Hc Hb Hd)].
  cbn [groups caps capture Nat.eqb]. reflexivity.
Qed.

Lemma positionNewStart_header oldStart oldCount newStart newCount heading :
  isNumeral oldStart = true -> isNumeral newStart = true ->
  isCount oldCount = true -> isCount newCount = true ->
  positionNewStart (hunkHeaderText oldStart oldCount newStart newCount heading)
  = Some (Js.parseInt newStart).
Proof.
  intros Ha Hc Hb Hd. unfold positionNewStart, exec.
  erewrite searchFrom_here; [|unfold matchAt;
    by rewrite (positionHunkRe_header _ _ _ _ heading None Ha Hc Hb Hd)].
  cbn [groups caps capture Nat.eqb]. reflexivity.
Qed.

Lemma headerAgrees_standard l : standardHeader l -> headerAgrees l = true.
Proof.
  intros (a & b & c & d & h & -> & Ha & Hb & Hc & Hd & Hpos).
  unfold headerAgrees.
  rewrite (hunkNewStart_header a b c d h Ha Hc Hb Hd),
    (positionNewStart_header a b c d h Ha Hc Hb Hd).
  rewrite Z.eqb_refl, (proj2 (Z.leb_le _ _) Hpos).
  by destruct (Js.startsWith _ _).
Qed.

(** X19: the hunk headers of a unified diff.  On every line of the form
    [@@ -a,b +c,d @@ heading], where a and c are numerals and each count is a
    numeral or left out with its comma, the header pattern of [buildLineMap]
    and that of [findPositionInPatch] both match, and both read the new
    start c; whatever its state, the loop of [buildLineMap] sets its counter
    to that number and leaves the index as it is. *)
Theorem standard_header_read (oldStart : string) (oldCount : option string)
  (newStart : string) (newCount : option string) (heading : string) :
  isNumeral oldStart = true -> isCount oldCount = true ->
  isNumeral newStart = true -> isCount newCount = true ->
  let l := hunkHeaderText oldStart oldCount newStart newCount heading in
  Js.startsWith l "@@" = true
  /\ hunkNewStart l = Some (Js.parseInt newStart)
  /\ positionNewStart l = Some (Js.parseInt newStart)
  /\ (forall st, buildLineMapStep st l = (Js.parseInt newStart, st.2)).
Proof.
  intros Ha Hb Hc Hd l. subst l.
  pose proof (hunkNewStart_header oldStart oldCount newStart newCount heading Ha Hc Hb Hd) as H1.
  pose proof (positionNewStart_header oldStart oldCount newStart newCount heading Ha Hc Hb Hd) as H2.
  assert (Hat : Js.startsWith (hunkHeaderText oldStart oldCount newStart newCount heading) "@@"
                = true) by (unfold hunkHeaderText; norm_app; reflexivity).
  split; [exact Hat|]. split; [exact H1|]. split; [exact H2|].
  intros [n m]. unfold buildLineMapStep. by rewrite Hat, H1.
Qed.

Lemma standard_header_read_witness :
  hunkHeaderText "10" (Some "5") "12" (Some "8") " function main() {"
  = "@@ -10,5 +12,8 @@ function main() {"
  /\ hunkNewStart "@@ -10,5 +12,8 @@ function main() {" = Some 12
  /\ positionNewStart "@@ -10,5 +12,8 @@ function main() {" = Some 12.
Proof.
  split; [reflexivity|].
  destruct (standard_header_read "10" (Some "5") "12" (Some "8") " function main() {")
    as (_ & H1 & H2 & _); try reflexivity.
  split; [exact H1|exact H2].
Defined.

Lemma splitLines_single l : noLineBreak l = true -> Js.splitLines l = [l].
Proof.
  induction l as [|c t IH]; [reflexivity|]. cbn [noLineBreak Js.splitLines].
  intros [Hc Ht]%andb_true_iff. apply negb_true_iff in Hc. rewrite Hc, (IH Ht).
  reflexivity.
Qed.

Lemma splitLines_app_nl l more :
  noLineBreak l = true ->
  Js.splitLines (l +:+ String Js.nl more) = l :: Js.splitLines more.
Proof.
  induction l as [|c t IH]; norm_app.
  - intros _. cbn [Js.splitLines]. by rewrite Ascii.eqb_refl.
  - cbn [noLineBreak Js.splitLines].
    intros [Hc Ht]%andb_true_iff. apply negb_true_iff in Hc. rewrite Hc, (IH Ht).
    reflexivity.
Qed.

(** [split] undoes [join] on lines that hold no line break. *)
Lemma splitLines_joinLines l ls :
  Forall (fun l => noLineBreak l = true) (l :: ls) ->
  Js.splitLines (Js.joinLines (l :: ls)) = l :: ls.
Proof.
  revert l. induction ls as [|l' ls IH]; intros l Hall.
  - apply Forall_cons in Hall as [Hl _]. by apply splitLines_single.
  - apply Forall_cons in Hall as [Hl Hall].
    change (Js.joinLines (l :: l' :: ls))
      with (l +:+ String Js.nl (Js.joinLines (l' :: ls))).
    by rewrite splitLines_app_nl, IH.
Qed.

(** On a well-formed patch the two functions reach the same lines. *)
Lemma wellFormed_agreement patch targetLine :
  wellFormedPatch patch = true ->
  is_Some (findPositionInPatch patch targetLine)
  <-> targetLine ∈ dom (buildLineMap patch).
Proof.
  intros Hwf. unfold wellFormedPatch in Hwf.
  apply andb_true_iff in Hwf as [Hfirst Hall].
  pose proof (headerAgrees_nonzero _ Hall) as Hz.
  pose proof (buildLineMap_dom patch targetLine Hz) as Hdom.
  unfold findPositionInPatch. clear Hz.
  destruct (Js.splitLines patch) as [|first more]; [done|].
  cbn [forallb] in Hall. apply andb_true_iff in Hall as [Hhead Hrest].
  cbn [findPositionFrom]. rewrite Hfirst.
  cbn [Spec.numbering] in *. unfold headerAgrees, Spec.hunkHeader in *.
  rewrite Hfirst in *.
  destruct (hunkNewStart first) as [a|]; [|done].
  destruct (positionNewStart first) as [b|]; [|done].
  apply andb_true_iff in Hhead as [Hab _]. apply Z.eqb_eq in Hab as <-.
  rewrite (findPositionFrom_numbering more (0 + 1) a targetLine Hrest).
  rewrite Hdom. destruct (list_find _ _) as [[j x]|] eqn:Hfind; cbn.
  - apply list_find_Some in Hfind as (Hj & -> & _). split; [intros _|eauto].
    apply elem_of_cons. right. apply list_elem_of_lookup. by exists j.
  - apply list_find_None in Hfind. split; [by intros [? ?]|].
    intros [?|Hin]%elem_of_cons; [done|].
    rewrite Forall_forall in Hfind. by destruct (Hfind _ Hin).
Qed.

(** X20: patches made of standard hunk headers.  Take any list of lines
    without line breaks whose first line is a hunk header of the standard
    form with a new start of at least 1, and in which every line that starts
    with [@@] is such a header.  On the patch that joins them,
    [findPositionInPatch] finds a position for a target line exactly when
    the target is a key of the index of [buildLineMap]. *)
Theorem standard_patch_agreement (first : string) (others : list string) (targetLine : Z) :
  standardHeader first ->
  Forall (fun l => noLineBreak l = true) (first :: others) ->
  Forall (fun l => Js.startsWith l "@@" = true -> standardHeader l) others ->
  wellFormedPatch (Js.joinLines (first :: others)) = true
  /\ (is_Some (findPositionInPatch (Js.joinLines (first :: others)) targetLine)
      <-> targetLine ∈ dom (buildLineMap (Js.joinLines (first :: others)))).
Proof.
  intros Hfirst Hnl Hothers.
  assert (Hwf : wellFormedPatch (Js.joinLines (first :: others)) = true).
  { unfold wellFormedPatch. rewrite (splitLines_joinLines _ _ Hnl).
    destruct Hfirst as (a & b & c & d & h & -> & Hrest).
    apply andb_true_iff. split; [unfold hunkHeaderText; norm_app; reflexivity|].
    apply forallb_forall. intros l [->|Hl]%list_elem_of_In%elem_of_cons.
    - apply headerAgrees_standard. by exists a, b, c, d, h.
    - rewrite Forall_forall in Hothers. specialize (Hothers l Hl).
      destruct (Js.startsWith l "@@") eqn:Hat.
      + by apply headerAgrees_standard, Hothers.
      + unfold headerAgrees. by rewrite Hat. }
  split; [exact Hwf|]. by apply wellFormed_agreement.
Qed.

Lemma standard_patch_agreement_witness :
  Js.joinLines ["@@ -1,3 +1,4 @@"; " first"; " second"; "+added"; " third"] = oneAddedPatch
  /\ wellFormedPatch oneAddedPatch = true.
Proof.
  split; [reflexivity|].
  apply (standard_patch_agreement "@@ -1,3 +1,4 @@" [" first"; " second"; "+added"; " third"] 3).
  - exists "1", (Some "3"), "1", (Some "4"), "". repeat split; try reflexivity. all: cbn; lia.
  - refine (bool_decide_unpack _ _). vm_compute. exact I.
  - repeat constructor; intros H; discriminate H.
Defined.

Lemma trimStart_app l more :
  Js.trimStart l <> "" -> Js.trimStart (l +:+ more) = Js.trimStart l +:+ more.
Proof.
  induction l as [|c t IH]; [done|]. norm_app. cbn [Js.trimStart].
  destruct (Js.isSpace c); [exact IH|]. intros _. by norm_app.
Qed.

Lemma trimStart_idemp l : Js.trimStart (Js.trimStart l) = Js.trimStart l.
Proof.
  induction l as [|c t IH]; [reflexivity|]. cbn [Js.trimStart].
  destruct (Js.isSpace c) eqn:Hc; [exact IH|]. cbn [Js.trimStart]. by rewrite Hc.
Qed.

Lemma trimEnd_app u more :
  Js.trimEnd (u +:+ more)
  = if String.eqb (Js.trimEnd more) "" then Js.trimEnd u else u +:+ Js.trimEnd more.
Proof.
  induction u as [|c t IH]; norm_app.
  - destruct (String.eqb_spec (Js.trimEnd more) "") as [->|]; reflexivity.
  - cbn [Js.trimEnd]. rewrite IH.
    destruct (String.eqb_spec (Js.trimEnd more) "") as [E|E]; [reflexivity|].
    norm_app. destruct (t +:+ Js.trimEnd more) as [|b r] eqn:Happ; [|reflexivity].
    destruct t; norm_app; [|discriminate Happ]. rewrite append_nil in Happ. done.
Qed.

Lemma trimEnd_noLineBreak u : noLineBreak u = true -> noLineBreak (Js.trimEnd u) = true.
Proof.
  induction u as [|c t IH]; [done|]. cbn [noLineBreak Js.trimEnd].
  intros [Hc Ht]%andb_true_iff. specialize (IH Ht).
  destruct (Js.trimEnd t) as [|b r].
  - destruct (Js.isSpace c); [reflexivity|]. cbn. by rewrite Hc.
  - cbn [noLineBreak] in *. by rewrite Hc, IH.
Qed.

Lemma trimStart_noLineBreak u : noLineBreak u = true -> noLineBreak (Js.trimStart u) = true.
Proof.
  induction u as [|c t IH]; [done|]. cbn [noLineBreak Js.trimStart].
  intros [Hc Ht]%andb_true_iff.
  destruct (Js.isSpace c); [by apply IH|]. cbn [noLineBreak]. by rewrite Hc, Ht.
Qed.

Lemma trimEnd_nl more :
  Js.trimEnd (String Js.nl more) <> "" ->
  exists t, Js.trimEnd (String Js.nl more) = String Js.nl t.
Proof.
  cbn [Js.trimEnd]. destruct (Js.trimEnd more) as [|b r]; [|eauto].
  intros H. exfalso. apply H. reflexivity.
Qed.

(** The first line of the trimmed text of some lines is, once trimmed, the
    trimmed first line, when that line is not blank. *)
Lemma first_line_of_trimmed l ls :
  noLineBreak l = true -> Js.trim l <> "" ->
  Js.trim (List.hd EmptyString (Js.splitLines (Js.trim (Js.joinLines (l :: ls)))))
  = Js.trim l.
Proof.
  intros Hnl Hne.
  assert (Hstart : Js.trimStart l <> "").
  { intros E. apply Hne. unfold Js.trim. by rewrite E. }
  assert (Hu : noLineBreak (Js.trimStart l) = true) by (by apply trimStart_noLineBreak).
  assert (Hsingle : Js.trim (List.hd EmptyString (Js.splitLines (Js.trim l))) = Js.trim l).
  { unfold Js.trim at 2. rewrite splitLines_single by (by apply trimEnd_noLineBreak).
    cbn [List.hd]. apply trim_idemp. }
  destruct ls as [|l' ls]; [exact Hsingle|].
  change (Js.joinLines (l :: l' :: ls))
    with (l +:+ String Js.nl (Js.joinLines (l' :: ls))).
  set (more := String Js.nl (Js.joinLines (l' :: ls))).
  unfold Js.trim at 2. rewrite (trimStart_app l more Hstart), trimEnd_app.
  destruct (String.eqb_spec (Js.trimEnd more) "") as [E|E]; [exact Hsingle|].
  subst more. destruct (trimEnd_nl _ E) as [t ->].
  rewrite (splitLines_app_nl _ _ Hu). cbn [List.hd].
  unfold Js.trim. by rewrite trimStart_idemp.
Qed.

Lemma structuralChanges_same a : structuralChanges a a = [].
Proof.
  unfold structuralChanges.
  induction structureKeys as [|k ks IH]; [reflexivity|].
  rewrite filter_cons_False by (intros H; by apply H). exact IH.
Qed.

Lemma Qltb_one_fifth (A : gset string) :
  (0 < size A)%nat ->
  Qltb (inject_Z (Z.of_nat (size A))
        / inject_Z (Z.max (Z.of_nat (size A)) (Z.of_nat (size A)))) (2 # 10) = false.
Proof.
  intros Hpos. rewrite Z.max_id.
  assert (Hone : (inject_Z (Z.of_nat (size A)) / inject_Z (Z.of_nat (size A)) == 1)%Q).
  { apply (Qdiv_Z_eq _ _ 1); lia. }
  unfold Qltb. destruct (_ ?= _)%Q eqn:Hcmp; try reflexivity.
  apply Qlt_alt in Hcmp. rewrite Hone in Hcmp. discriminate Hcmp.
Qed.

Lemma getFirstToken_empty : getFirstToken "" = "".
Proof. reflexivity. Qed.

(** X21: the unchanged code is accepted.  A suggestion whose code, once
    trimmed, is the actual code of its lines in the index of a patch is
    accepted by [validateSuggestion], whatever the patch and the range:
    no rule rejects it and the continuity check does not raise on it. *)
Theorem unchanged_code_accepted (patch : string) (s : suggestion) :
  allLinesExist (buildLineMap patch) s ->
  Js.trim (code s) = actualCodeAt (buildLineMap patch) s ->
  validateSuggestion s (buildLineMap patch)
  = Returns (Valid (actualCodeAt (buildLineMap patch) s)).
Proof.
  intros Hall Hcode. set (lineMap := buildLineMap patch) in *.
  rewrite (validateSuggestion_lines s lineMap Hall).
  unfold validateLines. fold (actualCodeAt lineMap s).
  set (a := actualCodeAt lineMap s) in *.
  assert (Hsug : suggestedCodeOf s = a) by exact Hcode.
  assert (Hids : extractIdentifiers (code s) = extractIdentifiers a).
  { by rewrite <- (extractIdentifiers_trim (code s)), Hcode. }
  assert (Hg : guardClauseRemoved a s = false).
  { unfold guardClauseRemoved. rewrite Hsug. apply andb_negb_r. }
  assert (He : existenceCheckRemoved a s = false).
  { unfold existenceCheckRemoved. rewrite Hsug, andb_negb_r. reflexivity. }
  assert (Hc : controlFlowRewritten a s = false).
  { unfold controlFlowRewritten. rewrite Hsug, structuralChanges_same. reflexivity. }
  assert (Ho : overlapInsufficient a s = false).
  { unfold overlapInsufficient, overlapRatio, overlapRatioOf. rewrite Hids.
    destruct (Z.ltb_spec 0 (Z.of_nat (size (extractIdentifiers a)))) as [Hpos|];
      [|reflexivity].
    cbn [andb]. rewrite commonIdsOf_length, (idemp_L (∩)).
    apply Qltb_one_fifth. lia. }
  rewrite Hg, He, Hc, Ho.
  destruct (shortSnippetAccepted a s); [reflexivity|].
  destruct (Z.leb_spec 2 (endLine s - startLine s)) as [Hd|Hd]; [|reflexivity].
  unfold continuityCheck.
  destruct (actualLinesAt_cons lineMap s Hall) as (l & ls & El); [lia|].
  destruct (splitLines_cons (suggestedCodeOf s)) as (l' & ls' & El').
  rewrite El, El'. cbn [firstLineTrimmed mbind outcome_bind].
  assert (Hl : noLineBreak l = true).
  { unfold actualLinesAt, lineRange in El. rewrite seqZ_cons in El by lia.
    cbn [omap list_omap] in El.
    destruct (Hall (startLine s)) as [info Hinfo]; [lia|]. rewrite Hinfo in El.
    cbn in El. injection El as <- _.
    destruct (buildLineMap_invariant patch) as [_ Hm].
    destruct (Hm _ _ Hinfo) as (_ & _ & line & Hin & _ & _ & -> & _).
    apply noLineBreak_substring1.
    pose proof (splitLines_noLineBreak patch) as Hlines.
    rewrite Forall_forall in Hlines. by apply Hlines. }
  assert (Htok : Js.trim l = "" \/ Js.trim l' = Js.trim l).
  { destruct (String.eqb_spec (Js.trim l) "") as [E|E]; [by left|right].
    pose proof (first_line_of_trimmed l ls Hl E) as Hfirst.
    rewrite <- El in Hfirst. fold (actualCodeAt lineMap s) in Hfirst. fold a in Hfirst.
    rewrite <- Hsug, El' in Hfirst. exact Hfirst. }
  destruct Htok as [-> | ->].
  - rewrite getFirstToken_empty. reflexivity.
  - rewrite String.eqb_refl, andb_false_r. reflexivity.
Qed.

Lemma unchanged_code_accepted_witness :
  allLinesExist (buildLineMap threeLinePatch)
    (candidate threeLinePatch 1 3 "Keep" "  alpha(beta, gamma);
delta();
}")
  /\ validateSuggestion
       (candidate threeLinePatch 1 3 "Keep" "  alpha(beta, gamma);
delta();
}")
       (buildLineMap threeLinePatch)
     = Returns (Valid "alpha(beta, gamma);
delta();
}").
Proof.
  assert (H : allLinesExist (buildLineMap threeLinePatch)
    (candidate threeLinePatch 1 3 "Keep" "  alpha(beta, gamma);
delta();
}")) by lines_exist.
  split; [exact H|].
  rewrite (unchanged_code_accepted threeLinePatch _ H); [evaluate|evaluate].
Defined.

Lemma rmatch_Star_unfold greedy r x k :
  rmatch (Star greedy r) x k
  = starLoop (rmatch r) greedy k (S (String.length (rest x))) x.
Proof. reflexivity. Qed.

Lemma rmatch_Seq_unfold r1 r2 x k :
  rmatch (Seq r1 r2) x k = rmatch r1 x (fun y => rmatch r2 y k).
Proof. reflexivity. Qed.

Lemma rmatch_Chr_cons p pv c t g k :
  rmatch (Chr p) (MState pv (String c t) g) k
  = if p c then k (MState (Some c) t g) else None.
Proof. reflexivity. Qed.

(** A literal passes itself, whatever the letter case of the pattern. *)
Lemma rmatch_litI_app w : forall pv more g k,
  w <> "" ->
  rmatch (litI w) (MState pv (w +:+ more) g) k = k (MState (lastOf pv w) more g).
Proof.
  induction w as [|c t IH]; intros pv more g k Hw; [done|].
  rewrite append_cons. destruct t as [|c' t'].
  - cbn [litI]. unfold chrI. rewrite rmatch_Chr_cons, Ascii.eqb_refl. reflexivity.
  - change (litI (String c (String c' t'))) with (Seq (chrI c) (litI (String c' t'))).
    rewrite rmatch_Seq_unfold. unfold chrI at 1. rewrite rmatch_Chr_cons, Ascii.eqb_refl.
    rewrite IH by done. reflexivity.
Qed.

Lemma rmatch_lit_app w : forall pv more g k,
  w <> "" ->
  rmatch (lit w) (MState pv (w +:+ more) g) k = k (MState (lastOf pv w) more g).
Proof.
  induction w as [|c t IH]; intros pv more g k Hw; [done|].
  rewrite append_cons. destruct t as [|c' t'].
  - cbn [lit]. unfold chr. rewrite rmatch_Chr_cons, Ascii.eqb_refl. reflexivity.
  - change (lit (String c (String c' t'))) with (Seq (chr c) (lit (String c' t'))).
    rewrite rmatch_Seq_unfold. unfold chr at 1. rewrite rmatch_Chr_cons, Ascii.eqb_refl.
    rewrite IH by done. reflexivity.
Qed.

(** A greedy run of a class passes all the characters of the class ahead
    when the rest of the pattern matches after them. *)
Lemma starLoop_run p w : forall fuel pv more g k z,
  allOf p w = true -> aheadNot p more = true ->
  (String.length (w +:+ more) < fuel)%nat ->
  k (MState (lastOf pv w) more g) = Some z ->
  starLoop (rmatch (Chr p)) true k fuel (MState pv (w +:+ more) g) = Some z.
Proof.
  unfold allOf.
  induction w as [|c w IH]; intros fuel pv more g k z Hw Hmore Hfuel Hk.
  - destruct fuel as [|fuel]; [lia|]. norm_app. cbn [starLoop lastOf] in *.
    destruct more as [|c r].
    + cbn. exact Hk.
    + rewrite rmatch_Chr_cons. cbn [aheadNot] in Hmore.
      apply negb_true_iff in Hmore. by rewrite Hmore.
  - destruct fuel as [|fuel]; [lia|].
    cbn [list_ascii_of_string forallb] in Hw. apply andb_true_iff in Hw as [Hc Hw].
    rewrite append_cons in *. cbn [String.length] in Hfuel.
    cbn [starLoop]. rewrite rmatch_Chr_cons, Hc. cbn [rest String.length].
    rewrite (proj2 (Nat.ltb_lt _ _)) by lia.
    rewrite (IH fuel (Some c) more g k z); [reflexivity|done|done|lia|done].
Qed.

Lemma rmatch_star_run p w pv more g k z :
  allOf p w = true -> aheadNot p more = true ->
  k (MState (lastOf pv w) more g) = Some z ->
  rmatch (star (Chr p)) (MState pv (w +:+ more) g) k = Some z.
Proof.
  intros Hw Hmore Hk. unfold star. rewrite rmatch_Star_unfold. cbn [rest].
  apply starLoop_run; [done|done|lia|done].
Qed.

Lemma rmatch_plus_run p w pv more g k z :
  w <> "" -> allOf p w = true -> aheadNot p more = true ->
  k (MState (lastOf pv w) more g) = Some z ->
  rmatch (plus (Chr p)) (MState pv (w +:+ more) g) k = Some z.
Proof.
  unfold allOf. intros Hne Hw Hmore Hk.
  destruct w as [|c w]; [done|].
  cbn [list_ascii_of_string forallb] in Hw. apply andb_true_iff in Hw as [Hc Hw].
  unfold plus. rewrite append_cons, rmatch_Seq_unfold, rmatch_Chr_cons, Hc.
  rewrite rmatch_Star_unfold. cbn [rest].
  apply starLoop_run; [done|done|lia|done].
Qed.

(** White space before a line break: the greedy run takes the line break,
    the rest of the pattern fails on the next line, and the run gives the
    line break back. *)
Lemma rmatch_space_then_nl pv c more g k :
  Js.isSpace c = false ->
  k (MState (Some Js.nl) (String c more) g) = None ->
  rmatch (star space) (MState pv (String Js.nl (String c more)) g) k
  = k (MState pv (String Js.nl (String c more)) g).
Proof.
  intros Hc Hk. unfold star, space. rewrite rmatch_Star_unfold.
  cbn [rest String.length starLoop].
  rewrite rmatch_Chr_cons. change (Js.isSpace Js.nl) with true. cbn [rest String.length].
  rewrite (proj2 (Nat.ltb_lt _ _)) by lia.
  rewrite rmatch_Chr_cons, Hc, Hk. reflexivity.
Qed.

(** A lazy run of any characters stops at the first place where the rest
    of the pattern matches. *)
Lemma starLoop_lazy w : forall fuel pv more g k z,
  (forall pre c post, w = pre +:+ String c post ->
     k (MState (lastOf pv pre) (String c post +:+ more) g) = None) ->
  k (MState (lastOf pv w) more g) = Some z ->
  (String.length (w +:+ more) < fuel)%nat ->
  starLoop (rmatch anyChar) false k fuel (MState pv (w +:+ more) g) = Some z.
Proof.
  induction w as [|c w IH]; intros fuel pv more g k z Hfail Hk Hfuel.
  - destruct fuel as [|fuel]; [lia|]. norm_app. cbn [starLoop lastOf] in *.
    by rewrite Hk.
  - destruct fuel as [|fuel]; [lia|].
    pose proof (Hfail "" c w eq_refl) as H0. cbn [lastOf] in H0.
    rewrite append_cons in *. cbn [String.length] in Hfuel.
    cbn [starLoop]. rewrite H0. unfold anyChar at 1. rewrite rmatch_Chr_cons.
    cbn [rest String.length]. rewrite (proj2 (Nat.ltb_lt _ _)) by lia.
    apply IH; [|exact Hk|lia].
    intros pre c' post ->. apply (Hfail (String c pre) c' post). reflexivity.
Qed.

Lemma rmatch_lazy w pv more g k z :
  (forall pre c post, w = pre +:+ String c post ->
     k (MState (lastOf pv pre) (String c post +:+ more) g) = None) ->
  k (MState (lastOf pv w) more g) = Some z ->
  rmatch (lazyStar anyChar) (MState pv (w +:+ more) g) k = Some z.
Proof.
  intros Hfail Hk. unfold lazyStar. rewrite rmatch_Star_unfold. cbn [rest].
  apply starLoop_lazy; [done|done|lia].
Qed.

Lemma rmatch_Alt_unfold r1 r2 x k :
  rmatch (Alt r1 r2) x k
  = match rmatch r1 x k with Some z => Some z | None => rmatch r2 x k end.
Proof. reflexivity. Qed.

Lemma rmatch_Group_unfold n r x k :
  rmatch (Group n r) x k
  = rmatch r x (fun y =>
      k (MState (prev y) (rest y) ((n, consumed (rest x) (rest y)) :: caps y))).
Proof. reflexivity. Qed.

Lemma step_file pv more g k z :
  k (MState (Some ":"%char) more g) = Some z ->
  rmatch (alt [litI "**File:"; litI "File:"]) (MState pv ("File:" +:+ more) g) k = Some z.
Proof. intros H. cbv. cbv in H. exact H. Qed.

Lemma step_lines pv word more g k z :
  word = "Line:" \/ word = "Lines:" ->
  k (MState (Some ":"%char) more g) = Some z ->
  rmatch (alt [cat [lit "**"; lineWord; chr ":"]; cat [lineWord; chr ":"]])
    (MState pv (word +:+ more) g) k = Some z.
Proof. intros [-> | ->] H; cbv; cbv in H; by rewrite H. Qed.

Lemma step_issue pv more g k z :
  k (MState (Some ":"%char) more g) = Some z ->
  rmatch (alt [litI "**Issue:"; litI "Issue:"]) (MState pv ("Issue:" +:+ more) g) k = Some z.
Proof. intros H. cbv. cbv in H. exact H. Qed.

Lemma step_priority pv more g k z :
  k (MState (Some ":"%char) more g) = Some z ->
  rmatch (alt [litI "**Priority:"; litI "Priority:"])
    (MState pv ("Priority:" +:+ more) g) k = Some z.
Proof. intros H. cbv. cbv in H. exact H. Qed.

Lemma step_suggestion pv more g k z :
  k (MState (Some ":"%char) more g) = Some z ->
  rmatch (alt [litI "**Suggestion:**"; litI "Suggestion:"])
    (MState pv ("Suggestion:" +:+ more) g) k = Some z.
Proof. intros H. cbv. cbv in H. exact H. Qed.

Lemma rmatch_opt_chr_skip c0 pv c t g k :
  Ascii.eqb c0 c = false ->
  rmatch (opt (chr c0)) (MState pv (String c t) g) k = k (MState pv (String c t) g).
Proof.
  intros H. unfold opt, chr. rewrite rmatch_Alt_unfold, rmatch_Chr_cons, H. reflexivity.
Qed.

Lemma rmatch_optStars_nl pv t g k :
  rmatch optStars (MState pv (String Js.nl t) g) k = k (MState pv (String Js.nl t) g).
Proof.
  unfold optStars. rewrite rmatch_Seq_unfold.
  rewrite rmatch_opt_chr_skip by reflexivity. by rewrite rmatch_opt_chr_skip.
Qed.

Lemma rmatch_chr_cons c pv t g k :
  rmatch (chr c) (MState pv (String c t) g) k = k (MState (Some c) t g).
Proof. unfold chr. by rewrite rmatch_Chr_cons, Ascii.eqb_refl. Qed.

Lemma rmatch_chr_mismatch c0 pv c t g k :
  Ascii.eqb c0 c = false -> rmatch (chr c0) (MState pv (String c t) g) k = None.
Proof. intros H. unfold chr. by rewrite rmatch_Chr_cons, H. Qed.

Lemma isField_inv excl w :
  isField excl w = true ->
  w <> "" /\ allOf (notIn excl) w = true
  /\ forall more, aheadNot Js.isSpace (w +:+ more) = true.
Proof.
  destruct w as [|c t]; [done|]. cbn [isField].
  intros [Hc Hall]%andb_true_iff. split; [done|]. split; [exact Hall|].
  intros more. rewrite append_cons. exact Hc.
Qed.

Lemma isField_head excl w c0 :
  isField excl w = true -> existsb (Ascii.eqb c0) (list_ascii_of_string excl) = true ->
  exists c t, w = String c t /\ Ascii.eqb c0 c = false.
Proof.
  destruct w as [|c t]; [done|]. cbn [isField]. unfold allOf.
  cbn [list_ascii_of_string forallb].
  intros [_ [Hc _]%andb_true_iff]%andb_true_iff Hex. exists c, t. split; [reflexivity|].
  unfold notIn in Hc. apply negb_true_iff in Hc.
  destruct (Ascii.eqb_spec c0 c) as [->|]; [|reflexivity].
  apply existsb_exists in Hex as (x & Hx & Hcx). apply Ascii.eqb_eq in Hcx as ->.
  assert (Hfalse : existsb (Ascii.eqb x) (list_ascii_of_string excl) = true).
  { apply existsb_exists. exists x. split; [exact Hx|apply Ascii.eqb_refl]. }
  congruence.
Qed.

(** The closing fence: a line break and three backticks. *)
Lemma fence_close_fail s pv g k :
  Js.startsWith s (String Js.nl fence) = false ->
  rmatch (Seq (chr Js.nl) (lit "```")) (MState pv s g) k = None.
Proof.
  intros H. rewrite rmatch_Seq_unfold. unfold chr at 1.
  destruct s as [|c1 s]; [reflexivity|]. rewrite rmatch_Chr_cons.
  unfold fence in H. cbn [Js.startsWith] in H.
  rewrite (Ascii.eqb_sym Js.nl c1).
  destruct (Ascii.eqb c1 Js.nl); [|reflexivity]. cbn [andb] in H.
  change (lit "```") with (Seq (chr backtick) (Seq (chr backtick) (chr backtick))).
  rewrite rmatch_Seq_unfold. unfold chr at 1.
  destruct s as [|c2 s]; [reflexivity|]. rewrite rmatch_Chr_cons.
  rewrite (Ascii.eqb_sym backtick c2).
  destruct (Ascii.eqb c2 backtick); [|reflexivity]. cbn [andb] in H.
  rewrite rmatch_Seq_unfold. unfold chr at 1.
  destruct s as [|c3 s]; [reflexivity|]. rewrite rmatch_Chr_cons.
  rewrite (Ascii.eqb_sym backtick c3).
  destruct (Ascii.eqb c3 backtick); [|reflexivity]. cbn [andb] in H.
  unfold chr.
  destruct s as [|c4 s]; [reflexivity|]. rewrite rmatch_Chr_cons.
  rewrite (Ascii.eqb_sym backtick c4).
  destruct (Ascii.eqb c4 backtick); [|reflexivity]. discriminate H.
Qed.

Lemma includes_app_r pre s p :
  Js.includes s p = true -> Js.includes (pre +:+ s) p = true.
Proof.
  induction pre as [|c pre IH]; norm_app; [done|].
  intros H. apply includes_tail. by apply IH.
Qed.

Lemma startsWith_cons a s b p :
  Js.startsWith (String a s) (String b p) = Ascii.eqb a b && Js.startsWith s p.
Proof. reflexivity. Qed.

(** Inside a code without three backticks in a row, the closing fence
    does not start. *)
Lemma no_fence_inside code pre c post more :
  Js.includes code fence = false -> code = pre +:+ String c post ->
  Js.startsWith (String c post +:+ String Js.nl (fence +:+ more)) (String Js.nl fence) = false.
Proof.
  intros Hno ->. rewrite append_cons. unfold fence at 2. rewrite startsWith_cons.
  destruct (Ascii.eqb c Js.nl) eqn:Hc; [|reflexivity]. cbn [andb].
  destruct (Js.startsWith (post +:+ String Js.nl (fence +:+ more))
              (String backtick (String backtick (String backtick "")))) eqn:Hst;
    [|reflexivity].
  exfalso.
  assert (Hpost : Js.startsWith post fence = true).
  { unfold fence. destruct post as [|d1 post]; norm_app; [discriminate Hst|].
    rewrite append_cons in Hst. cbn [Js.startsWith] in *.
    destruct (Ascii.eqb d1 backtick); [|discriminate Hst]. cbn [andb] in *.
    destruct post as [|d2 post]; norm_app; [discriminate Hst|].
    rewrite append_cons in Hst. cbn [Js.startsWith] in *.
    destruct (Ascii.eqb d2 backtick); [|discriminate Hst]. cbn [andb] in *.
    destruct post as [|d3 post]; norm_app; [discriminate Hst|].
    rewrite append_cons in Hst. cbn [Js.startsWith] in *.
    destruct (Ascii.eqb d3 backtick); [|discriminate Hst]. reflexivity. }
  rewrite includes_app_r in Hno; [discriminate Hno|].
  apply includes_tail. by apply includes_startsWith.
Qed.

(** The fenced code of a block. *)
Lemma block_code pv code more g :
  Js.includes code fence = false ->
  rmatch
    (Seq (lit "```")
       (Seq (star (Chr (fun a => Js.isWord a || Ascii.eqb a "-")))
          (Seq (chr Js.nl)
             (Seq (Group 5 (lazyStar anyChar)) (Seq (chr Js.nl) (lit "```"))))))
    (MState pv (fence +:+ "suggestion" +:+ String Js.nl
                  (code +:+ String Js.nl (fence +:+ more))) g) Some
  = Some (MState (Some backtick) more ((5%nat, code) :: g)).
Proof.
  intros Hno. rewrite rmatch_Seq_unfold.
  rewrite (rmatch_lit_app "```") by done.
  rewrite rmatch_Seq_unfold.
  apply rmatch_star_run; [reflexivity|reflexivity|].
  rewrite rmatch_Seq_unfold, rmatch_chr_cons, rmatch_Seq_unfold, rmatch_Group_unfold.
  apply rmatch_lazy.
  - intros pre c post Hsplit. cbn [prev rest caps].
    apply fence_close_fail. by apply (no_fence_inside code pre).
  - cbn [prev rest caps]. rewrite consumed_app.
    rewrite rmatch_Seq_unfold, rmatch_chr_cons.
    by rewrite (rmatch_lit_app "```").
Qed.

Lemma suggestionRe_shape :
  suggestionRe =
  Seq (alt [litI "**File:"; litI "File:"])
  (Seq (star space)
  (Seq (opt (chr backtick))
  (Seq (Group 1 (plus (noneOf (String Js.nl "*`"))))
  (Seq (opt (chr backtick))
  (Seq optStars
  (Seq (star space) (Seq (chr Js.nl)
  (Seq linesLabelRe
  (Seq (star space)
  (Seq (Group 2 (plus notNlStar))
  (Seq optStars
  (Seq (star space) (Seq (chr Js.nl)
  (Seq (alt [litI "**Issue:"; litI "Issue:"])
  (Seq (star space)
  (Seq (Group 3 (plus notNlStar))
  (Seq optStars
  (Seq priorityRe
  (Seq (star space) (Seq (chr Js.nl)
  (Seq (alt [litI "**Suggestion:**"; litI "Suggestion:"])
  (Seq (star space) (Seq (chr Js.nl) codeRe))))))))))))))))))))))).
Proof. reflexivity. Qed.

Lemma block_tail pv code more g :
  Js.includes code fence = false ->
  rmatch
    (Seq (star space) (Seq (chr Js.nl)
    (Seq (alt [litI "**Suggestion:**"; litI "Suggestion:"])
    (Seq (star space) (Seq (chr Js.nl) codeRe)))))
    (MState pv (String Js.nl ("Suggestion:" +:+ String Js.nl
       (fence +:+ "suggestion" +:+ String Js.nl
          (code +:+ String Js.nl (fence +:+ more))))) g) Some
  = Some (MState (Some backtick) more ((5%nat, code) :: g)).
Proof.
  intros Hno.
  rewrite rmatch_Seq_unfold. rewrite (append_cons "S" "uggestion:").
  rewrite rmatch_space_then_nl;
    [|reflexivity|by rewrite rmatch_Seq_unfold, rmatch_chr_mismatch].
  rewrite <- (append_cons "S" "uggestion:").
  rewrite rmatch_Seq_unfold, rmatch_chr_cons, rmatch_Seq_unfold.
  apply step_suggestion.
  rewrite rmatch_Seq_unfold. unfold fence at 1. rewrite (append_cons backtick).
  rewrite rmatch_space_then_nl;
    [|reflexivity|by rewrite rmatch_Seq_unfold, rmatch_chr_mismatch].
  rewrite <- (append_cons backtick). fold fence.
  rewrite rmatch_Seq_unfold, rmatch_chr_cons.
  unfold codeRe. cbn [alt cat]. rewrite rmatch_Alt_unfold.
  by rewrite (block_code _ code more g Hno).
Qed.

(** White space, then the line break, before a line that starts with a
    character other than white space. *)
Lemma line_break pv c t g r k :
  Js.isSpace c = false ->
  rmatch (Seq (star space) (Seq (chr Js.nl) r)) (MState pv (String Js.nl (String c t)) g) k
  = rmatch r (MState (Some Js.nl) (String c t) g) k.
Proof.
  intros Hc. rewrite rmatch_Seq_unfold, rmatch_space_then_nl; [|exact Hc|].
  - by rewrite rmatch_Seq_unfold, rmatch_chr_cons.
  - rewrite rmatch_Seq_unfold. apply rmatch_chr_mismatch.
    destruct (Ascii.eqb_spec Js.nl c) as [<-|]; [discriminate Hc|reflexivity].
Qed.

(** The value of a field, after its label and up to the end of the line. *)
Lemma field_value (n : nat) excl value pv more g r k z :
  isField excl value = true ->
  existsb (Ascii.eqb Js.nl) (list_ascii_of_string excl) = true ->
  rmatch r (MState (lastOf (Some " "%char) value) (String Js.nl more) ((n, value) :: g)) k
  = Some z ->
  rmatch (Seq (star space) (Seq (Group n (plus (noneOf excl))) (Seq optStars r)))
    (MState pv (" " +:+ value +:+ String Js.nl more) g) k = Some z.
Proof.
  intros Hf Hnl Hk. destruct (isField_inv _ _ Hf) as (Hne & Hall & Hahead).
  rewrite rmatch_Seq_unfold.
  apply (rmatch_star_run Js.isSpace " "); [reflexivity|apply Hahead|].
  rewrite rmatch_Seq_unfold, rmatch_Group_unfold.
  apply (rmatch_plus_run (notIn excl)); [exact Hne|exact Hall| |].
  - cbn [aheadNot]. unfold notIn. by rewrite Hnl.
  - cbn [prev rest caps lastOf]. rewrite consumed_app.
    rewrite rmatch_Seq_unfold, rmatch_optStars_nl. exact Hk.
Qed.

(** The pattern of [parseSuggestions] on a suggestion block, whatever
    follows the closing fence. *)
Lemma suggestionRe_block pv path lineWord range issue priority code more :
  isField (String Js.nl "*`") path = true ->
  lineWord = "Line:" \/ lineWord = "Lines:" ->
  isField (String Js.nl "*") range = true ->
  isField (String Js.nl "*") issue = true ->
  isField (String Js.nl "*") priority = true ->
  Js.includes code fence = false ->
  rmatch suggestionRe
    (MState pv (blockThen path lineWord range issue priority code more) []) Some
  = Some (MState (Some backtick) more
            [(5%nat, code); (4%nat, priority); (3%nat, issue); (2%nat, range);
             (1%nat, path)]).
Proof.
  intros Hpath Hword Hrange Hissue Hprio Hcode.
  rewrite suggestionRe_shape. unfold blockThen.
  rewrite rmatch_Seq_unfold. apply step_file.
  (* the file label *)
  destruct (isField_inv _ _ Hpath) as (Hne & Hall & Hahead).
  rewrite rmatch_Seq_unfold.
  apply (rmatch_star_run Js.isSpace " "); [reflexivity|apply Hahead|].
  cbn [lastOf]. rewrite rmatch_Seq_unfold.
  destruct (isField_head _ _ backtick Hpath eq_refl) as (c & t & Ept & Hbt).
  rewrite Ept at 1. rewrite append_cons, (rmatch_opt_chr_skip _ _ _ _ _ _ Hbt).
  rewrite <- append_cons, <- Ept.
  rewrite rmatch_Seq_unfold, rmatch_Group_unfold.
  apply (rmatch_plus_run (notIn (String Js.nl "*`"))); [exact Hne|exact Hall|reflexivity|].
  cbn [prev rest caps]. rewrite consumed_app.
  rewrite rmatch_Seq_unfold, rmatch_opt_chr_skip by reflexivity.
  rewrite rmatch_Seq_unfold, rmatch_optStars_nl.
  (* the lines label *)
  assert (Hw : exists t', lineWord = String "L" t').
  { destruct Hword as [-> | ->]; eauto. }
  destruct Hw as [t' Ew]. rewrite Ew at 1. rewrite (append_cons "L").
  rewrite line_break by reflexivity. rewrite <- (append_cons "L"), <- Ew.
  rewrite rmatch_Seq_unfold. apply step_lines; [exact Hword|].
  apply (field_value 2 (String Js.nl "*")); [exact Hrange|reflexivity|].
  (* the issue *)
  rewrite (append_cons "I" "ssue:"). rewrite line_break by reflexivity.
  rewrite <- (append_cons "I" "ssue:").
  rewrite rmatch_Seq_unfold. apply step_issue.
  apply (field_value 3 (String Js.nl "*")); [exact Hissue|reflexivity|].
  (* the priority *)
  rewrite rmatch_Seq_unfold. unfold priorityRe, opt. cbn [cat].
  rewrite rmatch_Alt_unfold.
  assert (Hprio_line : forall pv' g',
    rmatch
      (Seq (chr Js.nl) (Seq (alt [litI "**Priority:"; litI "Priority:"])
         (Seq (star space) (Seq (Group 4 (plus notNlStar)) optStars))))
      (MState pv' (String Js.nl ("Priority:" +:+ " " +:+ priority +:+ String Js.nl
         ("Suggestion:" +:+ String Js.nl (fence +:+ "suggestion" +:+ String Js.nl
            (code +:+ String Js.nl (fence +:+ more)))))) g')
      (fun y => rmatch
         (Seq (star space) (Seq (chr Js.nl)
         (Seq (alt [litI "**Suggestion:**"; litI "Suggestion:"])
         (Seq (star space) (Seq (chr Js.nl) codeRe))))) y Some)
    = Some (MState (Some backtick) more ((5%nat, code) :: (4%nat, priority) :: g'))).
  { intros pv' g'. rewrite rmatch_Seq_unfold, rmatch_chr_cons, rmatch_Seq_unfold.
    apply step_priority.
    destruct (isField_inv _ _ Hprio) as (Hne4 & Hall4 & Hahead4).
    rewrite rmatch_Seq_unfold.
    apply (rmatch_star_run Js.isSpace " "); [reflexivity|apply Hahead4|].
    rewrite rmatch_Seq_unfold, rmatch_Group_unfold.
    apply (rmatch_plus_run (notIn (String Js.nl "*"))); [exact Hne4|exact Hall4|reflexivity|].
    cbn [prev rest caps lastOf]. rewrite consumed_app, rmatch_optStars_nl.
    by apply block_tail. }
  by rewrite Hprio_line.
Qed.

(** Decimal rendering and [parseInt]. *)
Lemma parseDigits_of_uint_acc d : forall acc,
  Js.parseDigits (Z.pos acc) (NilEmpty.string_of_uint d) = Z.pos (Pos.of_uint_acc d acc).
Proof.
  induction d; intros acc; cbn [NilEmpty.string_of_uint Pos.of_uint_acc Js.parseDigits];
    [reflexivity|..]; rewrite <- IHd; f_equal;
    match goal with |- context [Js.digitVal ?c] =>
      let v := eval vm_compute in (Js.digitVal c) in change (Js.digitVal c) with v end;
    lia.
Qed.

Lemma parseDigits_of_uint d :
  Js.parseDigits 0 (NilEmpty.string_of_uint d) = Z.of_N (Pos.of_uint d).
Proof.
  induction d; cbn [NilEmpty.string_of_uint Pos.of_uint Js.parseDigits];
    [reflexivity|exact IHd|..];
    match goal with |- context [Js.digitVal ?c] =>
      let v := eval vm_compute in (Js.digitVal c) in change (Js.digitVal c) with v end;
    cbn [Z.mul Z.add Z.of_N]; apply parseDigits_of_uint_acc.
Qed.

Lemma string_of_uint_digits d :
  forallb Js.isDigit (list_ascii_of_string (NilEmpty.string_of_uint d)) = true.
Proof.
  induction d; cbn [NilEmpty.string_of_uint list_ascii_of_string forallb];
    [reflexivity|..]; rewrite IHd; reflexivity.
Qed.

Lemma showZ_pos p : Js.showZ (Z.pos p) = NilEmpty.string_of_uint (Pos.to_uint p).
Proof.
  unfold Js.showZ. cbn [Z.to_int NilZero.string_of_int]. unfold NilZero.string_of_uint.
  pose proof (DecimalPos.Unsigned.to_uint_nonnil p) as Hnn.
  by destruct (Pos.to_uint p).
Qed.

Lemma showZ_parseInt n : 0 <= n -> Js.parseInt (Js.showZ n) = n.
Proof.
  intros Hn. destruct n as [|p|p]; [reflexivity| |lia].
  rewrite showZ_pos. unfold Js.parseInt.
  by rewrite parseDigits_of_uint, DecimalPos.Unsigned.of_to.
Qed.

Lemma showZ_numeral n : 0 <= n -> isNumeral (Js.showZ n) = true.
Proof.
  intros Hn. destruct n as [|p|p]; [reflexivity| |lia].
  rewrite showZ_pos. unfold isNumeral. rewrite string_of_uint_digits, andb_true_r.
  pose proof (DecimalPos.Unsigned.to_uint_nonnil p) as Hnn.
  by destruct (Pos.to_uint p).
Qed.

Lemma append_nil_r (a : string) : a +:+ "" = a.
Proof. induction a as [|c a IH]; norm_app; [reflexivity|]. by rewrite IH. Qed.

Lemma rmatch_Chr_nil p pv g k : rmatch (Chr p) (MState pv "" g) k = None.
Proof. reflexivity. Qed.

(** The pattern of the line numbers on a numeral and on a range. *)
Lemma lineNumbersRe_single a pv :
  isNumeral a = true ->
  rmatch lineNumbersRe (MState pv a []) Some
  = Some (MState (lastOf pv a) "" [(1%nat, a)]).
Proof.
  intros Ha. unfold lineNumbersRe. cbn [cat].
  rewrite <- (append_nil_r a) at 1.
  rewrite rmatch_Seq_unfold, rmatch_Group_unfold.
  apply rmatch_plus_digits; [exact Ha|reflexivity|].
  cbn [prev rest caps]. rewrite consumed_app.
  unfold opt. rewrite rmatch_Alt_unfold, rmatch_Seq_unfold. unfold chr.
  rewrite rmatch_Chr_nil. reflexivity.
Qed.

Lemma lineNumbersRe_range a b pv :
  isNumeral a = true -> isNumeral b = true ->
  rmatch lineNumbersRe (MState pv (a +:+ String "-" b) []) Some
  = Some (MState (lastOf (Some "-"%char) b) "" [(2%nat, b); (1%nat, a)]).
Proof.
  intros Ha Hb. unfold lineNumbersRe. cbn [cat].
  rewrite rmatch_Seq_unfold, rmatch_Group_unfold.
  apply rmatch_plus_digits; [exact Ha|reflexivity|].
  cbn [prev rest caps]. rewrite consumed_app.
  unfold opt. rewrite rmatch_Alt_unfold, rmatch_Seq_unfold, rmatch_chr_cons.
  rewrite <- (append_nil_r b) at 1.
  rewrite rmatch_Group_unfold.
  rewrite (rmatch_plus_digits b _ "" _ _
             (MState (lastOf (Some "-"%char) b) "" [(2%nat, b); (1%nat, a)]));
    [reflexivity|exact Hb|reflexivity|].
  cbn [prev rest caps]. by rewrite consumed_app.
Qed.

Lemma isDigit_class c :
  Js.isDigit c = true -> Js.isSpace c = false /\ notIn (String Js.nl "*") c = true.
Proof. destruct c as [[] [] [] [] [] [] [] []]; vm_compute; intros H; split; congruence. Qed.

Lemma allOf_app p a b : allOf p (a +:+ b) = allOf p a && allOf p b.
Proof.
  unfold allOf. induction a as [|c a IH]; norm_app; [reflexivity|].
  cbn [list_ascii_of_string forallb]. by rewrite IH, andb_assoc.
Qed.

Lemma numeral_class a :
  forallb Js.isDigit (list_ascii_of_string a) = true ->
  allOf (notIn (String Js.nl "*")) a = true.
Proof.
  unfold allOf. induction a as [|c a IH]; [reflexivity|].
  cbn [list_ascii_of_string forallb]. intros [Hc Ha]%andb_true_iff.
  by rewrite (proj2 (isDigit_class c Hc)), IH.
Qed.

Lemma numeral_field a more :
  isNumeral a = true -> allOf (notIn (String Js.nl "*")) more = true ->
  isField (String Js.nl "*") (a +:+ more) = true.
Proof.
  unfold isNumeral. intros [Hne Ha]%andb_true_iff Hmore.
  destruct a as [|c a]; [done|]. rewrite append_cons. cbn [isField].
  rewrite <- append_cons, allOf_app, (numeral_class _ Ha), Hmore, andb_true_r.
  cbn [list_ascii_of_string forallb] in Ha. apply andb_true_iff in Ha as [Hc _].
  by rewrite (proj1 (isDigit_class c Hc)).
Qed.

Lemma rangeOf_field s :
  0 <= startLine s -> 0 <= endLine s -> isField (String Js.nl "*") (rangeOf s) = true.
Proof.
  intros Hs He. unfold rangeOf.
  pose proof (showZ_numeral _ Hs) as Ha. pose proof (showZ_numeral _ He) as Hb.
  destruct (startLine s =? endLine s).
  - rewrite <- (append_nil_r (Js.showZ (startLine s))). by apply numeral_field.
  - apply numeral_field; [exact Ha|].
    change (String "-" (Js.showZ (endLine s))) with ("-" +:+ Js.showZ (endLine s)).
    rewrite allOf_app. apply andb_true_iff. split; [reflexivity|].
    apply numeral_class. unfold isNumeral in Hb. by apply andb_true_iff in Hb as [_ Hb].
Qed.

Lemma priority_field pr :
  pr ∈ ["URGENT"; "HIGH"; "MEDIUM"; "LOW"] ->
  isField (String Js.nl "*") pr = true /\ normalizePriority (Some pr) = pr.
Proof.
  intros H. repeat (apply elem_of_cons in H as [->|H]; [split; reflexivity|]).
  by apply elem_of_nil in H.
Qed.

(** The loop body of [parseSuggestions] on the captures of a block. *)
Lemma parseBlock_block files s m :
  printable files s ->
  groups m = [(5%nat, code s); (4%nat, priority s); (3%nat, issue s);
              (2%nat, rangeOf s); (1%nat, path s)] ->
  parseBlock files m = Some s.
Proof.
  intros (Hres & Hname & Hpatch & _ & Htp & _ & Hti & Hpr & _ & Htc & Hcode & Hs & He) Hg.
  unfold parseBlock. rewrite Hg. cbn [capture Nat.eqb orEmpty default from_option id].
  rewrite Htp, Hres, Hpatch.
  assert (Hexec : exists lineMatch,
    exec lineNumbersRe (rangeOf s) = Some lineMatch
    /\ capture 1 (groups lineMatch) = Some (Js.showZ (startLine s))
    /\ capture 2 (groups lineMatch)
       = if startLine s =? endLine s then None else Some (Js.showZ (endLine s))).
  { unfold exec, rangeOf.
    pose proof (showZ_numeral _ Hs) as Ha. pose proof (showZ_numeral _ He) as Hb.
    destruct (startLine s =? endLine s).
    - eexists. split; [apply searchFrom_here; unfold matchAt;
        by rewrite (lineNumbersRe_single _ None Ha)|]. by split.
    - eexists. split; [apply searchFrom_here; unfold matchAt;
        by rewrite (lineNumbersRe_range _ _ None Ha Hb)|]. by split. }
  destruct Hexec as (lineMatch & -> & -> & Hcap2). rewrite Hcap2.
  cbn [orEmpty default from_option id]. unfold blockCode. rewrite Htc.
  destruct (String.eqb_spec (code s) "") as [|_]; [done|].
  rewrite Htc, Hti, (showZ_parseInt _ Hs).
  rewrite (proj2 (priority_field (priority s) Hpr)) at 1.
  assert (Hend : (if startLine s =? endLine s then startLine s
                  else if String.eqb (Js.showZ (endLine s)) "" then startLine s
                       else Js.parseInt (Js.showZ (endLine s))) = endLine s).
  { destruct (Z.eqb_spec (startLine s) (endLine s)) as [E|_]; [exact E|].
    pose proof (showZ_numeral _ He) as Hb. unfold isNumeral in Hb.
    apply andb_true_iff in Hb as [Hb _]. apply negb_true_iff in Hb. rewrite Hb.
    by apply showZ_parseInt. }
  destruct s as [p i c a b pr f]. cbn [path issue code startLine endLine priority file] in *.
  subst p. f_equal. f_equal.
  destruct (a =? b); exact Hend.
Qed.

Lemma string_app_assoc (a b c : string) : (a +:+ b) +:+ c = a +:+ (b +:+ c).
Proof. induction a as [|x a IH]; norm_app; [reflexivity|]. by rewrite IH. Qed.

Lemma blockThen_app path lineWord range issue priority code more :
  blockThen path lineWord range issue priority code more
  = blockThen path lineWord range issue priority code "" +:+ more.
Proof.
  unfold blockThen.
  repeat (rewrite string_app_assoc || rewrite append_cons || rewrite append_nil).
  reflexivity.
Qed.

Lemma scan_skip_app r w : forall p more,
  scan r p (w +:+ more) (String.length w) = scan r (lastOf p w) more O.
Proof.
  induction w as [|c w IH]; intros p more; norm_app; [reflexivity|].
  cbn [String.length scan lastOf]. apply IH.
Qed.

Lemma file_label_mismatch pv c t g k :
  Ascii.eqb (Js.fold c) (Js.fold "*") = false ->
  Ascii.eqb (Js.fold c) (Js.fold "F") = false ->
  rmatch (alt [litI "**File:"; litI "File:"]) (MState pv (String c t) g) k = None.
Proof.
  intros H1 H2. cbn [alt]. rewrite rmatch_Alt_unfold.
  change (litI "**File:") with (Seq (chrI "*") (litI "*File:")).
  change (litI "File:") with (Seq (chrI "F") (litI "ile:")).
  rewrite !rmatch_Seq_unfold. unfold chrI. by rewrite !rmatch_Chr_cons, H1, H2.
Qed.

Lemma scan_line_break pv more :
  scan suggestionRe pv (String Js.nl more) O = scan suggestionRe (Some Js.nl) more O.
Proof.
  cbn [scan]. unfold matchAt. rewrite suggestionRe_shape, rmatch_Seq_unfold.
  by rewrite file_label_mismatch.
Qed.

Lemma scan_end pv : scan suggestionRe pv "" O = [].
Proof. reflexivity. Qed.

(** The matches of the pattern on a block followed by more text: the
    block, then the matches in the text after it. *)
Lemma scan_block files s pv more :
  printable files s ->
  exists pv',
    omap (parseBlock files) (scan suggestionRe pv (renderThen s more) O)
    = s :: omap (parseBlock files) (scan suggestionRe pv' more O).
Proof.
  intros Hp.
  pose proof Hp as (_ & _ & _ & Hfp & _ & Hfi & _ & Hpr & Hnf & _ & _ & Hs & He).
  assert (Hmatch : rmatch suggestionRe (MState pv (renderThen s more) []) Some
    = Some (MState (Some backtick) more
              [(5%nat, code s); (4%nat, priority s); (3%nat, issue s);
               (2%nat, rangeOf s); (1%nat, path s)])).
  { unfold renderThen. apply suggestionRe_block; try done.
    - unfold lineWordOf. destruct (_ =? _); auto.
    - by apply rangeOf_field.
    - by apply priority_field. }
  assert (Htext : exists c t, renderThen s "" = String c t).
  { unfold renderThen, blockThen. rewrite (append_cons "F"). eauto. }
  destruct Htext as (c & t & Et).
  assert (Hfull : renderThen s more = String c (t +:+ more)).
  { unfold renderThen in *. by rewrite blockThen_app, Et, append_cons. }
  exists (lastOf (Some c) t).
  rewrite Hfull at 1. cbn [scan]. rewrite <- Hfull. unfold matchAt. rewrite Hmatch.
  cbn [whole rest omap list_omap].
  erewrite parseBlock_block; [|exact Hp|reflexivity].
  f_equal. f_equal.
  assert (Hlen : Nat.pred (String.length (consumed (renderThen s more) more))
                 = String.length t).
  { unfold renderThen in *. rewrite blockThen_app, consumed_app, Et. reflexivity. }
  rewrite Hlen. apply scan_skip_app.
Qed.

Lemma scan_renderAll files ss :
  Forall (printable files) ss ->
  forall pv, omap (parseBlock files) (scan suggestionRe pv (renderAll ss) O) = ss.
Proof.
  induction 1 as [|s ss Hs _ IH]; intros pv; [by rewrite scan_end|].
  cbn [renderAll].
  destruct (scan_block files s pv (String Js.nl (renderAll ss)) Hs) as [pv' ->].
  by rewrite scan_line_break, IH.
Qed.

(** X22: blocks of the requested format are read back.  Write any list
    of printable suggestions as blocks of the format the suggestions pass
    asks for (File, Line or Lines, Issue, Priority, Suggestion and a fenced
    code), one after the other.  [parseSuggestions] finds exactly these
    suggestions, in order, and returns them deduplicated; when their keys
    are pairwise different it returns the very list. *)
Theorem parseSuggestions_reads_blocks (files : list prFile) (ss : list suggestion) :
  Forall (printable files) ss ->
  parsedBlocks (renderAll ss) files = ss
  /\ parseSuggestions (renderAll ss) files = dedup ss
  /\ (NoDup (dedupKey <$> ss) -> parseSuggestions (renderAll ss) files = ss).
Proof.
  intros Hp.
  assert (Hblocks : parsedBlocks (renderAll ss) files = ss).
  { unfold parsedBlocks, matchAll. by apply scan_renderAll. }
  assert (Hparse : parseSuggestions (renderAll ss) files = dedup ss).
  { by rewrite parseSuggestions_dedup, Hblocks. }
  split; [exact Hblocks|]. split; [exact Hparse|].
  intros Hnd. rewrite Hparse, dedup_dedupFrom.
  apply dedupFrom_id; [exact Hnd|]. intros c _. apply not_elem_of_empty.
Qed.

(** The theorem at two blocks, [Lines: 2-3] and [Line: 12], on one file. *)
Lemma parseSuggestions_reads_blocks_witness :
  Forall (printable [RoundTripExamples.changedFile])
    [RoundTripExamples.rangeSuggestion; RoundTripExamples.lineSuggestion]
  /\ NoDup (dedupKey <$> [RoundTripExamples.rangeSuggestion; RoundTripExamples.lineSuggestion])
  /\ parseSuggestions
       (renderAll [RoundTripExamples.rangeSuggestion; RoundTripExamples.lineSuggestion])
       [RoundTripExamples.changedFile]
     = [RoundTripExamples.rangeSuggestion; RoundTripExamples.lineSuggestion].
Proof.
  assert (Hp : Forall (printable [RoundTripExamples.changedFile])
                 [RoundTripExamples.rangeSuggestion; RoundTripExamples.lineSuggestion]).
  { constructor; [|constructor; [|constructor]];
      (unfold printable;
       repeat match goal with |- _ /\ _ => split end;
       try (vm_compute; reflexivity); try (cbn; lia); try discriminate;
       refine (bool_decide_unpack _ _); vm_compute; exact I). }
  assert (Hn : NoDup (dedupKey <$> [RoundTripExamples.rangeSuggestion;
                                    RoundTripExamples.lineSuggestion])).
  { refine (bool_decide_unpack _ _). vm_compute. exact I. }
  split; [exact Hp|]. split; [exact Hn|].
  exact (proj2 (proj2 (parseSuggestions_reads_blocks _ _ Hp)) Hn).
Defined.
